(** * TicTacToe: a shallow embedding of the on-chain game engine

    The contract [TicTacToe] (Solidity ^0.8.20) is embedded function by
    function.  Unsigned integers and addresses are [N]; [uint256]
    increments are checked, as the compiler emits them, and raise [Panic]
    on overflow.  Solidity mappings are total, so a [gmap] is always read
    through a default (the all-zero value of the value type).  A call runs
    in the transaction monad [Tx]: a revert keeps the storage the body
    had reached, and [transact] is the ledger's all-or-nothing rule that
    throws that storage away. *)

From Stdlib Require Import Ascii String NArith Lia.
From stdpp Require Import base decidable option list numbers gmap strings sorting.

Local Open Scope N_scope.

(** ** Enums, structs and events *)

Inductive CellState := Empty | X | O.

Inductive GameState := WaitingForPlayer | InProgress | Finished | Draw.

#[global] Instance CellState_eq_dec : EqDecision CellState.
Proof. solve_decision. Defined.

#[global] Instance GameState_eq_dec : EqDecision GameState.
Proof. solve_decision. Defined.

Abbreviation address := N (only parsing).

Record Game := mkGame {
  player1 : address;
  player2 : address;
  board : list CellState;
  currentTurn : address;
  winner : address;
  state : GameState;
  createdAt : N;
  lastMoveAt : N
}.

Inductive Event :=
| GameCreated (gameId : N) (p1 : address)
| GameJoined (gameId : N) (p2 : address)
| MoveMade (gameId : N) (player : address) (position : N)
| GameWon (gameId : N) (w : address)
| GameDraw (gameId : N)
| WinnerNFTMinted (tokenId : N) (w : address) (gameId : N).

Inductive Error :=
| GameNotFound
| GameNotWaitingForPlayer
| GameNotInProgress
| CannotJoinOwnGame
| NotYourTurn
| InvalidPosition
| CellNotEmpty
| NotAPlayer
| GameAlreadyFinished
| Panic.

#[global] Instance Error_eq_dec : EqDecision Error.
Proof. solve_decision. Defined.

(** Contract storage, with the event log of the current history and the
    token-owner table inherited from ERC721. *)
Record Contract := mkContract {
  gameCounter : N;
  _tokenIdCounter : N;
  games : gmap N Game;
  playerGames : gmap N (list N);
  playerWins : gmap N N;
  playerGamesPlayed : gmap N N;
  _owners : gmap N N;
  events : list Event
}.

(** The value a mapping returns for a key never written. *)
Definition zero_game : Game :=
  mkGame 0 0 (replicate 9 Empty) 0 0 WaitingForPlayer 0 0.

Definition game_at (s : Contract) (gameId : N) : Game :=
  default zero_game (games s !! gameId).

Definition uint_at (m : gmap N N) (k : N) : N := default 0 (m !! k).

Definition ids_at (m : gmap N (list N)) (k : N) : list N := default [] (m !! k).

Definition init : Contract := mkContract 0 0 ∅ ∅ ∅ ∅ ∅ [].

Definition MAX_UINT256 : N := 2 ^ 256 - 1.

(** Field writes. *)
Definition set_player1 (v : address) (g : Game) : Game :=
  mkGame v (player2 g) (board g) (currentTurn g) (winner g) (state g) (createdAt g) (lastMoveAt g).
Definition set_player2 (v : address) (g : Game) : Game :=
  mkGame (player1 g) v (board g) (currentTurn g) (winner g) (state g) (createdAt g) (lastMoveAt g).
Definition set_board (v : list CellState) (g : Game) : Game :=
  mkGame (player1 g) (player2 g) v (currentTurn g) (winner g) (state g) (createdAt g) (lastMoveAt g).
Definition set_currentTurn (v : address) (g : Game) : Game :=
  mkGame (player1 g) (player2 g) (board g) v (winner g) (state g) (createdAt g) (lastMoveAt g).
Definition set_winner (v : address) (g : Game) : Game :=
  mkGame (player1 g) (player2 g) (board g) (currentTurn g) v (state g) (createdAt g) (lastMoveAt g).
Definition set_state (v : GameState) (g : Game) : Game :=
  mkGame (player1 g) (player2 g) (board g) (currentTurn g) (winner g) v (createdAt g) (lastMoveAt g).
Definition set_createdAt (v : N) (g : Game) : Game :=
  mkGame (player1 g) (player2 g) (board g) (currentTurn g) (winner g) (state g) v (lastMoveAt g).
Definition set_lastMoveAt (v : N) (g : Game) : Game :=
  mkGame (player1 g) (player2 g) (board g) (currentTurn g) (winner g) (state g) (createdAt g) v.

Definition set_gameCounter (v : N) (s : Contract) : Contract :=
  mkContract v (_tokenIdCounter s) (games s) (playerGames s) (playerWins s)
    (playerGamesPlayed s) (_owners s) (events s).
Definition set_tokenIdCounter (v : N) (s : Contract) : Contract :=
  mkContract (gameCounter s) v (games s) (playerGames s) (playerWins s)
    (playerGamesPlayed s) (_owners s) (events s).
Definition set_games (v : gmap N Game) (s : Contract) : Contract :=
  mkContract (gameCounter s) (_tokenIdCounter s) v (playerGames s) (playerWins s)
    (playerGamesPlayed s) (_owners s) (events s).
Definition set_playerGames (v : gmap N (list N)) (s : Contract) : Contract :=
  mkContract (gameCounter s) (_tokenIdCounter s) (games s) v (playerWins s)
    (playerGamesPlayed s) (_owners s) (events s).
Definition set_playerWins (v : gmap N N) (s : Contract) : Contract :=
  mkContract (gameCounter s) (_tokenIdCounter s) (games s) (playerGames s) v
    (playerGamesPlayed s) (_owners s) (events s).
Definition set_playerGamesPlayed (v : gmap N N) (s : Contract) : Contract :=
  mkContract (gameCounter s) (_tokenIdCounter s) (games s) (playerGames s) (playerWins s)
    v (_owners s) (events s).
Definition set_owners (v : gmap N N) (s : Contract) : Contract :=
  mkContract (gameCounter s) (_tokenIdCounter s) (games s) (playerGames s) (playerWins s)
    (playerGamesPlayed s) v (events s).
Definition set_events (v : list Event) (s : Contract) : Contract :=
  mkContract (gameCounter s) (_tokenIdCounter s) (games s) (playerGames s) (playerWins s)
    (playerGamesPlayed s) (_owners s) v.

(** ** The transaction monad *)

Inductive result (A : Type) :=
| Ok (a : A)
| Revert (e : Error).
Arguments Ok {A} a.
Arguments Revert {A} e.

(** A body returns its result together with the storage it had reached:
    on [Revert] that is the storage at the point of the revert. *)
Definition Tx (A : Type) : Type := Contract → result A * Contract.

#[global] Instance Tx_ret : MRet Tx := λ A a s, (Ok a, s).

#[global] Instance Tx_bind : MBind Tx := λ A B f m s,
  match m s with
  | (Ok a, s') => f a s'
  | (Revert e, s') => (Revert e, s')
  end.

Definition revert {A} (e : Error) : Tx A := λ s, (Revert e, s).

Definition revert_if (c : bool) (e : Error) : Tx unit :=
  if c then revert e else mret ().

Definition read {A} (f : Contract → A) : Tx A := λ s, (Ok (f s), s).

Definition write (f : Contract → Contract) : Tx unit := λ s, (Ok (), f s).

(** [game.field = v] through the storage pointer [games[gameId]]. *)
Definition game_write (gameId : N) (f : Game → Game) : Tx unit :=
  write (λ s, set_games (<[gameId := f (game_at s gameId)]> (games s)) s).

Definition game_read {A} (gameId : N) (f : Game → A) : Tx A :=
  read (λ s, f (game_at s gameId)).

Definition emit (e : Event) : Tx unit :=
  write (λ s, set_events (events s ++ [e]) s).

(** Checked [x + 1] on [uint256]. *)
Definition checked_inc (n : N) : Tx N :=
  if bool_decide (n < MAX_UINT256) then mret (n + 1) else revert Panic.

(** The ledger applies a call atomically: a reverted call leaves the
    storage it started from. *)
Definition transact {A} (m : Tx A) (s : Contract) : result A * Contract :=
  match m s with
  | (Ok a, s') => (Ok a, s')
  | (Revert e, _) => (Revert e, s)
  end.

(** The execution context of a call. *)
Record Env := mkEnv { sender : address; timestamp : N }.

(** ** Board engine *)

Definition cell (b : list CellState) (i : nat) : CellState :=
  default Empty (b !! i).

Definition is_mark (b : list CellState) (i : nat) (mark : CellState) : bool :=
  bool_decide (cell b i = mark).

Definition _checkWinner (b : list CellState) (mark : CellState) : bool :=
  if is_mark b 0 mark && is_mark b 1 mark && is_mark b 2 mark then true else
  if is_mark b 3 mark && is_mark b 4 mark && is_mark b 5 mark then true else
  if is_mark b 6 mark && is_mark b 7 mark && is_mark b 8 mark then true else
  if is_mark b 0 mark && is_mark b 3 mark && is_mark b 6 mark then true else
  if is_mark b 1 mark && is_mark b 4 mark && is_mark b 7 mark then true else
  if is_mark b 2 mark && is_mark b 5 mark && is_mark b 8 mark then true else
  if is_mark b 0 mark && is_mark b 4 mark && is_mark b 8 mark then true else
  if is_mark b 2 mark && is_mark b 4 mark && is_mark b 6 mark then true else
  false.

(** [for (i = 0; i < 9; i++) if (board[i] == Empty) return false;] with
    [n] iterations left. *)
Fixpoint _isBoardFull_loop (n i : nat) (b : list CellState) : bool :=
  match n with
  | 0%nat => true
  | S n' => if is_mark b i Empty then false else _isBoardFull_loop n' (S i) b
  end.

Definition _isBoardFull (b : list CellState) : bool := _isBoardFull_loop 9 0 b.

(** The table of lines of the front end ([WINNING_COMBINATIONS]). *)
Definition WINNING_COMBINATIONS : list (list nat) :=
  [[0; 1; 2]; [3; 4; 5]; [6; 7; 8]; [0; 3; 6]; [1; 4; 7]; [2; 5; 8]; [0; 4; 8]; [2; 4; 6]]%nat.

(** ** External functions *)

(** Modelled from the spec: the inherited ERC721 [_safeMint] is not among
    the sources; per the spec, minting records the owner of the fresh
    token and always succeeds. *)
Definition _safeMint (to tokenId : N) : Tx unit :=
  write (λ s, set_owners (<[tokenId := to]> (_owners s)) s).

Definition _mintWinnerNFT (w : address) (gameId : N) : Tx unit :=
  tokenId ← read _tokenIdCounter;
  next ← checked_inc tokenId;
  write (set_tokenIdCounter next);;
  _safeMint w tokenId;;
  emit (WinnerNFTMinted tokenId w gameId).

Definition createGame (env : Env) : Tx N :=
  gameId ← read gameCounter;
  next ← checked_inc gameId;
  write (set_gameCounter next);;
  game_write gameId (set_player1 (sender env));;
  game_write gameId (set_player2 0);;
  game_write gameId (set_currentTurn (sender env));;
  game_write gameId (set_winner 0);;
  game_write gameId (set_state WaitingForPlayer);;
  game_write gameId (set_createdAt (timestamp env));;
  game_write gameId (set_lastMoveAt (timestamp env));;
  game_write gameId (λ g, set_board (foldl (λ b i, <[i := Empty]> b) (board g) (seq 0 9)) g);;
  write (λ s, set_playerGames
    (<[sender env := ids_at (playerGames s) (sender env) ++ [gameId]]> (playerGames s)) s);;
  emit (GameCreated gameId (sender env));;
  mret gameId.

(** [m[k]++] on a [mapping(address => uint256)]. *)
Definition inc_playerGamesPlayed (k : address) : Tx unit :=
  v ← read (λ s, uint_at (playerGamesPlayed s) k);
  v' ← checked_inc v;
  write (λ s, set_playerGamesPlayed (<[k := v']> (playerGamesPlayed s)) s).

Definition inc_playerWins (k : address) : Tx unit :=
  v ← read (λ s, uint_at (playerWins s) k);
  v' ← checked_inc v;
  write (λ s, set_playerWins (<[k := v']> (playerWins s)) s).

Definition joinGame (env : Env) (gameId : N) : Tx unit :=
  p1 ← game_read gameId player1;
  revert_if (bool_decide (p1 = 0)) GameNotFound;;
  st ← game_read gameId state;
  revert_if (bool_decide (st ≠ WaitingForPlayer)) GameNotWaitingForPlayer;;
  p1 ← game_read gameId player1;
  revert_if (bool_decide (p1 = sender env)) CannotJoinOwnGame;;
  game_write gameId (set_player2 (sender env));;
  game_write gameId (set_state InProgress);;
  game_write gameId (set_lastMoveAt (timestamp env));;
  write (λ s, set_playerGames
    (<[sender env := ids_at (playerGames s) (sender env) ++ [gameId]]> (playerGames s)) s);;
  p1 ← game_read gameId player1;
  inc_playerGamesPlayed p1;;
  inc_playerGamesPlayed (sender env);;
  emit (GameJoined gameId (sender env)).

Definition makeMove (env : Env) (gameId : N) (position : N) : Tx unit :=
  p1 ← game_read gameId player1;
  revert_if (bool_decide (p1 = 0)) GameNotFound;;
  st ← game_read gameId state;
  revert_if (bool_decide (st ≠ InProgress)) GameNotInProgress;;
  st ← game_read gameId state;
  revert_if (bool_decide (st = Finished)) GameAlreadyFinished;;
  g ← game_read gameId (λ g, g);
  revert_if (bool_decide (sender env ≠ player1 g) && bool_decide (sender env ≠ player2 g))
    NotAPlayer;;
  turn ← game_read gameId currentTurn;
  revert_if (bool_decide (sender env ≠ turn)) NotYourTurn;;
  revert_if (bool_decide (9 ≤ position)) InvalidPosition;;
  b ← game_read gameId board;
  revert_if (bool_decide (cell b (N.to_nat position) ≠ Empty)) CellNotEmpty;;
  p1 ← game_read gameId player1;
  let mark := if bool_decide (sender env = p1) then X else O in
  game_write gameId (λ g, set_board (<[N.to_nat position := mark]> (board g)) g);;
  game_write gameId (set_lastMoveAt (timestamp env));;
  emit (MoveMade gameId (sender env) position);;
  b ← game_read gameId board;
  if _checkWinner b mark then
    game_write gameId (set_winner (sender env));;
    game_write gameId (set_state Finished);;
    inc_playerWins (sender env);;
    _mintWinnerNFT (sender env) gameId;;
    emit (GameWon gameId (sender env))
  else if _isBoardFull b then
    game_write gameId (set_state Draw);;
    emit (GameDraw gameId)
  else
    g ← game_read gameId (λ g, g);
    game_write gameId
      (set_currentTurn (if bool_decide (sender env = player1 g) then player2 g else player1 g)).

(** [getGame] is a view: it returns the six fields of [games[gameId]]. *)
Definition getGame (gameId : N) : Tx (address * address * list CellState * address * address * GameState) :=
  g ← game_read gameId (λ g, g);
  mret (player1 g, player2 g, board g, currentTurn g, winner g, state g).

Definition getPlayerStats (player : address) : Tx (N * N) :=
  w ← read (λ s, uint_at (playerWins s) player);
  t ← read (λ s, uint_at (playerGamesPlayed s) player);
  mret (w, t).

(** ** Trophy metadata *)

(** [bytes] and [string] values in memory are lists of bytes; lengths and
    indices into them are [nat]. *)
Abbreviation bytes := (list ascii) (only parsing).

Definition dquote : ascii := "034"%char.

(** A string literal of the source; the double quote is written ['] here
    (no literal of the contract holds an apostrophe). *)
Definition lit (s : string) : bytes :=
  (λ c : ascii, if bool_decide (c = "'"%char) then dquote else c) <$> list_ascii_of_string s.

Definition byte_at (data : bytes) (i : nat) : N := N_of_ascii (default zero (data !! i)).

(** [while (temp != 0) { digits++; temp /= 10; }] *)
Fixpoint _toString_count (fuel : nat) (temp : N) (digits : nat) : nat :=
  match fuel with
  | 0%nat => digits
  | S fuel' =>
      if bool_decide (temp ≠ 0) then _toString_count fuel' (temp / 10) (S digits) else digits
  end.

(** [while (value != 0) { digits -= 1; buffer[digits] = bytes1(uint8(48 + value % 10)); value /= 10; }] *)
Fixpoint _toString_fill (fuel : nat) (value : N) (digits : nat) (buffer : bytes) : bytes :=
  match fuel with
  | 0%nat => buffer
  | S fuel' =>
      if bool_decide (value ≠ 0) then
        let digits := (digits - 1)%nat in
        let buffer := <[digits := ascii_of_N (48 + value mod 10)]> buffer in
        _toString_fill fuel' (value / 10) digits buffer
      else buffer
  end.

(** Both loops divide by ten until zero: the bit length of [value] bounds
    their number of iterations. *)
Definition _toString (value : N) : bytes :=
  if bool_decide (value = 0) then lit "0"
  else
    let fuel := S (N.to_nat (N.log2 value)) in
    let digits := _toString_count fuel value 0 in
    _toString_fill fuel value digits (replicate digits zero).

Definition TABLE : bytes :=
  lit "ABCDEFGHIJKLMNOPQRSTUVWXYZabcdefghijklmnopqrstuvwxyz0123456789+/".

Definition table_at (k : N) : ascii := default zero (TABLE !! N.to_nat k).

(** The body of [while (i < len)], with [fuel] iterations left. *)
Fixpoint _base64Encode_loop (fuel : nat) (data : bytes) (i j : nat) (result : bytes) : bytes :=
  match fuel with
  | 0%nat => result
  | S fuel' =>
      if bool_decide (i < length data)%nat then
        let a := byte_at data i in
        let i := S i in
        let b := if bool_decide (i < length data)%nat then byte_at data i else 0 in
        let i := if bool_decide (i < length data)%nat then S i else i in
        let c := if bool_decide (i < length data)%nat then byte_at data i else 0 in
        let i := if bool_decide (i < length data)%nat then S i else i in
        let triple := N.shiftl a 16 + N.shiftl b 8 + c in
        let result := <[j := table_at (N.land (N.shiftr triple 18) 63)]> result in
        let j := S j in
        let result := <[j := table_at (N.land (N.shiftr triple 12) 63)]> result in
        let j := S j in
        let result := <[j := table_at (N.land (N.shiftr triple 6) 63)]> result in
        let j := S j in
        let result := <[j := table_at (N.land triple 63)]> result in
        let j := S j in
        _base64Encode_loop fuel' data i j result
      else result
  end.

Definition _base64Encode (data : bytes) : bytes :=
  let len := length data in
  if bool_decide (len = 0%nat) then []
  else
    let encodedLen := (4 * ((len + 2) / 3))%nat in
    let result := replicate encodedLen zero in
    let result := _base64Encode_loop len data 0 0 result in
    let mod_ := (len mod 3)%nat in
    if bool_decide (0 < mod_)%nat then
      let result := <[(encodedLen - 1)%nat := "="%char]> result in
      if bool_decide (mod_ = 1%nat) then <[(encodedLen - 2)%nat := "="%char]> result
      else result
    else result.

Definition _generateSVG (tokenId : N) : bytes :=
  lit "<svg xmlns='http://www.w3.org/2000/svg' width='350' height='350'>"
  ++ lit "<rect width='100%' height='100%' fill='#1a1a2e'/>"
  ++ lit "<text x='175' y='100' text-anchor='middle' fill='#00d9ff' font-size='24' font-family='Arial'>TicTacToe</text>"
  ++ lit "<text x='175' y='140' text-anchor='middle' fill='#00d9ff' font-size='20' font-family='Arial'>WINNER</text>"
  ++ lit "<text x='175' y='200' text-anchor='middle' fill='#ffd700' font-size='60' font-family='Arial'>#"
  ++ _toString tokenId
  ++ lit "</text>"
  ++ lit "<text x='175' y='280' text-anchor='middle' fill='#888' font-size='14' font-family='Arial'>On-Chain Victory</text>"
  ++ lit "</svg>".

Definition tokenURI (tokenId : N) : bytes :=
  lit "data:application/json;base64,"
  ++ _base64Encode
       (lit "{'name':'TicTacToe Winner #"
        ++ _toString tokenId
        ++ lit "','description':'This NFT proves you won a game of TicTacToe on the blockchain!','image':'data:image/svg+xml;base64,"
        ++ _base64Encode (_generateSVG tokenId)
        ++ lit "'}").

(** *** The reader's side: a base64 decoder and the path to the image *)

(** The value of a symbol of the alphabet. *)
Definition sextet (c : ascii) : option N :=
  let n := N_of_ascii c in
  if bool_decide (65 ≤ n ≤ 90) then Some (n - 65)
  else if bool_decide (97 ≤ n ≤ 122) then Some (n - 71)
  else if bool_decide (48 ≤ n ≤ 57) then Some (n + 4)
  else if bool_decide (n = 43) then Some 62
  else if bool_decide (n = 47) then Some 63
  else None.

(** The bytes of a group of four symbols, most significant first. *)
Definition group_bytes (s1 s2 s3 s4 : N) : bytes :=
  let triple := N.shiftl s1 18 + N.shiftl s2 12 + N.shiftl s3 6 + s4 in
  [ascii_of_N (N.land (N.shiftr triple 16) 255);
   ascii_of_N (N.land (N.shiftr triple 8) 255);
   ascii_of_N (N.land triple 255)].

(** Standard base64 decoding (RFC 4648): groups of four symbols give
    three bytes; a final group padded with one [=] gives two bytes, with
    two [=] one byte. *)
Fixpoint base64Decode (s : bytes) : option bytes :=
  match s with
  | [] => Some []
  | c1 :: c2 :: c3 :: c4 :: rest =>
      match rest with
      | [] =>
          if bool_decide (c4 = "="%char) then
            if bool_decide (c3 = "="%char) then
              s1 ← sextet c1; s2 ← sextet c2; Some (take 1 (group_bytes s1 s2 0 0))
            else
              s1 ← sextet c1; s2 ← sextet c2; s3 ← sextet c3;
              Some (take 2 (group_bytes s1 s2 s3 0))
          else
            s1 ← sextet c1; s2 ← sextet c2; s3 ← sextet c3; s4 ← sextet c4;
            Some (group_bytes s1 s2 s3 s4)
      | _ =>
          s1 ← sextet c1; s2 ← sextet c2; s3 ← sextet c3; s4 ← sextet c4;
          more ← base64Decode rest;
          Some (group_bytes s1 s2 s3 s4 ++ more)
      end
  | _ => None
  end.

Fixpoint strip_prefix (p s : bytes) : option bytes :=
  match p, s with
  | [], _ => Some s
  | c :: p', d :: s' => if bool_decide (c = d) then strip_prefix p' s' else None
  | _ :: _, [] => None
  end.

Definition is_digit (c : ascii) : bool :=
  bool_decide (48 ≤ N_of_ascii c ≤ 57).

Fixpoint span (f : ascii → bool) (s : bytes) : bytes * bytes :=
  match s with
  | [] => ([], [])
  | c :: s' => if f c then let (a, b) := span f s' in (c :: a, b) else ([], s)
  end.

(** The fixed text of the document around its two variable parts. *)
Definition URI_HEAD : bytes := lit "data:application/json;base64,".
Definition JSON_HEAD : bytes := lit "{'name':'TicTacToe Winner #".
Definition JSON_MID : bytes :=
  lit "','description':'This NFT proves you won a game of TicTacToe on the blockchain!','image':'data:image/svg+xml;base64,".
Definition JSON_TAIL : bytes := lit "'}".

(** The encoded image, read out of the document as a client does: decode
    the data URI, walk the JSON object to the [image] field, and take the
    text between the data-URI header and the closing quote. *)
Definition image_payload (uri : bytes) : option bytes :=
  doc64 ← strip_prefix URI_HEAD uri;
  doc ← base64Decode doc64;
  r ← strip_prefix JSON_HEAD doc;
  let (_, r) := span is_digit r in
  r ← strip_prefix JSON_MID r;
  let (payload, r) := span (λ c, negb (bool_decide (c = dquote))) r in
  if bool_decide (r = JSON_TAIL) then Some payload else None.

(** The number a string of decimal digits denotes. *)
Definition decimal_value (s : bytes) : N :=
  foldl (λ acc c, 10 * acc + (N_of_ascii c - 48)) 0 s.


(** *** The encoding in the words of the specification *)

(** The four symbols of the group of bytes [a], [b], [c]. *)
Definition symbols (a b c : N) : bytes :=
  let triple := N.shiftl a 16 + N.shiftl b 8 + c in
  [table_at (N.land (N.shiftr triple 18) 63);
   table_at (N.land (N.shiftr triple 12) 63);
   table_at (N.land (N.shiftr triple 6) 63);
   table_at (N.land triple 63)].

(** What the loop of [_base64Encode] leaves before padding. *)
Fixpoint raw_groups (data : bytes) : bytes :=
  match data with
  | [] => []
  | [a] => symbols (N_of_ascii a) 0 0
  | [a; b] => symbols (N_of_ascii a) (N_of_ascii b) 0
  | a :: b :: c :: rest => symbols (N_of_ascii a) (N_of_ascii b) (N_of_ascii c) ++ raw_groups rest
  end.

(** The encoding as the specification words it: three bytes give four
    symbols, and a final group short by one or two bytes is padded. *)
Fixpoint encode_groups (data : bytes) : bytes :=
  match data with
  | [] => []
  | [a] => take 2 (symbols (N_of_ascii a) 0 0) ++ ["="; "="]%char
  | [a; b] => take 3 (symbols (N_of_ascii a) (N_of_ascii b) 0) ++ ["="%char]
  | a :: b :: c :: rest =>
      symbols (N_of_ascii a) (N_of_ascii b) (N_of_ascii c) ++ encode_groups rest
  end.

(** ** Vocabulary of the specification *)

(** The mark of a participant: [player1] plays [X], the joiner [O]. *)
Definition mark_of (who : address) (g : Game) : CellState :=
  if bool_decide (who = player1 g) then X else O.

(** A line is won by [mark] when its three cells hold [mark]. *)
Definition line_of (b : list CellState) (mark : CellState) (line : list nat) : Prop :=
  ∀ i, i ∈ line → b !! i = Some mark.

Definition hasWinner (b : list CellState) (mark : CellState) : Prop :=
  ∃ line, line ∈ WINNING_COMBINATIONS ∧ line_of b mark line.

Definition isFull (b : list CellState) : Prop := Empty ∉ b.

(** The first precondition of MakeMove that fails, in the order of the
    specification; [None] when the call passes every check.  A game has
    no record when its id was never allocated. *)
Definition first_violation (s : Contract) (caller : address) (gameId position : N)
  : option Error :=
  let g := game_at s gameId in
  if bool_decide (gameCounter s ≤ gameId) then Some GameNotFound
  else if bool_decide (state g ≠ InProgress) then Some GameNotInProgress
  else if bool_decide (caller ≠ player1 g ∧ caller ≠ player2 g) then Some NotAPlayer
  else if bool_decide (caller ≠ currentTurn g) then Some NotYourTurn
  else if bool_decide (¬ (0 ≤ position ≤ 8)) then Some InvalidPosition
  else if bool_decide (board g !! N.to_nat position ≠ Some Empty) then Some CellNotEmpty
  else None.

(** ** Histories *)

Inductive Call :=
| CreateGame
| JoinGame (gameId : N)
| MakeMove (gameId : N) (position : N).

(** One call applied by the ledger; a reverted call changes nothing. *)
Definition exec (env : Env) (c : Call) (s : Contract) : Contract :=
  match c with
  | CreateGame => snd (transact (createGame env) s)
  | JoinGame gameId => snd (transact (joinGame env gameId) s)
  | MakeMove gameId position => snd (transact (makeMove env gameId position) s)
  end.

(** The states of the deployed contract.  The environment authenticates
    the caller, which is never the zero address. *)
Inductive reachable : Contract → Prop :=
| reachable_init : reachable init
| reachable_exec env c s : reachable s → sender env ≠ 0 → reachable (exec env c s).

Definition history (cs : list (Env * Call)) (s : Contract) : Contract :=
  foldl (λ s ec, exec ec.1 ec.2 s) s cs.

(** The participant who is not [who]. *)
Definition other_participant (who : address) (g : Game) : address :=
  if bool_decide (who = player1 g) then player2 g else player1 g.

(** ** Sample histories (the scenarios of the test suite) *)

Definition P1 : Env := mkEnv 1 1000.
Definition P2 : Env := mkEnv 2 1001.
Definition P3 : Env := mkEnv 3 1002.

(** Game 0 created by [P1] and joined by [P2]. *)
Definition scenario_joined : Contract :=
  history [(P1, CreateGame); (P2, JoinGame 0)] init.

(** [P1] holds cells 0 and 1, [P2] cells 3 and 4; [P1] is to move. *)
Definition scenario_before_win : Contract :=
  history [(P1, MakeMove 0 0); (P2, MakeMove 0 3); (P1, MakeMove 0 1); (P2, MakeMove 0 4)]
    scenario_joined.

(** ... and [P1] completes the top row. *)
Definition scenario_won : Contract :=
  history [(P1, MakeMove 0 2)] scenario_before_win.

(** The nine moves of the draw test: X O X / X X O / O X O. *)
Definition scenario_draw : Contract :=
  history [(P1, MakeMove 0 0); (P2, MakeMove 0 1); (P1, MakeMove 0 2); (P2, MakeMove 0 5);
           (P1, MakeMove 0 3); (P2, MakeMove 0 6); (P1, MakeMove 0 4); (P2, MakeMove 0 8);
           (P1, MakeMove 0 7)] scenario_joined.

(** The draw game one move short of its end: only cell 7 is empty. *)
Definition scenario_before_draw : Contract :=
  history [(P1, MakeMove 0 0); (P2, MakeMove 0 1); (P1, MakeMove 0 2); (P2, MakeMove 0 5);
           (P1, MakeMove 0 3); (P2, MakeMove 0 6); (P1, MakeMove 0 4); (P2, MakeMove 0 8)]
    scenario_joined.

(** ** The invariant of reachable storage *)

(** What holds of every game record, by lifecycle state. *)
Definition game_ok (g : Game) : Prop :=
  length (board g) = 9%nat
  ∧ match state g with
    | WaitingForPlayer =>
        winner g = 0 ∧ currentTurn g = player1 g ∧ board g = replicate 9 Empty
    | InProgress =>
        winner g = 0 ∧ player1 g ≠ 0 ∧ player2 g ≠ 0 ∧ player1 g ≠ player2 g
        ∧ (currentTurn g = player1 g ∨ currentTurn g = player2 g)
        ∧ _checkWinner (board g) X = false ∧ _checkWinner (board g) O = false
    | Finished =>
        winner g ≠ 0 ∧ (winner g = player1 g ∨ winner g = player2 g)
        ∧ _checkWinner (board g) (mark_of (winner g) g) = true
    | Draw =>
        winner g = 0 ∧ _isBoardFull (board g) = true
        ∧ _checkWinner (board g) X = false ∧ _checkWinner (board g) O = false
    end.

(** Ids below [gameCounter] are allocated; the others read as zero. *)
Definition invariant (s : Contract) : Prop :=
  ∀ id,
    game_ok (game_at s id)
    ∧ (gameCounter s ≤ id → game_at s id = zero_game)
    ∧ (id < gameCounter s → player1 (game_at s id) ≠ 0).

(** No CreateGame call of the history allocated [gameId]. *)
Definition never_created (s : Contract) (gameId : N) : Prop :=
  ∀ p, GameCreated gameId p ∉ events s.

(** The log holds a GameCreated event for exactly the ids below the counter. *)
Definition created_inv (s : Contract) : Prop :=
  ∀ id, (∃ p, GameCreated id p ∈ events s) ↔ id < gameCounter s.

(** The two counters of the player ledger. *)
Definition totalGames (s : Contract) (a : address) : N := uint_at (playerGamesPlayed s) a.

Definition wins (s : Contract) (a : address) : N := uint_at (playerWins s) a.

(** The ids handed out so far, in order. *)
Definition allocated (s : Contract) : list N :=
  N.of_nat <$> seq 0 (N.to_nat (gameCounter s)).

(** The games [a] takes part in that have been joined, and those it won. *)
Definition joined_games (s : Contract) (a : address) : list N :=
  filter (λ id, state (game_at s id) ≠ WaitingForPlayer
                ∧ (player1 (game_at s id) = a ∨ player2 (game_at s id) = a))
         (allocated s).

Definition won_games (s : Contract) (a : address) : list N :=
  filter (λ id, state (game_at s id) = Finished ∧ winner (game_at s id) = a) (allocated s).

(** The ledger counts games, not calls. *)
Definition ledger_inv (s : Contract) : Prop :=
  ∀ a, totalGames s a = N.of_nat (length (joined_games s a))
       ∧ wins s a = N.of_nat (length (won_games s a)).

(** ** The remaining views *)

Definition getBoard (gameId : N) : Tx (list CellState) :=
  game_read gameId board.

Definition getPlayerGames (player : address) : Tx (list N) :=
  read (λ s, ids_at (playerGames s) player).

(** [for (i = 0; i < gameCounter; i++) if (games[i].state == WaitingForPlayer) count++;] *)
Fixpoint getOpenGames_count (fuel : nat) (s : Contract) (i : N) (count : nat) : nat :=
  match fuel with
  | 0%nat => count
  | S fuel' =>
      if bool_decide (i < gameCounter s) then
        let count :=
          if bool_decide (state (game_at s i) = WaitingForPlayer) then S count else count in
        getOpenGames_count fuel' s (i + 1) count
      else count
  end.

(** [for (i = 0; i < gameCounter; i++) if (...) openGames[index++] = i;]
    A write past the end of the array panics ([None]). *)
Fixpoint getOpenGames_collect (fuel : nat) (s : Contract) (i : N) (index : nat)
    (openGames : list N) : option (list N) :=
  match fuel with
  | 0%nat => Some openGames
  | S fuel' =>
      if bool_decide (i < gameCounter s) then
        if bool_decide (state (game_at s i) = WaitingForPlayer) then
          if bool_decide (index < length openGames)%nat then
            getOpenGames_collect fuel' s (i + 1) (S index) (<[index := i]> openGames)
          else None
        else getOpenGames_collect fuel' s (i + 1) index openGames
      else Some openGames
  end.

(** Both loops run [i] from zero to [gameCounter]; the array is allocated
    with the size the first loop counted. *)
Definition getOpenGames : Tx (list N) :=
  s ← read (λ s, s);
  let fuel := N.to_nat (gameCounter s) in
  let count := getOpenGames_count fuel s 0 0 in
  match getOpenGames_collect fuel s 0 0 (replicate count 0) with
  | Some openGames => mret openGames
  | None => revert Panic
  end.

(** The games waiting for a second player, by ascending id. *)
Definition open_games (s : Contract) : list N :=
  filter (λ id, state (game_at s id) = WaitingForPlayer) (allocated s).

(** ** Vocabulary of the further properties *)

(** How many cells of a board hold [m]. *)
Definition count_mark (m : CellState) (b : list CellState) : nat :=
  length (filter (λ c, c = m) b).

(** The token ids of the WinnerNFTMinted events of a log, in order. *)
Definition minted_ids (evs : list Event) : list N :=
  omap (λ e, match e with WinnerNFTMinted t _ _ => Some t | _ => None end) evs.

Definition finished_games (s : Contract) : list N :=
  filter (λ id, state (game_at s id) = Finished) (allocated s).

(** The moves of the lifecycle: stay, be joined, or end. *)
Definition lifecycle_step (st st' : GameState) : Prop :=
  st' = st
  ∨ (st = WaitingForPlayer ∧ st' = InProgress)
  ∨ (st = InProgress ∧ (st' = Finished ∨ st' = Draw)).

(** The marks on a board are those of alternating play that X opened. *)
Definition position_ok (g : Game) : Prop :=
  let x := count_mark X (board g) in
  let o := count_mark O (board g) in
  match state g with
  | WaitingForPlayer => player2 g = 0 ∧ x = 0%nat ∧ o = 0%nat
  | InProgress =>
      (currentTurn g = player1 g → x = o) ∧ (currentTurn g = player2 g → x = S o)
  | Finished => (winner g = player1 g → x = S o) ∧ (winner g = player2 g → x = o)
  | Draw => x = 5%nat ∧ o = 4%nat
  end.

(** The participant index lists each game of an identity once. *)
Definition index_ok (s : Contract) : Prop :=
  ∀ a, a ≠ 0 →
    NoDup (ids_at (playerGames s) a)
    ∧ ∀ id, id ∈ ids_at (playerGames s) a
            ↔ id < gameCounter s ∧ (player1 (game_at s id) = a ∨ player2 (game_at s id) = a).

(** Trophies are numbered from zero, one per finished game. *)
Definition trophies_ok (s : Contract) : Prop :=
  _tokenIdCounter s = N.of_nat (length (finished_games s))
  ∧ minted_ids (events s) = N.of_nat <$> seq 0 (N.to_nat (_tokenIdCounter s))
  ∧ ∀ t w id, WinnerNFTMinted t w id ∈ events s →
      state (game_at s id) = Finished ∧ winner (game_at s id) = w.

(** The first check of [joinGame] that fails, in the order of the code. *)
Definition join_violation (s : Contract) (caller : address) (gameId : N) : option Error :=
  let g := game_at s gameId in
  if bool_decide (player1 g = 0) then Some GameNotFound
  else if bool_decide (state g ≠ WaitingForPlayer) then Some GameNotWaitingForPlayer
  else if bool_decide (player1 g = caller) then Some CannotJoinOwnGame
  else None.


(** The record of a game after the move that [makeMove] accepts from
    [env] at [pos]: the three branches of the function. *)
Definition move_result (env : Env) (pos : N) (g : Game) : Game :=
  let mark := mark_of (sender env) g in
  let b' := <[N.to_nat pos := mark]> (board g) in
  if _checkWinner b' mark then
    mkGame (player1 g) (player2 g) b' (currentTurn g) (sender env) Finished
      (createdAt g) (timestamp env)
  else if _isBoardFull b' then
    mkGame (player1 g) (player2 g) b' (currentTurn g) (winner g) Draw
      (createdAt g) (timestamp env)
  else
    mkGame (player1 g) (player2 g) b'
      (if bool_decide (sender env = player1 g) then player2 g else player1 g)
      (winner g) InProgress (createdAt g) (timestamp env).

(** A game has its second player from the join on, and the two differ. *)
Definition roles_ok (g : Game) : Prop :=
  match state g with
  | WaitingForPlayer => player2 g = 0
  | _ => player2 g ≠ 0 ∧ player1 g ≠ player2 g
  end.

(** Only the winner's mark holds a line. *)
Definition sole_line (g : Game) : Prop :=
  ∀ m, m ≠ Empty → _checkWinner (board g) m = true →
       state g = Finished ∧ m = mark_of (winner g) g.

(** A game that is not over has an empty cell. *)
Definition live_ok (g : Game) : Prop :=
  state g = WaitingForPlayer ∨ state g = InProgress → _isBoardFull (board g) = false.

(** The token number, read out of the document as a client does: decode
    the data URI and take the digits that follow the name. *)
Definition uri_token (uri : bytes) : option N :=
  doc64 ← strip_prefix URI_HEAD uri;
  doc ← base64Decode doc64;
  r ← strip_prefix JSON_HEAD doc;
  let (digits, _) := span is_digit r in
  Some (decimal_value digits).

(** ** The front end *)

(** The record the client keeps of a game (interface [Game]); addresses
    are compared after [toLowerCase], that is, as addresses. *)
Record ClientGame := mkClientGame {
  cg_id : N;
  cg_player1 : address;
  cg_player2 : address;
  cg_board : list CellState;
  cg_currentTurn : address;
  cg_winner : address;
  cg_state : GameState;
}.

(** The hook's [getGame]: the tuple of the contract's view, with the id. *)
Definition client_getGame (gameId : N) : Tx ClientGame :=
  r ← getGame gameId;
  let '(p1, p2, b, t, w, st) := r in
  mret (mkClientGame gameId p1 p2 b t w st).

(** [board[combo[k]] === winner]; an index out of range reads [undefined]. *)
Definition combo_cell (board : list CellState) (combo : list nat) (k : nat) : option CellState :=
  combo !! k ≫= λ i, board !! i.

(** [for (const combo of WINNING_COMBINATIONS) if (...) return combo; return [];] *)
Fixpoint findWinningCells_loop (combos : list (list nat)) (board : list CellState)
    (winner : CellState) : list nat :=
  match combos with
  | [] => []
  | combo :: rest =>
      if bool_decide (combo_cell board combo 0 = Some winner)
         && bool_decide (combo_cell board combo 1 = Some winner)
         && bool_decide (combo_cell board combo 2 = Some winner)
      then combo
      else findWinningCells_loop rest board winner
  end.

Definition findWinningCells (board : list CellState) (winner : CellState) : list nat :=
  findWinningCells_loop WINNING_COMBINATIONS board winner.

(** [isPlayer1Winner ? CellState.X : CellState.O] *)
Definition winnerMark (game : ClientGame) : CellState :=
  if bool_decide (cg_winner game = cg_player1 game) then X else O.

(** What the page holds when a cell is clicked. *)
Record Page := mkPage {
  currentGame : option ClientGame;
  walletAddress : option address;
  isLoading : bool;
}.

Definition isMyTurn (p : Page) : bool :=
  match currentGame p, walletAddress p with
  | Some game, Some a => bool_decide (cg_currentTurn game = a)
  | _, _ => false
  end.

(** The [disabled] prop the page passes to the board. *)
Definition Board_disabled (p : Page) : bool :=
  match currentGame p with
  | None => true
  | Some game => negb (bool_decide (cg_state game = InProgress)) || isLoading p
  end.

(** The board shown: the game's, or nine empty cells. *)
Definition Board_cells (p : Page) : list CellState :=
  match currentGame p with
  | Some game => cg_board game
  | None => replicate 9 Empty
  end.

(** [handleCellClick]: the call to [makeMove] it issues, if any. *)
Definition handleCellClick (p : Page) (position : nat) : option (N * N) :=
  match currentGame p with
  | None => None
  | Some game =>
      if bool_decide (cg_state game ≠ InProgress) then None
      else Some (cg_id game, N.of_nat position)
  end.

(** A click on the cell at [position]: the board renders one cell per
    entry, disabled when the board is or when it is not the user's turn;
    the cell's [onClick] is [isEmpty && !disabled && onClick(position)]. *)
Definition Cell_click (p : Page) (position : nat) : option (N * N) :=
  match Board_cells p !! position with
  | None => None
  | Some value =>
      let disabled := Board_disabled p || negb (isMyTurn p) in
      if bool_decide (value = Empty) && negb disabled then handleCellClick p position
      else None
  end.

(** ** Symbolic execution of transaction bodies *)

Section run.
Context {A B : Type}.
Implicit Types (k : A → Tx B) (s : Contract).

Lemma run_read (f : Contract → A) k s : (read f ≫= k) s = k (f s) s.
Proof. reflexivity. Qed.

Lemma run_game_read id (f : Game → A) k s :
  (game_read id f ≫= k) s = k (f (game_at s id)) s.
Proof. reflexivity. Qed.

Lemma run_ret (a : A) k s : (mret a ≫= k) s = k a s.
Proof. reflexivity. Qed.

Lemma run_revert e k s : (revert e ≫= k) s = (Revert e, s).
Proof. reflexivity. Qed.

Lemma run_assoc {C} (m : Tx C) (f : C → Tx A) k s :
  ((m ≫= f) ≫= k) s = (m ≫= (λ x, f x ≫= k)) s.
Proof. unfold mbind, Tx_bind. by destruct (m s) as [[c|e] s1]. Qed.
End run.

Section run_unit.
Context {B : Type}.
Implicit Types (k : unit → Tx B) (s : Contract).

Lemma run_write f k s : (write f ≫= k) s = k () (f s).
Proof. reflexivity. Qed.

Lemma run_game_write id f k s :
  (game_write id f ≫= k) s = k () (set_games (<[id := f (game_at s id)]> (games s)) s).
Proof. reflexivity. Qed.

Lemma run_emit e k s : (emit e ≫= k) s = k () (set_events (events s ++ [e]) s).
Proof. reflexivity. Qed.

Lemma run_revert_if c e k s :
  (revert_if c e ≫= k) s = if c then (Revert e, s) else k () s.
Proof. by destruct c. Qed.

Lemma run_checked_inc n (k : N → Tx B) s :
  (checked_inc n ≫= k) s =
    if bool_decide (n < MAX_UINT256) then k (n + 1) s else (Revert Panic, s).
Proof. unfold checked_inc. by case_bool_decide. Qed.

Lemma run_if (c : bool) (m1 m2 : Tx B) s :
  (if c then m1 else m2) s = if c then m1 s else m2 s.
Proof. by destruct c. Qed.
End run_unit.

Lemma end_write f s : write f s = (Ok (), f s).
Proof. reflexivity. Qed.

Lemma end_game_write id f s :
  game_write id f s = (Ok (), set_games (<[id := f (game_at s id)]> (games s)) s).
Proof. reflexivity. Qed.

Lemma end_emit e s : emit e s = (Ok (), set_events (events s ++ [e]) s).
Proof. reflexivity. Qed.

Lemma end_ret {A} (a : A) s : (mret a : Tx A) s = (Ok a, s).
Proof. reflexivity. Qed.

Lemma game_at_mk c t (m : gmap N Game) pg pw pp ow ev id g :
  game_at (mkContract c t (<[id := g]> m) pg pw pp ow ev) id = g.
Proof. unfold game_at. cbn. by rewrite lookup_insert_eq. Qed.

Lemma game_at_frame s c t pg pw pp ow ev id :
  game_at (mkContract c t (games s) pg pw pp ow ev) id = game_at s id.
Proof. reflexivity. Qed.

Lemma game_at_insert (m : gmap N Game) id id' g c t pg pw pp ow ev :
  game_at (mkContract c t (<[id := g]> m) pg pw pp ow ev) id' =
    if decide (id = id') then g else default zero_game (m !! id').
Proof.
  unfold game_at. cbn. rewrite lookup_insert. by case_decide.
Qed.

Ltac st_unfold :=
  unfold set_player1, set_player2, set_board, set_currentTurn, set_winner,
    set_state, set_createdAt, set_lastMoveAt, set_gameCounter,
    set_tokenIdCounter, set_games, set_playerGames, set_playerWins,
    set_playerGamesPlayed, set_owners, set_events.

(** The storage is kept as an explicit record after every step. *)
Ltac st_norm :=
  st_unfold;
  cbn [player1 player2 board currentTurn winner state createdAt lastMoveAt
       gameCounter _tokenIdCounter games playerGames playerWins
       playerGamesPlayed _owners events];
  rewrite ?game_at_mk, ?game_at_frame;
  cbn [player1 player2 board currentTurn winner state createdAt lastMoveAt];
  rewrite ?insert_insert_eq.

Ltac tx_step :=
  first
    [ rewrite run_assoc
    | rewrite run_read | rewrite run_game_read | rewrite run_ret | rewrite run_revert
    | rewrite run_write | rewrite run_game_write | rewrite run_emit
    | rewrite run_revert_if | rewrite run_checked_inc | rewrite run_if
    | rewrite end_write | rewrite end_game_write | rewrite end_emit | rewrite end_ret
    | progress unfold inc_playerWins, inc_playerGamesPlayed, _mintWinnerNFT, _safeMint ];
  cbv beta; st_norm.

Ltac tx_exec := repeat tx_step.

Ltac tx_case :=
  match goal with
  | |- context [bool_decide ?P] => destruct (bool_decide_reflect P)
  | |- context [if ?c then _ else _] => destruct c eqn:?
  end.

Ltac tx_norm :=
  repeat match goal with H : ¬ (_ ≠ _) |- _ => apply dec_stable in H end.

Ltac tx_cases := repeat (tx_case; tx_norm; cbn [andb fst snd]; try done; try congruence).

(** ** Board engine *)

Lemma is_mark_true b i mark :
  (i < length b)%nat → is_mark b i mark = true ↔ b !! i = Some mark.
Proof.
  intros Hi. unfold is_mark, cell. rewrite bool_decide_eq_true.
  destruct (lookup_lt_is_Some_2 b i Hi) as [c Hc]. rewrite Hc. cbn.
  split; congruence.
Qed.

Lemma _checkWinner_orb b mark :
  _checkWinner b mark =
    (is_mark b 0 mark && is_mark b 1 mark && is_mark b 2 mark)
    || (is_mark b 3 mark && is_mark b 4 mark && is_mark b 5 mark)
    || (is_mark b 6 mark && is_mark b 7 mark && is_mark b 8 mark)
    || (is_mark b 0 mark && is_mark b 3 mark && is_mark b 6 mark)
    || (is_mark b 1 mark && is_mark b 4 mark && is_mark b 7 mark)
    || (is_mark b 2 mark && is_mark b 5 mark && is_mark b 8 mark)
    || (is_mark b 0 mark && is_mark b 4 mark && is_mark b 8 mark)
    || (is_mark b 2 mark && is_mark b 4 mark && is_mark b 6 mark).
Proof.
  unfold _checkWinner.
  repeat match goal with |- context [if ?c then _ else _] => destruct c; cbn; try done end.
Qed.

Lemma marks_3 b mark (i j k : nat) :
  (∀ x, x ∈ [i; j; k] → is_mark b x mark = true)
  ↔ is_mark b i mark && is_mark b j mark && is_mark b k mark = true.
Proof.
  rewrite !andb_true_iff. split.
  - intros H. repeat split; apply H; set_solver.
  - intros [[? ?] ?] x Hx. set_unfold in Hx. destruct Hx as [? | [? | [? | []]]]; by subst.
Qed.

Lemma _checkWinner_lines b mark :
  _checkWinner b mark = true ↔
  ∃ line, line ∈ WINNING_COMBINATIONS ∧ ∀ i, i ∈ line → is_mark b i mark = true.
Proof.
  rewrite _checkWinner_orb, !orb_true_iff, <- !marks_3.
  unfold WINNING_COMBINATIONS. split.
  - intros H.
    repeat (destruct H as [H | H]); eexists; (split; [|exact H]); set_solver.
  - intros (line & Hin & H). set_unfold in Hin.
    repeat (destruct Hin as [-> | Hin]; [by auto 10 |]). done.
Qed.

Lemma line_index_lt (line : list nat) (i : nat) :
  line ∈ WINNING_COMBINATIONS → i ∈ line → (i < 9)%nat.
Proof.
  unfold WINNING_COMBINATIONS. intros Hin Hi. set_unfold in Hin.
  repeat (destruct Hin as [-> | Hin];
          [set_unfold in Hi; destruct Hi as [? | [? | [? | []]]]; subst; lia |]).
  done.
Qed.

Lemma _checkWinner_hasWinner (b : list CellState) (mark : CellState) :
  length b = 9%nat → _checkWinner b mark = true ↔ hasWinner b mark.
Proof.
  intros Hlen. rewrite _checkWinner_lines. unfold hasWinner, line_of.
  split; intros (line & Hin & H); exists line; (split; [exact Hin|]).
  all: intros i Hi; apply is_mark_true; [|by apply H].
  all: pose proof (line_index_lt line i Hin Hi); lia.
Qed.

(** C2: on a 9-cell board, [_checkWinner] answers true exactly when one
    of the eight fixed lines {0,1,2},{3,4,5},{6,7,8},{0,3,6},{1,4,7},
    {2,5,8},{0,4,8},{2,4,6} has its three cells equal to the mark. *)
Theorem C2_checkWinner_iff_line (b : list CellState) (mark : CellState) :
  length b = 9%nat →
  _checkWinner b mark = true ↔
  ∃ line, line ∈ [[0; 1; 2]; [3; 4; 5]; [6; 7; 8]; [0; 3; 6];
                  [1; 4; 7]; [2; 5; 8]; [0; 4; 8]; [2; 4; 6]]%nat
          ∧ line ∈ WINNING_COMBINATIONS
          ∧ ∀ i, i ∈ line → b !! i = Some mark.
Proof.
  intros Hlen. rewrite (_checkWinner_hasWinner b mark Hlen). unfold hasWinner, line_of.
  split.
  - intros (line & Hin & H). exists line. auto.
  - intros (line & _ & Hin & H). exists line. auto.
Qed.

(** C2 on the board X X X / O O - / - - -. *)
Lemma C2_witness :
  _checkWinner [X; X; X; O; O; Empty; Empty; Empty; Empty] X = true
  ∧ ¬ hasWinner [X; X; X; O; O; Empty; Empty; Empty; Empty] O.
Proof.
  split.
  - apply (C2_checkWinner_iff_line [X; X; X; O; O; Empty; Empty; Empty; Empty] X eq_refl).
    exists [0; 1; 2]%nat. split; [set_solver|]. split; [unfold WINNING_COMBINATIONS; set_solver|].
    intros i Hi. set_unfold in Hi. destruct Hi as [-> | [-> | [-> | []]]]; reflexivity.
  - intros (line & Hin & H).
    assert (Hc : _checkWinner [X; X; X; O; O; Empty; Empty; Empty; Empty] O = true).
    { apply (C2_checkWinner_iff_line [X; X; X; O; O; Empty; Empty; Empty; Empty] O eq_refl).
      exists line. auto. }
    discriminate Hc.
Defined.

Lemma foldl_clear (b : list CellState) :
  length b = 9%nat → foldl (λ b i, <[i := Empty]> b) b (seq 0 9) = replicate 9 Empty.
Proof.
  intros H. do 10 (destruct b as [|? b]; try discriminate H). reflexivity.
Qed.

Lemma is_mark_insert_other b i j m m' :
  m ≠ m' → is_mark (<[i := m]> b) j m' = true → is_mark b j m' = true.
Proof.
  intros Hne. unfold is_mark, cell. rewrite !bool_decide_eq_true.
  destruct (decide (i = j)) as [->|Hij].
  - destruct (decide (j < length b)%nat) as [Hlt|Hge].
    + rewrite list_lookup_insert_eq by done. cbn. congruence.
    + rewrite list_insert_ge by lia. done.
  - by rewrite list_lookup_insert_ne.
Qed.

Lemma _checkWinner_insert_other b i m m' :
  m ≠ m' → _checkWinner b m' = false → _checkWinner (<[i := m]> b) m' = false.
Proof.
  intros Hne Hb. apply not_true_is_false. intros Hb'.
  rewrite <- not_true_iff_false in Hb. apply Hb.
  apply _checkWinner_lines in Hb' as (line & Hin & H).
  apply _checkWinner_lines. exists line. split; [done|].
  intros j Hj. eapply is_mark_insert_other; eauto.
Qed.

Lemma _isBoardFull_loop_spec n i b :
  _isBoardFull_loop n i b = true ↔ ∀ j, (i ≤ j < i + n)%nat → cell b j ≠ Empty.
Proof.
  revert i. induction n as [|n IH]; intros i; cbn.
  - split; [intros _ j Hj; lia | done].
  - unfold is_mark at 1. case_bool_decide as Hc.
    + split; [done|]. intros H. exfalso. apply (H i); [lia | done].
    + rewrite IH. split.
      * intros H j Hj. destruct (decide (j = i)) as [->|]; [done|]. apply H. lia.
      * intros H j Hj. apply H. lia.
Qed.

Lemma _isBoardFull_isFull b :
  length b = 9%nat → _isBoardFull b = true ↔ isFull b.
Proof.
  intros Hlen. unfold _isBoardFull, isFull. rewrite _isBoardFull_loop_spec.
  rewrite list_elem_of_lookup. unfold cell. split.
  - intros H [j Hj]. apply (H j).
    + apply lookup_lt_Some in Hj. lia.
    + by rewrite Hj.
  - intros H j Hj Hc. apply H. exists j.
    destruct (lookup_lt_is_Some_2 b j) as [c Hcj]; [lia|].
    rewrite Hcj in Hc |- *. cbn in Hc. by subst.
Qed.

(** ** The three calls, executed *)

Lemma makeMove_reject env id pos s :
  let g := game_at s id in
  makeMove env id pos s =
    if bool_decide (player1 g = 0) then (Revert GameNotFound, s)
    else if bool_decide (state g ≠ InProgress) then (Revert GameNotInProgress, s)
    else if bool_decide (sender env ≠ player1 g) && bool_decide (sender env ≠ player2 g)
      then (Revert NotAPlayer, s)
    else if bool_decide (sender env ≠ currentTurn g) then (Revert NotYourTurn, s)
    else if bool_decide (9 ≤ pos) then (Revert InvalidPosition, s)
    else if bool_decide (cell (board g) (N.to_nat pos) ≠ Empty) then (Revert CellNotEmpty, s)
    else makeMove env id pos s.
Proof.
  cbn zeta. repeat (tx_case; tx_norm; cbn [andb]; [unfold makeMove; tx_exec; tx_cases|]); done.
Qed.

(** The storage an accepted move leaves, branch by branch. *)
Lemma makeMove_ok env id pos s s' :
  makeMove env id pos s = (Ok (), s') →
  let g := game_at s id in
  let mark := mark_of (sender env) g in
  let b' := <[N.to_nat pos := mark]> (board g) in
  (player1 g ≠ 0 ∧ state g = InProgress ∧ (sender env = player1 g ∨ sender env = player2 g)
   ∧ sender env = currentTurn g ∧ pos < 9 ∧ cell (board g) (N.to_nat pos) = Empty)
  ∧ s' =
      (if _checkWinner b' mark then
         mkContract (gameCounter s) (_tokenIdCounter s + 1)
           (<[id := mkGame (player1 g) (player2 g) b' (currentTurn g) (sender env) Finished
                      (createdAt g) (timestamp env)]> (games s))
           (playerGames s)
           (<[sender env := uint_at (playerWins s) (sender env) + 1]> (playerWins s))
           (playerGamesPlayed s)
           (<[_tokenIdCounter s := sender env]> (_owners s))
           (((events s ++ [MoveMade id (sender env) pos])
               ++ [WinnerNFTMinted (_tokenIdCounter s) (sender env) id])
               ++ [GameWon id (sender env)])
       else if _isBoardFull b' then
         mkContract (gameCounter s) (_tokenIdCounter s)
           (<[id := mkGame (player1 g) (player2 g) b' (currentTurn g) (winner g) Draw
                      (createdAt g) (timestamp env)]> (games s))
           (playerGames s) (playerWins s) (playerGamesPlayed s) (_owners s)
           ((events s ++ [MoveMade id (sender env) pos]) ++ [GameDraw id])
       else
         mkContract (gameCounter s) (_tokenIdCounter s)
           (<[id := mkGame (player1 g) (player2 g) b'
                      (if bool_decide (sender env = player1 g) then player2 g else player1 g)
                      (winner g) InProgress (createdAt g) (timestamp env)]> (games s))
           (playerGames s) (playerWins s) (playerGamesPlayed s) (_owners s)
           (events s ++ [MoveMade id (sender env) pos])).
Proof.
  unfold mark_of, makeMove. tx_exec. cbn zeta. tx_cases.
  all: intros [= <-].
  all: repeat match goal with H : _ = true |- _ => rewrite H | H : _ = false |- _ => rewrite H end.
  all: split; [repeat split; auto; lia | congruence].
Qed.

(** A move rejected by one of the contract's own errors has written
    nothing when it reverts. *)
Lemma makeMove_revert env id pos s e s' :
  makeMove env id pos s = (Revert e, s') → e ≠ Panic → s' = s.
Proof.
  unfold makeMove. tx_exec. tx_cases.
Qed.

Lemma joinGame_ok env id s s' :
  joinGame env id s = (Ok (), s') →
  let g := game_at s id in
  let played := <[player1 g := uint_at (playerGamesPlayed s) (player1 g) + 1]> (playerGamesPlayed s) in
  (player1 g ≠ 0 ∧ state g = WaitingForPlayer ∧ player1 g ≠ sender env)
  ∧ s' =
      mkContract (gameCounter s) (_tokenIdCounter s)
        (<[id := mkGame (player1 g) (sender env) (board g) (currentTurn g) (winner g) InProgress
                   (createdAt g) (timestamp env)]> (games s))
        (<[sender env := ids_at (playerGames s) (sender env) ++ [id]]> (playerGames s))
        (playerWins s)
        (<[sender env := uint_at played (sender env) + 1]> played)
        (_owners s)
        (events s ++ [GameJoined id (sender env)]).
Proof.
  unfold joinGame. tx_exec. cbn zeta. tx_cases.
  intros [= <-]. done.
Qed.

Lemma joinGame_reject env id s :
  let g := game_at s id in
  joinGame env id s =
    if bool_decide (player1 g = 0) then (Revert GameNotFound, s)
    else if bool_decide (state g ≠ WaitingForPlayer) then (Revert GameNotWaitingForPlayer, s)
    else if bool_decide (player1 g = sender env) then (Revert CannotJoinOwnGame, s)
    else joinGame env id s.
Proof.
  cbn zeta. repeat (tx_case; tx_norm; [unfold joinGame; tx_exec; tx_cases|]); done.
Qed.

Lemma joinGame_revert env id s e s' :
  joinGame env id s = (Revert e, s') → e ≠ Panic → s' = s.
Proof.
  unfold joinGame. tx_exec. tx_cases.
Qed.

Lemma createGame_ok env s id s' :
  createGame env s = (Ok id, s') →
  let g := game_at s (gameCounter s) in
  id = gameCounter s ∧ gameCounter s < MAX_UINT256
  ∧ s' =
      mkContract (gameCounter s + 1) (_tokenIdCounter s)
        (<[gameCounter s :=
             mkGame (sender env) 0 (foldl (λ b i, <[i := Empty]> b) (board g) (seq 0 9))
               (sender env) 0 WaitingForPlayer (timestamp env) (timestamp env)]> (games s))
        (<[sender env := ids_at (playerGames s) (sender env) ++ [gameCounter s]]> (playerGames s))
        (playerWins s) (playerGamesPlayed s) (_owners s)
        (events s ++ [GameCreated (gameCounter s) (sender env)]).
Proof.
  unfold createGame. tx_exec. cbn zeta.
  case_bool_decide; [|done]. intros [= <- <-]. done.
Qed.

Lemma transact_ok {A} (m : Tx A) s a s' :
  transact m s = (Ok a, s') ↔ m s = (Ok a, s').
Proof.
  unfold transact. destruct (m s) as [[a0|e] s0]; split; congruence.
Qed.

Lemma transact_revert {A} (m : Tx A) s e s' :
  transact m s = (Revert e, s') ↔ s' = s ∧ fst (m s) = Revert e.
Proof.
  unfold transact. destruct (m s) as [[a0|e0] s0]; cbn; split.
  all: try intros [? ?]; try congruence.
  intros [= <- <-]. done.
Qed.

Lemma transact_fst {A} (m : Tx A) s : fst (transact m s) = fst (m s).
Proof. unfold transact. by destruct (m s) as [[a0|e0] s0]. Qed.

(** C10: no call of [makeMove] reverts with [GameAlreadyFinished]; a
    finished game is already turned away by the preceding check on
    [state != InProgress]. *)
Theorem C10_never_GameAlreadyFinished (env : Env) (gameId position : N) (s : Contract) :
  fst (transact (makeMove env gameId position) s) ≠ Revert GameAlreadyFinished.
Proof.
  rewrite transact_fst. unfold makeMove. tx_exec. tx_cases.
Qed.

(** C1: an accepted move ends in exactly one of three ways, tried in this
    order.  The mover's mark is placed on the cell; then, of the board so
    obtained: if the mover's mark holds one of the eight lines, the winner
    is the mover, the state Finished and the turn kept; else if no cell is
    empty, the state is Draw and the turn kept; else the game stays
    InProgress and the turn passes to the other participant.  The three
    cases exclude each other.  (Boards have nine cells, the type of the
    source; "holds a line" and "no cell is empty" are [hasWinner] and
    [isFull], not the functions of the contract.) *)
Theorem C1_makeMove_outcome (env : Env) (gameId position : N) (s s' : Contract) :
  length (board (game_at s gameId)) = 9%nat →
  transact (makeMove env gameId position) s = (Ok (), s') →
  let g := game_at s gameId in
  let g' := game_at s' gameId in
  let mark := mark_of (sender env) g in
  board g' = <[N.to_nat position := mark]> (board g)
  ∧ ((hasWinner (board g') mark
      ∧ winner g' = sender env ∧ state g' = Finished ∧ currentTurn g' = currentTurn g)
     ∨ (¬ hasWinner (board g') mark ∧ isFull (board g')
        ∧ winner g' = winner g ∧ state g' = Draw ∧ currentTurn g' = currentTurn g)
     ∨ (¬ hasWinner (board g') mark ∧ ¬ isFull (board g')
        ∧ winner g' = winner g ∧ state g' = InProgress
        ∧ currentTurn g' = other_participant (sender env) g
        ∧ (currentTurn g' = player1 g ∨ currentTurn g' = player2 g)
        ∧ (player1 g ≠ player2 g → currentTurn g' ≠ currentTurn g))).
Proof.
  intros Hlen H. apply (proj1 (transact_ok _ _ _ _)) in H.
  destruct (makeMove_ok _ _ _ _ _ H) as [(Hp1 & Hst & Hwho & Hturn & Hpos & Hcell) ->].
  cbn zeta. unfold other_participant.
  set (g := game_at s gameId) in *. set (mark := mark_of (sender env) g).
  assert (Hlen' : length (<[N.to_nat position := mark]> (board g)) = 9%nat)
    by (by rewrite length_insert).
  pose proof (_checkWinner_hasWinner _ mark Hlen') as Hline.
  pose proof (_isBoardFull_isFull _ Hlen') as Hfull.
  destruct (_checkWinner _ mark) eqn:Hwin; [|destruct (_isBoardFull _) eqn:Hf].
  all: rewrite game_at_insert, decide_True by done; cbn.
  all: split; [done|].
  - left. split; [by apply Hline|done].
  - right; left. split; [by intros ?%Hline|]. split; [by apply Hfull|done].
  - right; right. split; [by intros ?%Hline|]. split; [by intros ?%Hfull|].
    repeat split; try done.
    + case_bool_decide; auto.
    + intros Hne. rewrite <- Hturn. case_bool_decide; congruence.
Qed.

(** C1 on the three outcomes: the move that completes the top row, the
    move that fills the board of the draw game, and the first move of a
    game. *)
Lemma C1_witness :
  (transact (makeMove P1 0 2) scenario_before_win = (Ok (), scenario_won)
   ∧ state (game_at scenario_won 0) = Finished
   ∧ winner (game_at scenario_won 0) = 1)
  ∧ (transact (makeMove P1 0 7) scenario_before_draw = (Ok (), scenario_draw)
     ∧ state (game_at scenario_draw 0) = Draw
     ∧ currentTurn (game_at scenario_draw 0) = 1)
  ∧ (state (game_at (exec P1 (MakeMove 0 4) scenario_joined) 0) = InProgress
     ∧ currentTurn (game_at (exec P1 (MakeMove 0 4) scenario_joined) 0) = 2).
Proof.
  assert (Hwon : transact (makeMove P1 0 2) scenario_before_win = (Ok (), scenario_won))
    by (vm_compute; reflexivity).
  assert (Hdraw : transact (makeMove P1 0 7) scenario_before_draw = (Ok (), scenario_draw))
    by (vm_compute; reflexivity).
  assert (Hnext : transact (makeMove P1 0 4) scenario_joined
                  = (Ok (), exec P1 (MakeMove 0 4) scenario_joined))
    by (vm_compute; reflexivity).
  split; [|split].
  - split; [exact Hwon|].
    destruct (C1_makeMove_outcome P1 0 2 scenario_before_win scenario_won eq_refl Hwon)
      as [_ [(_ & Hw & Hs & _) | [(Hno & _) | (Hno & _)]]].
    + split; [exact Hs | exact Hw].
    + destruct Hno. apply _checkWinner_hasWinner; [reflexivity | vm_compute; reflexivity].
    + destruct Hno. apply _checkWinner_hasWinner; [reflexivity | vm_compute; reflexivity].
  - split; [exact Hdraw|].
    destruct (C1_makeMove_outcome P1 0 7 scenario_before_draw scenario_draw eq_refl Hdraw)
      as [_ [(Hline & _) | [(_ & _ & _ & Hs & Ht) | (_ & Hnf & _)]]].
    + apply _checkWinner_hasWinner in Hline; [|reflexivity].
      vm_compute in Hline. discriminate Hline.
    + split; [exact Hs | exact Ht].
    + destruct Hnf. apply _isBoardFull_isFull; [reflexivity | vm_compute; reflexivity].
  - destruct (C1_makeMove_outcome P1 0 4 scenario_joined _ eq_refl Hnext)
      as [_ [(Hline & _) | [(_ & Hfull & _) | (_ & _ & _ & Hs & Ht & _)]]].
    + apply _checkWinner_hasWinner in Hline; [|reflexivity].
      vm_compute in Hline. discriminate Hline.
    + apply _isBoardFull_isFull in Hfull; [|reflexivity].
      vm_compute in Hfull. discriminate Hfull.
    + split; [exact Hs | exact Ht].
Defined.

(** ** Rejected calls *)

(** C5 (amended): with position 9 a move is always rejected, by the
    first check that fails: no record gives GameNotFound, a game that is
    not InProgress gives GameNotInProgress, a non-participant gives
    NotAPlayer, a participant out of turn gives NotYourTurn, and only the
    participant whose turn it is in an InProgress game gets
    InvalidPosition.  In every case the storage is unchanged. *)
Theorem C5_position_nine (env : Env) (gameId : N) (s : Contract) :
  let g := game_at s gameId in
  transact (makeMove env gameId 9) s =
    (Revert
       (if bool_decide (player1 g = 0) then GameNotFound
        else if bool_decide (state g ≠ InProgress) then GameNotInProgress
        else if bool_decide (sender env ≠ player1 g ∧ sender env ≠ player2 g) then NotAPlayer
        else if bool_decide (sender env ≠ currentTurn g) then NotYourTurn
        else InvalidPosition), s).
Proof.
  cbn zeta. apply transact_revert. split; [done|].
  rewrite makeMove_reject. cbn zeta.
  repeat (tx_case; tx_norm; cbn [andb fst]; try done; try (exfalso; naive_solver)).
Qed.

(** C5 as stated fails: on fresh storage, position 9 is answered with
    GameNotFound, and in a game still waiting for its second player with
    GameNotInProgress. *)
Lemma C5_counterexample :
  fst (transact (makeMove P1 0 9) init) = Revert GameNotFound
  ∧ fst (transact (makeMove P1 0 9) (exec P1 CreateGame init)) = Revert GameNotInProgress
  ∧ ¬ (∀ env gameId s, fst (transact (makeMove env gameId 9) s) = Revert InvalidPosition).
Proof.
  split; [by vm_compute|]. split; [by vm_compute|].
  intros H. specialize (H P1 0 init). vm_compute in H. discriminate H.
Qed.

(** C6: a failed JoinGame or MakeMove leaves the whole storage (game
    records, counters, participant indices, trophies, event log) as it
    was.  The ledger restores it whatever the error; and for each of the
    contract's own errors the body itself has written nothing and logged
    nothing when it reverts. *)
Theorem C6_failed_call_changes_nothing
    (env : Env) (gameId position : N) (s s' : Contract) (e : Error) :
  (transact (joinGame env gameId) s = (Revert e, s') → s' = s)
  ∧ (transact (makeMove env gameId position) s = (Revert e, s') → s' = s)
  ∧ (joinGame env gameId s = (Revert e, s') → e ≠ Panic → s' = s)
  ∧ (makeMove env gameId position s = (Revert e, s') → e ≠ Panic → s' = s).
Proof.
  repeat split.
  - intros H. by apply transact_revert in H as [-> _].
  - intros H. by apply transact_revert in H as [-> _].
  - apply joinGame_revert.
  - apply makeMove_revert.
Qed.

(** C6 at two rejected calls: [P3] joining the running game 0, and [P2]
    moving out of turn. *)
Lemma C6_witness :
  joinGame P3 0 scenario_joined = (Revert GameNotWaitingForPlayer, scenario_joined)
  ∧ makeMove P2 0 4 scenario_joined = (Revert NotYourTurn, scenario_joined)
  ∧ events (snd (makeMove P2 0 4 scenario_joined)) = events scenario_joined.
Proof.
  assert (Hj : joinGame P3 0 scenario_joined
               = (Revert GameNotWaitingForPlayer, snd (joinGame P3 0 scenario_joined)))
    by (vm_compute; reflexivity).
  assert (Hm : makeMove P2 0 4 scenario_joined
               = (Revert NotYourTurn, snd (makeMove P2 0 4 scenario_joined)))
    by (vm_compute; reflexivity).
  destruct (C6_failed_call_changes_nothing P3 0 0 scenario_joined
              (snd (joinGame P3 0 scenario_joined)) GameNotWaitingForPlayer)
    as (_ & _ & Hj' & _).
  destruct (C6_failed_call_changes_nothing P2 0 4 scenario_joined
              (snd (makeMove P2 0 4 scenario_joined)) NotYourTurn)
    as (_ & _ & _ & Hm').
  specialize (Hj' Hj ltac:(discriminate)).
  specialize (Hm' Hm ltac:(discriminate)).
  rewrite Hj' in Hj. rewrite Hm'. rewrite Hm' in Hm.
  split; [exact Hj|]. split; [exact Hm|reflexivity].
Defined.

(** ** Reachable storage *)

Lemma game_at_other (m : gmap N Game) id id' g c t pg pw pp ow ev s :
  id ≠ id' → m = games s →
  game_at (mkContract c t (<[id := g]> m) pg pw pp ow ev) id' = game_at s id'.
Proof.
  intros Hne ->. rewrite game_at_insert, decide_False by done. reflexivity.
Qed.

Lemma mark_of_cases who g : mark_of who g = X ∨ mark_of who g = O.
Proof. unfold mark_of. case_bool_decide; auto. Qed.

Lemma game_ok_zero : game_ok zero_game.
Proof. split; [reflexivity|]. cbn. done. Qed.

Lemma invariant_init : invariant init.
Proof.
  intros id. unfold game_at. cbn. rewrite lookup_empty. cbn.
  split; [apply game_ok_zero|]. split; [done|]. lia.
Qed.

Lemma no_line_after b i mark mark' :
  (mark = X ∨ mark = O) →
  _checkWinner b X = false → _checkWinner b O = false →
  _checkWinner (<[i := mark]> b) mark = false →
  _checkWinner (<[i := mark]> b) mark' = false ∨ mark' = Empty.
Proof.
  intros Hm HX HO Hnew.
  destruct mark'; [by right| |]; left.
  - destruct Hm as [-> | ->]; [done|]. by apply _checkWinner_insert_other.
  - destruct Hm as [-> | ->]; [|done]. by apply _checkWinner_insert_other.
Qed.

Lemma invariant_makeMove env id pos s s' :
  invariant s → sender env ≠ 0 → makeMove env id pos s = (Ok (), s') → invariant s'.
Proof.
  intros Hinv Hsender Hrun id'.
  destruct (makeMove_ok _ _ _ _ _ Hrun) as [(Hp1 & Hst & Hwho & Hturn & Hpos & Hcell) ->].
  cbn zeta.
  set (g := game_at s id) in *. set (mark := mark_of (sender env) g).
  set (b' := <[N.to_nat pos := mark]> (board g)).
  destruct (Hinv id) as ((Hlen & Hg) & Hzero & Hlive). fold g in Hlen, Hg, Hzero, Hlive.
  rewrite Hst in Hg. destruct Hg as (Hw & _ & Hp2 & Hne & Hcur & HX & HO).
  assert (Hlen' : length b' = 9%nat) by (unfold b'; by rewrite length_insert).
  assert (Hcounter : id < gameCounter s).
  { destruct (decide (id < gameCounter s)) as [|Hge]; [done|].
    exfalso. apply Hp1. fold g. rewrite Hzero by lia. done. }
  assert (Hmark : mark = X ∨ mark = O) by apply mark_of_cases.
  destruct (decide (id = id')) as [<-|Hid].
  - destruct (_checkWinner b' mark) eqn:Hwin; [|destruct (_isBoardFull b') eqn:Hfull].
    all: rewrite game_at_mk; cbn [gameCounter].
    all: (split; [split; [exact Hlen'|]|split; [intros; lia | intros _; exact Hp1]]).
    all: cbn [state winner player1 player2 board currentTurn].
    + split; [done|]. split; [done|]. exact Hwin.
    + split; [done|]. split; [done|].
      destruct (no_line_after (board g) (N.to_nat pos) mark X) as [?|?]; try done.
      destruct (no_line_after (board g) (N.to_nat pos) mark O) as [?|?]; try done.
    + repeat (split; [done|]).
      split; [case_bool_decide; auto|].
      destruct (no_line_after (board g) (N.to_nat pos) mark X) as [?|?]; try done.
      destruct (no_line_after (board g) (N.to_nat pos) mark O) as [?|?]; try done.
  - destruct (_checkWinner b' mark) eqn:Hwin; [|destruct (_isBoardFull b') eqn:Hfull].
    all: rewrite (game_at_other _ _ _ _ _ _ _ _ _ _ _ s) by done.
    all: apply Hinv.
Qed.

Lemma invariant_joinGame env id s s' :
  invariant s → sender env ≠ 0 → joinGame env id s = (Ok (), s') → invariant s'.
Proof.
  intros Hinv Hsender Hrun id'.
  destruct (joinGame_ok _ _ _ _ Hrun) as [(Hp1 & Hst & Hself) ->].
  cbn zeta. set (g := game_at s id) in *.
  destruct (Hinv id) as ((Hlen & Hg) & Hzero & Hlive). fold g in Hlen, Hg, Hzero, Hlive.
  rewrite Hst in Hg. destruct Hg as (Hw & Hcur & Hb).
  destruct (decide (id = id')) as [<-|Hid].
  - rewrite game_at_mk. cbn [gameCounter].
    split; [split; [exact Hlen|]|].
    + cbn [state winner player1 player2 board currentTurn].
      repeat (split; [done|]). split; [by left|]. rewrite Hb. done.
    + cbn [player1]. split; [|done].
      intros Hge. exfalso. apply Hp1. fold g. by rewrite Hzero.
  - rewrite (game_at_other _ _ _ _ _ _ _ _ _ _ _ s) by done. apply Hinv.
Qed.

Lemma invariant_createGame env s id s' :
  invariant s → sender env ≠ 0 → createGame env s = (Ok id, s') → invariant s'.
Proof.
  intros Hinv Hsender Hrun id'.
  destruct (createGame_ok _ _ _ _ Hrun) as (-> & Hmax & ->).
  cbn zeta.
  destruct (Hinv (gameCounter s)) as ((Hlen & _) & _ & _).
  destruct (decide (gameCounter s = id')) as [<-|Hid].
  - rewrite game_at_mk. cbn [gameCounter].
    split; [split|].
    + cbn [board]. by rewrite foldl_clear.
    + cbn [state winner player1 player2 board currentTurn].
      split; [done|]. split; [done|]. by rewrite foldl_clear.
    + cbn [player1]. split; [lia|done].
  - rewrite (game_at_other _ _ _ _ _ _ _ _ _ _ _ s) by done. cbn [gameCounter].
    destruct (Hinv id') as (Hok & Hzero & Hlive).
    split; [done|]. split; [intros; apply Hzero; lia | intros; apply Hlive; lia].
Qed.

Lemma invariant_exec env c s : invariant s → sender env ≠ 0 → invariant (exec env c s).
Proof.
  intros Hinv Hsender. destruct c as [|id|id pos]; unfold exec, transact.
  - destruct (createGame env s) as [[a|e] s1] eqn:E; [|done].
    by eapply invariant_createGame.
  - destruct (joinGame env id s) as [[[]|e] s1] eqn:E; [|done].
    by eapply invariant_joinGame.
  - destruct (makeMove env id pos s) as [[[]|e] s1] eqn:E; [|done].
    by eapply invariant_makeMove.
Qed.

Lemma reachable_invariant s : reachable s → invariant s.
Proof.
  induction 1 as [|env c s Hs IH Hsender]; [apply invariant_init | by apply invariant_exec].
Qed.

Lemma reachable_history cs s :
  reachable s → Forall (λ ec : Env * Call, sender ec.1 ≠ 0) cs → reachable (history cs s).
Proof.
  intros Hs Hcs. revert s Hs. induction Hcs as [|[env c] cs Hne _ IH]; intros s Hs; [done|].
  cbn. apply IH. by constructor.
Qed.

Lemma reachable_scenario_joined : reachable scenario_joined.
Proof. apply reachable_history; [constructor | by repeat constructor]. Qed.

Lemma reachable_scenario_won : reachable scenario_won.
Proof.
  repeat (apply reachable_history; [| by repeat constructor]). constructor.
Qed.

Lemma reachable_scenario_draw : reachable scenario_draw.
Proof.
  repeat (apply reachable_history; [| by repeat constructor]). constructor.
Qed.

Lemma created_inv_exec env c s : created_inv s → created_inv (exec env c s).
Proof.
  intros Hinv. destruct c as [|id|id pos]; unfold exec, transact.
  - destruct (createGame env s) as [[a|e] s1] eqn:E; [|done]. cbn [snd].
    destruct (createGame_ok _ _ _ _ E) as (-> & Hmax & ->). cbn zeta.
    intros id. cbn [events gameCounter]. specialize (Hinv id).
    setoid_rewrite elem_of_app. setoid_rewrite list_elem_of_singleton.
    split.
    + intros [p [Hp | [= -> _]]]; [|lia]. assert (id < gameCounter s) by (apply Hinv; eauto). lia.
    + intros Hlt. destruct (decide (id = gameCounter s)) as [->|]; [eauto|].
      destruct (proj2 Hinv) as [p Hp]; [lia|]. eauto.
  - destruct (joinGame env id s) as [[[]|e] s1] eqn:E; [|done]. cbn [snd].
    destruct (joinGame_ok _ _ _ _ E) as (_ & ->). cbn zeta.
    intros id'. cbn [events gameCounter]. etrans; [|apply (Hinv id')].
    setoid_rewrite elem_of_app. setoid_rewrite list_elem_of_singleton.
    split; [intros [p [Hp | [=]]]; eauto | intros [p Hp]; eauto].
  - destruct (makeMove env id pos s) as [[[]|e] s1] eqn:E; [|done]. cbn [snd].
    destruct (makeMove_ok _ _ _ _ _ E) as (_ & ->). cbn zeta.
    intros id'. repeat case_match; cbn [events gameCounter].
    all: (etrans; [|apply (Hinv id')]).
    all: repeat setoid_rewrite elem_of_app; setoid_rewrite list_elem_of_singleton.
    all: split; [intros [p Hp]; exists p; intuition congruence | intros [p Hp]; eauto 6].
Qed.

Lemma reachable_created s : reachable s → created_inv s.
Proof.
  induction 1 as [|env c s Hs IH Hsender]; [|by apply created_inv_exec].
  intros id. cbn. split; [intros [p Hp]; by apply elem_of_nil in Hp | lia].
Qed.

Lemma never_created_counter s id :
  reachable s → never_created s id ↔ gameCounter s ≤ id.
Proof.
  intros Hs. pose proof (reachable_created s Hs id) as H. unfold never_created.
  split.
  - intros Hn. destruct (decide (id < gameCounter s)) as [Hlt|]; [|lia].
    apply H in Hlt as [p Hp]. by destruct (Hn p).
  - intros Hge p Hp. assert (id < gameCounter s) by (apply H; eauto). lia.
Qed.

Lemma makeMove_accept env id pos s :
  let g := game_at s id in
  player1 g ≠ 0 → state g = InProgress → (sender env = player1 g ∨ sender env = player2 g) →
  sender env = currentTurn g → pos < 9 → cell (board g) (N.to_nat pos) = Empty →
  fst (makeMove env id pos s) = Ok ()
  ∨ (fst (makeMove env id pos s) = Revert Panic
     ∧ (MAX_UINT256 ≤ uint_at (playerWins s) (sender env) ∨ MAX_UINT256 ≤ _tokenIdCounter s)).
Proof.
  cbn zeta. intros Hp1 Hst Hwho Hturn Hpos Hcell.
  unfold makeMove. tx_exec.
  repeat (tx_case; tx_norm; cbn [andb fst snd]; try (by auto); try congruence; try lia).
  all: try (right; split; [done|lia]).
  all: try (destruct Hwho; congruence).
Qed.

(** C3: in reachable storage, for every game, the winner is set exactly
    when the state is Finished; a Finished game's winner is one of its
    two players and that player's mark holds a line; a Draw game's board
    is full and neither X nor O holds a line. *)
Theorem C3_winner_and_terminal_states (s : Contract) (gameId : N) :
  reachable s →
  let g := game_at s gameId in
  (winner g ≠ 0 ↔ state g = Finished)
  ∧ (state g = Finished →
       (winner g = player1 g ∨ winner g = player2 g)
       ∧ hasWinner (board g) (mark_of (winner g) g))
  ∧ (state g = Draw →
       isFull (board g) ∧ ¬ hasWinner (board g) X ∧ ¬ hasWinner (board g) O).
Proof.
  intros Hs. cbn zeta.
  destruct (reachable_invariant s Hs gameId) as ((Hlen & Hg) & _ & _).
  assert (Hline : ∀ mark, _checkWinner (board (game_at s gameId)) mark = true
                          ↔ hasWinner (board (game_at s gameId)) mark).
  { intros mark. by apply _checkWinner_hasWinner. }
  destruct (state (game_at s gameId)) eqn:Hst.
  - destruct Hg as (Hw & _). repeat split; try done.
  - destruct Hg as (Hw & _). repeat split; try done.
  - destruct Hg as (Hw & Hwho & Hwin). repeat split; try done. by apply Hline.
  - destruct Hg as (Hw & Hfull & HX & HO). repeat split; try done.
    + by apply _isBoardFull_isFull.
    + rewrite <- Hline. congruence.
    + rewrite <- Hline. congruence.
Qed.

(** C3 on the won game and on the drawn game of the test suite. *)
Lemma C3_witness :
  (reachable scenario_won ∧ state (game_at scenario_won 0) = Finished
   ∧ hasWinner (board (game_at scenario_won 0))
       (mark_of (winner (game_at scenario_won 0)) (game_at scenario_won 0)))
  ∧ (reachable scenario_draw ∧ state (game_at scenario_draw 0) = Draw
     ∧ isFull (board (game_at scenario_draw 0))
     ∧ ¬ hasWinner (board (game_at scenario_draw 0)) X
     ∧ ¬ hasWinner (board (game_at scenario_draw 0)) O).
Proof.
  assert (Hw : state (game_at scenario_won 0) = Finished) by (vm_compute; reflexivity).
  assert (Hd : state (game_at scenario_draw 0) = Draw) by (vm_compute; reflexivity).
  split.
  - split; [exact reachable_scenario_won|]. split; [exact Hw|].
    exact (proj2 (proj1 (proj2 (C3_winner_and_terminal_states scenario_won 0
                                  reachable_scenario_won)) Hw)).
  - split; [exact reachable_scenario_draw|]. split; [exact Hd|].
    exact (proj2 (proj2 (C3_winner_and_terminal_states scenario_draw 0
                           reachable_scenario_draw)) Hd).
Defined.

(** ** The order of the checks *)

Lemma cell_lookup (b : list CellState) (i : nat) :
  (i < length b)%nat → cell b i ≠ Empty ↔ b !! i ≠ Some Empty.
Proof.
  intros Hi. unfold cell. destruct (lookup_lt_is_Some_2 b i Hi) as [c Hc].
  rewrite Hc. cbn. split; congruence.
Qed.

(** C4: [makeMove] reports the first precondition that fails, in the
    order NotFound, NotInProgress, NotAParticipant, NotYourTurn,
    OutOfRange, CellOccupied, and leaves the storage as it was; a call
    that passes all six is accepted (short of the overflow of a uint256
    counter). *)
Theorem C4_first_violation_reported (env : Env) (gameId position : N) (s : Contract) :
  reachable s →
  match first_violation s (sender env) gameId position with
  | Some e => transact (makeMove env gameId position) s = (Revert e, s)
  | None =>
      fst (transact (makeMove env gameId position) s) = Ok ()
      ∨ (fst (transact (makeMove env gameId position) s) = Revert Panic
         ∧ (MAX_UINT256 ≤ uint_at (playerWins s) (sender env)
            ∨ MAX_UINT256 ≤ _tokenIdCounter s))
  end.
Proof.
  intros Hs.
  destruct (reachable_invariant s Hs gameId) as ((Hlen & _) & Hzero & Hlive).
  pose proof (makeMove_reject env gameId position s) as Hrun. cbn zeta in Hrun.
  unfold first_violation. cbn zeta.
  set (g := game_at s gameId) in *.
  destruct (bool_decide_reflect (gameCounter s ≤ gameId)) as [H1|H1].
  { apply transact_revert. split; [done|].
    rewrite Hrun, bool_decide_eq_true_2; [done|]. by rewrite Hzero. }
  assert (Hp1 : player1 g ≠ 0) by (apply Hlive; lia).
  rewrite (bool_decide_eq_false_2 (player1 g = 0)) in Hrun by done.
  destruct (bool_decide_reflect (state g ≠ InProgress)) as [H2|H2].
  { apply transact_revert. split; [done|]. by rewrite Hrun. }
  destruct (bool_decide_reflect (sender env ≠ player1 g ∧ sender env ≠ player2 g)) as [H3|H3].
  { apply transact_revert. split; [done|]. destruct H3 as [H3 H3'].
    rewrite Hrun, !bool_decide_eq_true_2 by done. done. }
  assert (Hwho : sender env = player1 g ∨ sender env = player2 g).
  { destruct (decide (sender env = player1 g)); [by left|].
    destruct (decide (sender env = player2 g)); [by right|]. by destruct H3. }
  assert (H3' : bool_decide (sender env ≠ player1 g) && bool_decide (sender env ≠ player2 g)
                = false).
  { apply andb_false_iff. destruct Hwho as [Hw | Hw].
    - left. apply bool_decide_eq_false_2. by intros ?.
    - right. apply bool_decide_eq_false_2. by intros ?. }
  rewrite H3' in Hrun.
  destruct (bool_decide_reflect (sender env ≠ currentTurn g)) as [H4|H4].
  { apply transact_revert. split; [done|]. by rewrite Hrun. }
  destruct (bool_decide_reflect (¬ 0 ≤ position ≤ 8)) as [H5|H5].
  { apply transact_revert. split; [done|].
    rewrite Hrun, bool_decide_eq_true_2; [done|]. lia. }
  rewrite (bool_decide_eq_false_2 (9 ≤ position)) in Hrun by lia.
  assert (Hidx : (N.to_nat position < length (board g))%nat) by lia.
  destruct (bool_decide_reflect (board g !! N.to_nat position ≠ Some Empty)) as [H6|H6].
  { apply transact_revert. split; [done|].
    rewrite Hrun, bool_decide_eq_true_2; [done|]. by apply cell_lookup. }
  rewrite transact_fst.
  apply makeMove_accept; fold g; try done.
  - by apply dec_stable.
  - by apply dec_stable.
  - lia.
  - apply dec_stable. intros Hc. apply H6. by apply cell_lookup.
Qed.

(** C4 on the joined game: [P3] is no participant, [P2] is out of turn,
    and [P1] may play the centre. *)
Lemma C4_witness :
  transact (makeMove P3 0 9) scenario_joined = (Revert NotAPlayer, scenario_joined)
  ∧ transact (makeMove P2 0 9) scenario_joined = (Revert NotYourTurn, scenario_joined)
  ∧ transact (makeMove P1 0 9) scenario_joined = (Revert InvalidPosition, scenario_joined).
Proof.
  pose proof (C4_first_violation_reported P3 0 9 scenario_joined reachable_scenario_joined) as H3.
  pose proof (C4_first_violation_reported P2 0 9 scenario_joined reachable_scenario_joined) as H2.
  pose proof (C4_first_violation_reported P1 0 9 scenario_joined reachable_scenario_joined) as H1.
  assert (E3 : first_violation scenario_joined (sender P3) 0 9 = Some NotAPlayer)
    by (vm_compute; reflexivity).
  assert (E2 : first_violation scenario_joined (sender P2) 0 9 = Some NotYourTurn)
    by (vm_compute; reflexivity).
  assert (E1 : first_violation scenario_joined (sender P1) 0 9 = Some InvalidPosition)
    by (vm_compute; reflexivity).
  rewrite E3 in H3. rewrite E2 in H2. rewrite E1 in H1.
  split; [exact H3|]. split; [exact H2|exact H1].
Defined.

(** ** Reading a game that was never created *)

(** C9 (amended): for an id that no CreateGame call allocated, the read
    [getGame] does not fail: it returns the all-zero record (no players,
    empty board, no winner, state WaitingForPlayer).  It is the writes
    [joinGame] and [makeMove] that answer GameNotFound for such an id. *)
Theorem C9_unknown_game_reads_zero (s : Contract) (gameId : N) :
  reachable s → never_created s gameId →
  transact (getGame gameId) s = (Ok (0, 0, replicate 9 Empty, 0, 0, WaitingForPlayer), s)
  ∧ (∀ env, transact (joinGame env gameId) s = (Revert GameNotFound, s))
  ∧ (∀ env position, transact (makeMove env gameId position) s = (Revert GameNotFound, s)).
Proof.
  intros Hs Hnew. apply never_created_counter in Hnew; [|done].
  destruct (reachable_invariant s Hs gameId) as (_ & Hzero & _).
  specialize (Hzero Hnew).
  split; [|split].
  - apply transact_ok. unfold getGame. tx_exec. by rewrite Hzero.
  - intros env. apply transact_revert. split; [done|].
    rewrite joinGame_reject. cbn zeta. by rewrite Hzero.
  - intros env position. apply transact_revert. split; [done|].
    rewrite makeMove_reject. cbn zeta. by rewrite Hzero.
Qed.

(** C9 as stated fails: reading game 7 of fresh storage succeeds. *)
Lemma C9_counterexample :
  never_created init 7
  ∧ fst (transact (getGame 7) init)
    = Ok (0, 0, [Empty; Empty; Empty; Empty; Empty; Empty; Empty; Empty; Empty], 0, 0,
          WaitingForPlayer)
  ∧ fst (transact (getGame 7) init) ≠ Revert GameNotFound.
Proof.
  split; [intros p Hp; by apply elem_of_nil in Hp|].
  split; [by vm_compute|]. by vm_compute.
Qed.

(** C9 on game 1 of the storage in which only game 0 exists. *)
Lemma C9_witness :
  transact (getGame 1) scenario_joined
  = (Ok (0, 0, replicate 9 Empty, 0, 0, WaitingForPlayer), scenario_joined)
  ∧ transact (joinGame P3 1) scenario_joined = (Revert GameNotFound, scenario_joined).
Proof.
  assert (Hnew : never_created scenario_joined 1).
  { intros p Hp. vm_compute in Hp.
    repeat (apply elem_of_cons in Hp as [Hp | Hp]; [discriminate Hp|]).
    by apply elem_of_nil in Hp. }
  destruct (C9_unknown_game_reads_zero scenario_joined 1 reachable_scenario_joined Hnew)
    as (Hget & Hjoin & _).
  split; [exact Hget | exact (Hjoin P3)].
Defined.

(** ** Player ledger *)

Lemma uint_at_insert (m : gmap N N) k k' v :
  uint_at (<[k := v]> m) k' = if decide (k = k') then v else uint_at m k'.
Proof. unfold uint_at. rewrite lookup_insert. by case_decide. Qed.

Lemma ledger_createGame env s a :
  totalGames (exec env CreateGame s) a = totalGames s a
  ∧ wins (exec env CreateGame s) a = wins s a.
Proof.
  unfold exec, transact.
  destruct (createGame env s) as [[id|e] s1] eqn:E; [|done]. cbn [snd].
  by destruct (createGame_ok _ _ _ _ E) as (_ & _ & ->).
Qed.

Lemma ledger_joinGame env id s a :
  let s' := exec env (JoinGame id) s in
  let g := game_at s id in
  let g' := game_at s' id in
  totalGames s' a = totalGames s a +
    (if bool_decide (state g = WaitingForPlayer ∧ state g' = InProgress
                     ∧ (a = player1 g' ∨ a = player2 g')) then 1 else 0)
  ∧ wins s' a = wins s a.
Proof.
  cbn zeta. unfold exec, transact.
  destruct (joinGame env id s) as [[[]|e] s1] eqn:E; cbn [snd].
  - destruct (joinGame_ok _ _ _ _ E) as ((Hp1 & Hst & Hself) & ->). cbn zeta.
    rewrite game_at_mk. unfold totalGames, wins. cbn [playerGamesPlayed playerWins state player1 player2].
    split; [|done].
    rewrite !uint_at_insert.
    repeat case_decide; case_bool_decide; subst; try done; try lia; exfalso; naive_solver.
  - split; [|done]. rewrite bool_decide_eq_false_2; [lia|].
    intros (H1 & H2 & _). congruence.
Qed.

Lemma ledger_makeMove env id pos s a :
  let s' := exec env (MakeMove id pos) s in
  let g := game_at s id in
  let g' := game_at s' id in
  totalGames s' a = totalGames s a
  ∧ wins s' a = wins s a +
      (if bool_decide (state g = InProgress ∧ state g' = Finished ∧ a = winner g')
       then 1 else 0).
Proof.
  cbn zeta. unfold exec, transact.
  destruct (makeMove env id pos s) as [[[]|e] s1] eqn:E; cbn [snd].
  - destruct (makeMove_ok _ _ _ _ _ E) as ((Hp1 & Hst & _) & ->). cbn zeta.
    unfold totalGames, wins.
    destruct (_checkWinner _ _) eqn:Hwin; [|destruct (_isBoardFull _) eqn:Hfull].
    all: rewrite game_at_mk; cbn [playerGamesPlayed playerWins state winner]; (split; [done|]).
    + rewrite uint_at_insert. case_decide; case_bool_decide; subst; try done; try lia;
        exfalso; naive_solver.
    + rewrite bool_decide_eq_false_2; [lia|]. intros (_ & ? & _). done.
    + rewrite bool_decide_eq_false_2; [lia|]. intros (_ & ? & _). done.
  - split; [done|]. rewrite bool_decide_eq_false_2; [lia|].
    intros (H1 & H2 & _). congruence.
Qed.

Lemma elem_of_allocated s id : id ∈ allocated s ↔ id < gameCounter s.
Proof.
  unfold allocated. rewrite list_elem_of_fmap. setoid_rewrite elem_of_seq. split.
  - intros (n & -> & Hn). lia.
  - intros Hlt. exists (N.to_nat id). split; lia.
Qed.

Lemma NoDup_allocated s : NoDup (allocated s).
Proof.
  unfold allocated. apply NoDup_fmap_2; [|apply NoDup_seq].
  intros x y Hxy. lia.
Qed.

Lemma allocated_succ c t m pg pw pp ow ev s :
  c = gameCounter s + 1 →
  allocated (mkContract c t m pg pw pp ow ev) = allocated s ++ [gameCounter s].
Proof.
  intros ->. unfold allocated. cbn [gameCounter].
  replace (N.to_nat (gameCounter s + 1)) with (N.to_nat (gameCounter s) + 1)%nat by lia.
  rewrite seq_app, fmap_app. cbn. f_equal. f_equal. lia.
Qed.

Section filter_count.
Context {A : Type} (P Q : A → Prop) `{!∀ x, Decision (P x)} `{!∀ x, Decision (Q x)}.

Lemma filter_same (l : list A) :
  (∀ x, x ∈ l → P x ↔ Q x) → filter P l = filter Q l.
Proof.
  induction l as [|x l IH]; intros Hpq; [done|].
  rewrite !filter_cons.
  rewrite IH by (intros y Hy; apply Hpq; by right).
  assert (Hx : P x ↔ Q x) by (apply Hpq; by left).
  repeat case_decide; try done; exfalso; tauto.
Qed.

Lemma filter_gain (l : list A) (x0 : A) :
  NoDup l → x0 ∈ l → ¬ P x0 → Q x0 →
  (∀ x, x ∈ l → x ≠ x0 → P x ↔ Q x) →
  length (filter Q l) = S (length (filter P l)).
Proof.
  induction l as [|x l IH]; intros Hnd Hin HP HQ Hpq; [by apply elem_of_nil in Hin|].
  apply NoDup_cons in Hnd as [Hx Hnd]. rewrite !filter_cons.
  apply elem_of_cons in Hin as [<- | Hin].
  - rewrite decide_True, decide_False by done. cbn. f_equal.
    symmetry. f_equal. apply filter_same. intros y Hy. apply Hpq; [by right|]. intros ->. done.
  - assert (x ≠ x0) by (intros ->; done).
    assert (Hpx : P x ↔ Q x) by (apply Hpq; [by left|done]).
    assert (IH' : length (filter Q l) = S (length (filter P l))).
    { apply IH; try done. intros y Hy. apply Hpq. by right. }
    repeat case_decide; cbn; try (exfalso; tauto); lia.
Qed.
End filter_count.

Lemma allocated_frame s s' : gameCounter s' = gameCounter s → allocated s' = allocated s.
Proof. unfold allocated. by intros ->. Qed.

(** Counting over the allocated ids when the record of one id changes. *)
Section one_game_changes.
Context (s s' : Contract) (id : N).
Context (P : Game → Prop) `{!∀ g, Decision (P g)}.
Hypothesis Hcounter : gameCounter s' = gameCounter s.
Hypothesis Hother : ∀ x, x ≠ id → game_at s' x = game_at s x.

Lemma count_same :
  (P (game_at s id) ↔ P (game_at s' id)) →
  filter (λ x, P (game_at s' x)) (allocated s') = filter (λ x, P (game_at s x)) (allocated s).
Proof.
  intros Hid. rewrite (allocated_frame s s') by done.
  apply filter_same. intros x _.
  destruct (decide (x = id)) as [->|Hne]; [done|]. by rewrite Hother.
Qed.

Lemma count_gain :
  id < gameCounter s → ¬ P (game_at s id) → P (game_at s' id) →
  length (filter (λ x, P (game_at s' x)) (allocated s'))
  = S (length (filter (λ x, P (game_at s x)) (allocated s))).
Proof.
  intros Hlt Hold Hnew. rewrite (allocated_frame s s') by done.
  apply (filter_gain _ _ _ id); try done.
  - apply NoDup_allocated.
  - by apply elem_of_allocated.
  - intros x _ Hne. by rewrite Hother.
Qed.
End one_game_changes.

Lemma ledger_inv_init : ledger_inv init.
Proof. intros a. by vm_compute. Qed.

Lemma ledger_inv_createGame env s id s' :
  invariant s → ledger_inv s → createGame env s = (Ok id, s') → ledger_inv s'.
Proof.
  intros Hinv Hled Hrun a.
  destruct (createGame_ok _ _ _ _ Hrun) as (-> & Hmax & ->). cbn zeta.
  destruct (Hled a) as [Ht Hw].
  unfold totalGames, wins, joined_games, won_games in *.
  rewrite (allocated_succ _ _ _ _ _ _ _ _ s) by done.
  rewrite !filter_app, !length_app.
  rewrite !filter_cons, !filter_nil, !game_at_mk.
  cbn [playerGamesPlayed playerWins state].
  rewrite !decide_False by (intros [? _]; done). cbn [length].
  rewrite !Nat.add_0_r, Ht, Hw.
  split; do 2 f_equal; symmetry; apply filter_same; intros x Hx.
  all: apply elem_of_allocated in Hx.
  all: rewrite (game_at_other _ _ _ _ _ _ _ _ _ _ _ s) by (done || lia); done.
Qed.

Lemma ledger_inv_joinGame env id s s' :
  invariant s → ledger_inv s → joinGame env id s = (Ok (), s') → ledger_inv s'.
Proof.
  intros Hinv Hled Hrun a.
  destruct (joinGame_ok _ _ _ _ Hrun) as ((Hp1 & Hst & Hself) & Hs'). cbn zeta in Hs'.
  destruct (Hinv id) as (_ & Hzero & _).
  assert (Hlt : id < gameCounter s).
  { destruct (decide (id < gameCounter s)); [done|]. exfalso. apply Hp1. by rewrite Hzero by lia. }
  assert (Hcounter : gameCounter s' = gameCounter s) by by subst s'.
  assert (Hother : ∀ x, x ≠ id → game_at s' x = game_at s x).
  { intros x Hx. subst s'. by apply game_at_other. }
  assert (Hg' : game_at s' id =
                mkGame (player1 (game_at s id)) (sender env) (board (game_at s id))
                  (currentTurn (game_at s id)) (winner (game_at s id)) InProgress
                  (createdAt (game_at s id)) (timestamp env)).
  { subst s'. by rewrite game_at_mk. }
  destruct (Hled a) as [Ht Hw]. split.
  - assert (Hnew : totalGames s' a = totalGames s a +
                     (if decide (player1 (game_at s id) = a ∨ sender env = a) then 1 else 0)).
    { subst s'. unfold totalGames. cbn [playerGamesPlayed]. rewrite !uint_at_insert.
      repeat case_decide; subst; try done; try lia; exfalso; naive_solver. }
    rewrite Hnew, Ht. unfold joined_games. case_decide as Ha.
    + pose proof (count_gain s s' id
                    (λ g, state g ≠ WaitingForPlayer ∧ (player1 g = a ∨ player2 g = a))
                    Hcounter Hother Hlt) as Hc.
      cbv beta in Hc. rewrite Hc; [lia | | ].
      * intros [? _]. done.
      * rewrite Hg'. cbn. done.
    + pose proof (count_same s s' id
                    (λ g, state g ≠ WaitingForPlayer ∧ (player1 g = a ∨ player2 g = a))
                    Hcounter Hother) as Hc.
      cbv beta in Hc. rewrite Hc; [lia|].
      rewrite Hg'. cbn. split; [intros [? _]; done | intros [_ ?]; done].
  - assert (Hnew : wins s' a = wins s a) by by subst s'.
    rewrite Hnew, Hw. unfold won_games.
    pose proof (count_same s s' id (λ g, state g = Finished ∧ winner g = a)
                  Hcounter Hother) as Hc.
    cbv beta in Hc. rewrite Hc; [done|].
    rewrite Hg', Hst. cbn. split; intros [? _]; done.
Qed.

Lemma ledger_inv_makeMove env id pos s s' :
  invariant s → ledger_inv s → makeMove env id pos s = (Ok (), s') → ledger_inv s'.
Proof.
  intros Hinv Hled Hrun a.
  destruct (makeMove_ok _ _ _ _ _ Hrun) as ((Hp1 & Hst & _) & Hs'). cbn zeta in Hs'.
  destruct (Hinv id) as (_ & Hzero & _).
  assert (Hlt : id < gameCounter s).
  { destruct (decide (id < gameCounter s)); [done|]. exfalso. apply Hp1. by rewrite Hzero by lia. }
  set (g := game_at s id) in *.
  set (b' := <[N.to_nat pos := mark_of (sender env) g]> (board g)) in *.
  assert (Hcounter : gameCounter s' = gameCounter s).
  { subst s'. by repeat case_match. }
  assert (Hother : ∀ x, x ≠ id → game_at s' x = game_at s x).
  { intros x Hx. subst s'. repeat case_match; by apply game_at_other. }
  assert (Hplayed : totalGames s' a = totalGames s a).
  { subst s'. by repeat case_match. }
  assert (Hplayers : state (game_at s' id) ≠ WaitingForPlayer
                     ∧ player1 (game_at s' id) = player1 g ∧ player2 (game_at s' id) = player2 g).
  { subst s'. repeat case_match; by rewrite game_at_mk. }
  destruct Hplayers as (Hst' & Hp1' & Hp2').
  destruct (Hled a) as [Ht Hw]. split.
  - rewrite Hplayed, Ht. unfold joined_games.
    pose proof (count_same s s' id
                  (λ g, state g ≠ WaitingForPlayer ∧ (player1 g = a ∨ player2 g = a))
                  Hcounter Hother) as Hc.
    cbv beta in Hc. rewrite Hc; [done|].
    fold g. rewrite Hp1', Hp2', Hst. split; intros [_ ?]; done.
  - destruct (_checkWinner b' (mark_of (sender env) g)) eqn:Hwin.
    + assert (Hg' : state (game_at s' id) = Finished ∧ winner (game_at s' id) = sender env).
      { subst s'. by rewrite game_at_mk. }
      assert (Hnew : wins s' a = wins s a + (if decide (sender env = a) then 1 else 0)).
      { subst s'. unfold wins. cbn [playerWins]. rewrite uint_at_insert.
        case_decide; subst; lia. }
      rewrite Hnew, Hw. unfold won_games. destruct Hg' as [Hf Hwho]. case_decide as Ha.
      * pose proof (count_gain s s' id (λ g, state g = Finished ∧ winner g = a)
                      Hcounter Hother Hlt) as Hc.
        cbv beta in Hc. rewrite Hc; [lia | | split; congruence].
        fold g. rewrite Hst. intros [? _]. done.
      * pose proof (count_same s s' id (λ g, state g = Finished ∧ winner g = a)
                      Hcounter Hother) as Hc.
        cbv beta in Hc. rewrite Hc; [lia|].
        fold g. rewrite Hst, Hwho. split; [intros [? _]; done | intros [_ ?]; done].
    + assert (Hg' : state (game_at s' id) ≠ Finished).
      { subst s'. case_match; by rewrite game_at_mk. }
      assert (Hnew : wins s' a = wins s a).
      { subst s'. by case_match. }
      rewrite Hnew, Hw. unfold won_games.
      pose proof (count_same s s' id (λ g, state g = Finished ∧ winner g = a)
                    Hcounter Hother) as Hc.
      cbv beta in Hc. rewrite Hc; [done|].
      fold g. rewrite Hst. split; intros [? _]; done.
Qed.

Lemma ledger_inv_exec env c s : invariant s → ledger_inv s → ledger_inv (exec env c s).
Proof.
  intros Hinv Hled. destruct c as [|id|id pos]; unfold exec, transact.
  - destruct (createGame env s) as [[a|e] s1] eqn:E; [|done].
    by eapply ledger_inv_createGame.
  - destruct (joinGame env id s) as [[[]|e] s1] eqn:E; [|done].
    by eapply ledger_inv_joinGame.
  - destruct (makeMove env id pos s) as [[[]|e] s1] eqn:E; [|done].
    by eapply ledger_inv_makeMove.
Qed.

Lemma reachable_ledger s : reachable s → ledger_inv s.
Proof.
  induction 1 as [|env c s Hs IH Hsender]; [apply ledger_inv_init|].
  apply ledger_inv_exec; [by apply reachable_invariant | done].
Qed.

(** C7: with [wins] and [totalGames] the two numbers [getPlayerStats]
    returns, [totalGames] moves only at join time, by one, for the creator
    and for the joiner of the joined game and for nobody else; creating a
    game moves no counter; [wins] moves only on the move that finishes a
    game, by one, for the winner only.  Hence in reachable storage
    [totalGames a] is the number of joined games [a] takes part in (a
    game never joined counts for nobody) and [wins a] the number of games
    [a] has won. *)
Theorem C7_player_ledger (env : Env) (s : Contract) (a : address) :
  getPlayerStats a s = (Ok (wins s a, totalGames s a), s)
  ∧ (totalGames (exec env CreateGame s) a = totalGames s a
     ∧ wins (exec env CreateGame s) a = wins s a)
  ∧ (∀ gameId,
       let s' := exec env (JoinGame gameId) s in
       let g := game_at s gameId in
       let g' := game_at s' gameId in
       totalGames s' a = totalGames s a +
         (if bool_decide (state g = WaitingForPlayer ∧ state g' = InProgress
                          ∧ (a = player1 g' ∨ a = player2 g')) then 1 else 0)
       ∧ wins s' a = wins s a)
  ∧ (∀ gameId position,
       let s' := exec env (MakeMove gameId position) s in
       let g := game_at s gameId in
       let g' := game_at s' gameId in
       totalGames s' a = totalGames s a
       ∧ wins s' a = wins s a +
           (if bool_decide (state g = InProgress ∧ state g' = Finished ∧ a = winner g')
            then 1 else 0))
  ∧ (reachable s →
       totalGames s a = N.of_nat (length (joined_games s a))
       ∧ wins s a = N.of_nat (length (won_games s a))).
Proof.
  split; [reflexivity|].
  split; [apply ledger_createGame|].
  split; [intros gameId; apply ledger_joinGame|].
  split; [intros gameId position; apply ledger_makeMove|].
  intros Hs. by apply reachable_ledger.
Qed.

(** C7 after the won game, with a second game that [P3] created and
    nobody joined: one game played each for [P1] and [P2], one win for
    [P1], nothing for [P3]. *)
Lemma C7_witness :
  let s := exec P3 CreateGame scenario_won in
  reachable s
  ∧ (totalGames s 1 = 1 ∧ wins s 1 = 1)
  ∧ (totalGames s 2 = 1 ∧ wins s 2 = 0)
  ∧ (totalGames s 3 = 0 ∧ wins s 3 = 0).
Proof.
  cbn zeta.
  assert (Hs : reachable (exec P3 CreateGame scenario_won)).
  { constructor; [exact reachable_scenario_won | discriminate]. }
  split; [exact Hs|].
  pose proof (proj2 (proj2 (proj2 (proj2 (C7_player_ledger P3 (exec P3 CreateGame scenario_won) 1)))) Hs)
    as [Ht1 Hw1].
  pose proof (proj2 (proj2 (proj2 (proj2 (C7_player_ledger P3 (exec P3 CreateGame scenario_won) 2)))) Hs)
    as [Ht2 Hw2].
  pose proof (proj2 (proj2 (proj2 (proj2 (C7_player_ledger P3 (exec P3 CreateGame scenario_won) 3)))) Hs)
    as [Ht3 Hw3].
  rewrite Ht1, Hw1, Ht2, Hw2, Ht3, Hw3.
  vm_compute. repeat split; reflexivity.
Defined.

(** ** Trophy metadata: the byte-group encoding *)

Lemma list_ind3 {A} (P : list A → Prop) :
  P [] → (∀ a, P [a]) → (∀ a b, P [a; b]) →
  (∀ a b c l, P l → P (a :: b :: c :: l)) → ∀ l, P l.
Proof.
  intros H0 H1 H2 H3. fix IH 1.
  intros [|a [|b [|c l]]]; [apply H0 | apply H1 | apply H2 | apply H3, IH].
Qed.

Lemma land_63 n : N.land n 63 = n mod 64.
Proof. change 63 with (N.ones 6). by rewrite N.land_ones. Qed.

Lemma land_255 n : N.land n 255 = n mod 256.
Proof. change 255 with (N.ones 8). by rewrite N.land_ones. Qed.

Ltac shifts :=
  rewrite ?land_63, ?land_255, ?N.shiftr_div_pow2, ?N.shiftl_mul_pow2, ?N.shiftr_0_r;
  change (2 ^ 18) with 262144; change (2 ^ 16) with 65536; change (2 ^ 12) with 4096;
  change (2 ^ 8) with 256; change (2 ^ 6) with 64.

Ltac euclid := zify; Z.to_euclidean_division_equations; lia.

Lemma sextet_table k : k < 64 → sextet (table_at k) = Some k.
Proof.
  intros Hk.
  assert (H : forallb (λ n, bool_decide (sextet (table_at (N.of_nat n)) = Some (N.of_nat n)))
                (seq 0 64) = true) by (vm_compute; reflexivity).
  rewrite forallb_forall in H. specialize (H (N.to_nat k)).
  rewrite N2Nat.id in H. apply bool_decide_eq_true in H; [done|].
  apply in_seq. lia.
Qed.

Lemma table_not_pad k : k < 64 → table_at k ≠ "="%char.
Proof.
  intros Hk Heq. pose proof (sextet_table k Hk) as H. rewrite Heq in H. discriminate H.
Qed.

Lemma sextet_lt n : N.land n 63 < 64.
Proof. rewrite land_63. apply N.mod_lt. done. Qed.

Lemma group_bytes_symbols a b c :
  a < 256 → b < 256 → c < 256 →
  let t := N.shiftl a 16 + N.shiftl b 8 + c in
  group_bytes (N.land (N.shiftr t 18) 63) (N.land (N.shiftr t 12) 63)
              (N.land (N.shiftr t 6) 63) (N.land t 63)
  = [ascii_of_N a; ascii_of_N b; ascii_of_N c].
Proof.
  intros Ha Hb Hc. cbn zeta. unfold group_bytes. cbn zeta.
  repeat f_equal; shifts; euclid.
Qed.

Lemma group_bytes_pad1 a b :
  a < 256 → b < 256 →
  let t := N.shiftl a 16 + N.shiftl b 8 + 0 in
  take 2 (group_bytes (N.land (N.shiftr t 18) 63) (N.land (N.shiftr t 12) 63)
                      (N.land (N.shiftr t 6) 63) 0)
  = [ascii_of_N a; ascii_of_N b].
Proof.
  intros Ha Hb. cbn zeta. unfold group_bytes. cbn zeta. cbn [take].
  repeat f_equal; shifts; euclid.
Qed.

Lemma group_bytes_pad2 a :
  a < 256 →
  let t := N.shiftl a 16 + N.shiftl 0 8 + 0 in
  take 1 (group_bytes (N.land (N.shiftr t 18) 63) (N.land (N.shiftr t 12) 63) 0 0)
  = [ascii_of_N a].
Proof.
  intros Ha. cbn zeta. unfold group_bytes. cbn zeta. cbn [take].
  repeat f_equal; shifts; euclid.
Qed.

Lemma byte_lt (x : ascii) : N_of_ascii x < 256.
Proof. apply N_ascii_bounded. Qed.

Lemma encode_groups_nil data : encode_groups data = [] → data = [].
Proof. by destruct data as [|a [|b [|c l]]]. Qed.

Local Opaque N.shiftl N.shiftr N.land table_at sextet group_bytes.

Lemma base64Decode_group c1 c2 c3 c4 rest s1 s2 s3 s4 :
  sextet c1 = Some s1 → sextet c2 = Some s2 → sextet c3 = Some s3 → sextet c4 = Some s4 →
  c4 ≠ "="%char →
  base64Decode (c1 :: c2 :: c3 :: c4 :: rest)
  = more ← base64Decode rest; Some (group_bytes s1 s2 s3 s4 ++ more).
Proof.
  intros H1 H2 H3 H4 Hpad. cbn [base64Decode]. rewrite H1, H2, H3, H4. cbn.
  destruct rest as [|r rest]; [|done].
  rewrite bool_decide_eq_false_2 by done. cbn. by rewrite app_nil_r.
Qed.

Lemma base64_roundtrip_groups data : base64Decode (encode_groups data) = Some data.
Proof.
  induction data as [|a|a b|a b c l IH] using list_ind3.
  - done.
  - pose proof (byte_lt a) as Ha.
    cbn [encode_groups symbols take app base64Decode].
    rewrite !bool_decide_eq_true_2 by done.
    rewrite !sextet_table by apply sextet_lt. cbn.
    rewrite (group_bytes_pad2 (N_of_ascii a)) by done.
    by rewrite ascii_N_embedding.
  - pose proof (byte_lt a) as Ha. pose proof (byte_lt b) as Hb.
    cbn [encode_groups symbols take app base64Decode].
    rewrite bool_decide_eq_true_2 by done.
    rewrite bool_decide_eq_false_2 by (apply table_not_pad, sextet_lt).
    rewrite !sextet_table by apply sextet_lt. cbn.
    rewrite (group_bytes_pad1 (N_of_ascii a) (N_of_ascii b)) by done.
    by rewrite !ascii_N_embedding.
  - pose proof (byte_lt a) as Ha. pose proof (byte_lt b) as Hb. pose proof (byte_lt c) as Hc.
    cbn [encode_groups symbols app].
    erewrite base64Decode_group;
      [ | apply sextet_table, sextet_lt .. | apply table_not_pad, sextet_lt ].
    rewrite IH. cbn [mbind option_bind].
    rewrite (group_bytes_symbols (N_of_ascii a) (N_of_ascii b) (N_of_ascii c)) by done.
    cbn. by rewrite !ascii_N_embedding.
Qed.

Local Transparent group_bytes.
Local Opaque N.shiftl N.shiftr N.land table_at.

Lemma length_symbols a b c : length (symbols a b c) = 4%nat.
Proof. reflexivity. Qed.

Lemma length_raw_groups data :
  length (raw_groups data) = (4 * ((length data + 2) / 3))%nat.
Proof.
  induction data as [|a|a b|a b c l IH] using list_ind3; try done.
  cbn [raw_groups]. rewrite length_app, IH, length_symbols. cbn [length].
  replace (S (S (S (length l))) + 2)%nat with (length l + 2 + 1 * 3)%nat by lia.
  rewrite Nat.div_add by lia. lia.
Qed.

Lemma byte_at_app pre rem k x :
  rem !! k = Some x → byte_at (pre ++ rem) (length pre + k) = N_of_ascii x.
Proof.
  intros H. unfold byte_at. rewrite lookup_app_r by lia.
  replace (length pre + k - length pre)%nat with k by lia. by rewrite H.
Qed.

Lemma byte_at_0 pre a rest : byte_at (pre ++ a :: rest) (length pre) = N_of_ascii a.
Proof.
  rewrite <- (Nat.add_0_r (length pre)). by apply byte_at_app.
Qed.

Lemma byte_at_1 pre a b rest :
  byte_at (pre ++ a :: b :: rest) (S (length pre)) = N_of_ascii b.
Proof.
  replace (S (length pre)) with (length pre + 1)%nat by lia. by apply byte_at_app.
Qed.

Lemma byte_at_2 pre a b c rest :
  byte_at (pre ++ a :: b :: c :: rest) (S (S (length pre))) = N_of_ascii c.
Proof.
  replace (S (S (length pre))) with (length pre + 2)%nat by lia. by apply byte_at_app.
Qed.

Lemma write4 (done zs : bytes) z0 z1 z2 z3 x0 x1 x2 x3 :
  <[S (S (S (length done))) := x3]>
    (<[S (S (length done)) := x2]>
       (<[S (length done) := x1]>
          (<[length done := x0]> (done ++ z0 :: z1 :: z2 :: z3 :: zs))))
  = (done ++ [x0; x1; x2; x3]) ++ zs.
Proof.
  induction done as [|d done IH]; [done|]. cbn. f_equal. apply IH.
Qed.

Lemma loop_raw fuel : ∀ pre rem done zs,
  (length rem ≤ fuel)%nat → length zs = length (raw_groups rem) →
  _base64Encode_loop fuel (pre ++ rem) (length pre) (length done) (done ++ zs)
  = done ++ raw_groups rem.
Proof.
  induction fuel as [|fuel IH]; intros pre rem done zs Hfuel Hzs.
  { destruct rem; [|cbn in Hfuel; lia]. by destruct zs. }
  cbn [_base64Encode_loop]. destruct rem as [|a [|b [|c rest]]].
  - rewrite bool_decide_eq_false_2 by (rewrite app_nil_r; lia). by destruct zs.
  - destruct zs as [|z0 [|z1 [|z2 [|z3 zs]]]]; try done.
    rewrite !length_app. cbn [length].
    rewrite (bool_decide_eq_true_2 (length pre < length pre + 1)%nat) by lia.
    rewrite !(bool_decide_eq_false_2 (S (length pre) < length pre + 1)%nat) by lia.
    cbn zeta.
    rewrite byte_at_0.
    rewrite write4.
    replace (S (length pre)) with (length (pre ++ [a])) by (rewrite length_app; cbn; lia).
    replace (S (S (S (S (length done)))))
      with (length (done ++ symbols (N_of_ascii a) 0 0))
      by (rewrite length_app; cbn; lia).
    rewrite <- (app_nil_r (pre ++ [a])) at 1.
    rewrite IH; [by rewrite app_nil_r | cbn; lia | by destruct zs].
  - destruct zs as [|z0 [|z1 [|z2 [|z3 zs]]]]; try done.
    rewrite !length_app. cbn [length].
    rewrite (bool_decide_eq_true_2 (length pre < length pre + 2)%nat) by lia.
    rewrite !(bool_decide_eq_true_2 (S (length pre) < length pre + 2)%nat) by lia.
    rewrite !(bool_decide_eq_false_2 (S (S (length pre)) < length pre + 2)%nat) by lia.
    cbn zeta.
    rewrite byte_at_0, byte_at_1.
    rewrite write4.
    replace (S (S (length pre))) with (length (pre ++ [a; b])) by (rewrite length_app; cbn; lia).
    replace (S (S (S (S (length done)))))
      with (length (done ++ symbols (N_of_ascii a) (N_of_ascii b) 0))
      by (rewrite length_app; cbn; lia).
    rewrite <- (app_nil_r (pre ++ [a; b])) at 1.
    rewrite IH; [by rewrite app_nil_r | cbn; lia | by destruct zs].
  - cbn [raw_groups] in Hzs. rewrite length_app in Hzs. cbn [length symbols] in Hzs.
    destruct zs as [|z0 [|z1 [|z2 [|z3 zs]]]]; try (cbn in Hzs; lia).
    rewrite !length_app. cbn [length].
    rewrite (bool_decide_eq_true_2 (length pre < length pre + S (S (S (length rest))))%nat) by lia.
    rewrite !(bool_decide_eq_true_2 (S (length pre) < length pre + S (S (S (length rest))))%nat)
      by lia.
    rewrite !(bool_decide_eq_true_2
                (S (S (length pre)) < length pre + S (S (S (length rest))))%nat) by lia.
    cbn zeta.
    rewrite byte_at_0, byte_at_1, byte_at_2.
    rewrite write4.
    replace (S (S (S (length pre)))) with (length (pre ++ [a; b; c]))
      by (rewrite length_app; cbn; lia).
    replace (S (S (S (S (length done)))))
      with (length (done ++ symbols (N_of_ascii a) (N_of_ascii b) (N_of_ascii c)))
      by (rewrite length_app; cbn; lia).
    replace (pre ++ a :: b :: c :: rest) with ((pre ++ [a; b; c]) ++ rest)
      by (by rewrite <- app_assoc).
    rewrite IH; [by rewrite <- app_assoc | cbn in Hfuel; lia | cbn in Hzs; lia].
Qed.

Lemma mod3_step n : (S (S (S n)) mod 3 = n mod 3)%nat.
Proof.
  replace (S (S (S n))) with (n + 1 * 3)%nat by lia. by rewrite Nat.Div0.mod_add.
Qed.

Lemma div3_step n : ((S (S (S n)) + 2) / 3 = S ((n + 2) / 3))%nat.
Proof.
  replace (S (S (S n)) + 2)%nat with (n + 2 + 1 * 3)%nat by lia.
  rewrite Nat.div_add by lia. lia.
Qed.

Lemma div3_pos n : (0 < n mod 3 → 1 ≤ (n + 2) / 3)%nat.
Proof.
  intros H. destruct n as [|n]; [cbn in H; lia|].
  replace (S n + 2)%nat with (n + 1 * 3)%nat by lia.
  rewrite Nat.div_add by lia. lia.
Qed.

(** Overwriting the tail of the loop's output with [=] gives the padded
    encoding. *)
Lemma pad_raw_groups data :
  let len := length data in
  let encodedLen := (4 * ((len + 2) / 3))%nat in
  (if bool_decide (0 < len mod 3)%nat then
     if bool_decide (len mod 3 = 1)%nat then
       <[(encodedLen - 2)%nat := "="%char]> (<[(encodedLen - 1)%nat := "="%char]> (raw_groups data))
     else <[(encodedLen - 1)%nat := "="%char]> (raw_groups data)
   else raw_groups data)
  = encode_groups data.
Proof.
  cbn zeta. induction data as [|a|a b|a b c l IH] using list_ind3; try done.
  cbn [length raw_groups encode_groups]. rewrite mod3_step, div3_step.
  destruct (bool_decide_reflect (0 < length l mod 3)%nat) as [Hpos|Hzero];
    [|by rewrite <- IH].
  pose proof (div3_pos _ Hpos) as Hlen.
  rewrite <- IH.
  rewrite !(insert_app_r_alt (symbols _ _ _)) by (rewrite ?length_insert, length_symbols; lia).
  rewrite length_symbols.
  replace (4 * S ((length l + 2) / 3) - 1 - 4)%nat with (4 * ((length l + 2) / 3) - 1)%nat by lia.
  replace (4 * S ((length l + 2) / 3) - 2 - 4)%nat with (4 * ((length l + 2) / 3) - 2)%nat by lia.
  by case_bool_decide.
Qed.

(** The contract's encoder computes the padded grouping of the
    specification. *)
Lemma _base64Encode_groups data : _base64Encode data = encode_groups data.
Proof.
  unfold _base64Encode. cbn zeta.
  destruct (bool_decide_reflect (length data = 0%nat)) as [Hnil|Hne].
  { by destruct data. }
  pose proof (loop_raw (length data) [] data []
                (replicate (4 * ((length data + 2) / 3)) zero)) as Hloop.
  cbn [app length] in Hloop. rewrite Hloop; [|lia|by rewrite length_replicate, length_raw_groups].
  pose proof (pad_raw_groups data) as Hpad. cbn zeta in Hpad. rewrite <- Hpad.
  repeat case_bool_decide; done.
Qed.

Lemma base64_roundtrip data : base64Decode (_base64Encode data) = Some data.
Proof. rewrite _base64Encode_groups. apply base64_roundtrip_groups. Qed.

(** Hence no two inputs share an encoding. *)
Lemma _base64Encode_inj data1 data2 :
  _base64Encode data1 = _base64Encode data2 → data1 = data2.
Proof.
  intros H. apply (f_equal base64Decode) in H. rewrite !base64_roundtrip in H. congruence.
Qed.

(** *** Decimal rendering *)

Lemma _toString_count_acc fuel : ∀ v d,
  _toString_count fuel v d = (d + _toString_count fuel v 0)%nat.
Proof.
  induction fuel as [|fuel IH]; intros v d; cbn; [lia|].
  case_bool_decide; [|lia]. rewrite (IH _ (S d)), (IH _ 1%nat). lia.
Qed.

Lemma digit_char v : is_digit (ascii_of_N (48 + v mod 10)) = true.
Proof.
  unfold is_digit. apply bool_decide_eq_true.
  rewrite N_ascii_embedding by euclid. euclid.
Qed.

Lemma digit_char_value v : N_of_ascii (ascii_of_N (48 + v mod 10)) - 48 = v mod 10.
Proof.
  rewrite N_ascii_embedding by euclid. euclid.
Qed.

Lemma _toString_fill_digits fuel : ∀ v k buffer,
  k = _toString_count fuel v 0 → (k ≤ length buffer)%nat →
  (∀ i c, (k ≤ i)%nat → buffer !! i = Some c → is_digit c = true) →
  Forall (λ c, is_digit c = true) (_toString_fill fuel v k buffer).
Proof.
  induction fuel as [|fuel IH]; intros v k buffer Hk Hlen Hbuf.
  { cbn in *. apply Forall_lookup. intros i c Hi. apply (Hbuf i); [lia|done]. }
  cbn [_toString_fill _toString_count] in *.
  destruct (bool_decide_reflect (v ≠ 0)) as [Hv|Hv].
  - rewrite _toString_count_acc in Hk. cbn zeta. apply IH.
    + lia.
    + rewrite length_insert. lia.
    + intros i c Hi Hc. destruct (decide (i = k - 1)%nat) as [->|Hne].
      * rewrite list_lookup_insert_eq in Hc by lia. injection Hc as <-. apply digit_char.
      * rewrite list_lookup_insert_ne in Hc by done. apply (Hbuf i); [lia|done].
  - apply Forall_lookup. intros i c Hi. apply (Hbuf i); [lia|done].
Qed.

Lemma _toString_digits v : Forall (λ c, is_digit c = true) (_toString v).
Proof.
  unfold _toString. case_bool_decide; [by repeat constructor|]. cbn zeta.
  apply _toString_fill_digits; [done | by rewrite length_replicate |].
  intros i c Hi Hc. apply lookup_lt_Some in Hc. rewrite length_replicate in Hc. lia.
Qed.

Lemma decimal_value_snoc s c :
  decimal_value (s ++ [c]) = 10 * decimal_value s + (N_of_ascii c - 48).
Proof. unfold decimal_value. by rewrite foldl_app. Qed.

Lemma length_S_snoc {A} (l : list A) n :
  length l = S n → ∃ l0 x, l = l0 ++ [x] ∧ length l0 = n.
Proof.
  destruct l as [|y l] using rev_ind; [done|].
  rewrite length_app. cbn. intros H. exists l, y. split; [done|lia].
Qed.

Lemma _toString_fill_value fuel : ∀ v pre suf,
  v < 2 ^ N.of_nat fuel → length pre = _toString_count fuel v 0 →
  ∃ pre', _toString_fill fuel v (length pre) (pre ++ suf) = pre' ++ suf
          ∧ decimal_value pre' = v.
Proof.
  induction fuel as [|fuel IH]; intros v pre suf Hv Hpre.
  { cbn in *. destruct pre; [|done]. exists []. split; [done|]. cbn. lia. }
  cbn [_toString_fill _toString_count] in *.
  destruct (bool_decide_reflect (v ≠ 0)) as [Hne|Hz].
  - rewrite _toString_count_acc in Hpre.
    destruct (length_S_snoc pre _ Hpre) as (pre0 & x & -> & Hpre0).
    cbn zeta. rewrite length_app. cbn [length].
    replace (length pre0 + 1 - 1)%nat with (length pre0) by lia.
    rewrite <- app_assoc. cbn [app].
    rewrite insert_app_r_alt by lia. rewrite Nat.sub_diag. cbn [insert list_insert].
    destruct (IH (v / 10) pre0 (ascii_of_N (48 + v mod 10) :: suf)) as (pre' & Hfill & Hval).
    + replace (N.of_nat (S fuel)) with (N.succ (N.of_nat fuel)) in Hv by lia.
      rewrite N.pow_succ_r' in Hv. 
      assert (v / 10 ≤ v / 2) by euclid.
      assert (v / 2 < 2 ^ N.of_nat fuel) by (apply N.Div0.div_lt_upper_bound; lia).
      lia.
    + done.
    + exists (pre' ++ [ascii_of_N (48 + v mod 10)]). rewrite Hfill, <- app_assoc.
      split; [done|]. rewrite decimal_value_snoc, Hval, digit_char_value.
      euclid.
  - apply dec_stable in Hz. subst v. destruct pre; [|done]. exists []. done.
Qed.

(** The loops of [_toString] run to completion: the digits written denote
    [value]. *)
Lemma _toString_value v : decimal_value (_toString v) = v.
Proof.
  unfold _toString. case_bool_decide as Hv; [by subst|]. cbn zeta.
  set (fuel := S (N.to_nat (N.log2 v))).
  destruct (_toString_fill_value fuel v (replicate (_toString_count fuel v 0) zero) [])
    as (pre' & Hfill & Hval).
  - unfold fuel. replace (N.of_nat (S (N.to_nat (N.log2 v)))) with (N.succ (N.log2 v)) by lia.
    apply N.log2_spec. lia.
  - by rewrite length_replicate.
  - rewrite length_replicate, !app_nil_r in Hfill. by rewrite Hfill.
Qed.

(** *** The document and its image *)

Lemma strip_prefix_app p r : strip_prefix p (p ++ r) = Some r.
Proof.
  induction p as [|c p IH]; [by destruct r|]. cbn. by rewrite bool_decide_eq_true_2.
Qed.

Lemma span_app (f : ascii → bool) l1 c l2 :
  Forall (λ x, f x = true) l1 → f c = false → span f (l1 ++ c :: l2) = (l1, c :: l2).
Proof.
  intros H1 Hc. induction H1 as [|x l1 Hx _ IH]; cbn.
  - by rewrite Hc.
  - by rewrite Hx, IH.
Qed.

Local Transparent table_at sextet.

Lemma table_not_dquote k : k < 64 → table_at k ≠ dquote.
Proof.
  intros Hk Heq. pose proof (sextet_table k Hk) as H. rewrite Heq in H. discriminate H.
Qed.

Local Opaque table_at sextet.

Lemma symbols_no_dquote a b c : Forall (λ x, x ≠ dquote) (symbols a b c).
Proof. repeat constructor; apply table_not_dquote, sextet_lt. Qed.

Lemma encode_groups_no_dquote data : Forall (λ x, x ≠ dquote) (encode_groups data).
Proof.
  induction data as [|a|a b|a b c l IH] using list_ind3; cbn [encode_groups].
  - constructor.
  - apply Forall_app. split; [apply Forall_take, symbols_no_dquote | by repeat constructor].
  - apply Forall_app. split; [apply Forall_take, symbols_no_dquote | by repeat constructor].
  - apply Forall_app. split; [apply symbols_no_dquote | done].
Qed.

Lemma tokenURI_shape tokenId :
  tokenURI tokenId
  = URI_HEAD ++ _base64Encode
      (JSON_HEAD ++ _toString tokenId ++ JSON_MID
       ++ _base64Encode (_generateSVG tokenId) ++ JSON_TAIL).
Proof. reflexivity. Qed.

Lemma image_payload_tokenURI tokenId :
  image_payload (tokenURI tokenId) = Some (_base64Encode (_generateSVG tokenId)).
Proof.
  rewrite tokenURI_shape. unfold image_payload.
  rewrite strip_prefix_app. cbn [mbind option_bind].
  rewrite base64_roundtrip. cbn [mbind option_bind].
  rewrite strip_prefix_app. cbn [mbind option_bind].
  assert (Hmid : ∃ t, JSON_MID = dquote :: t) by (eexists; vm_compute; reflexivity).
  destruct Hmid as [mid Hmid]. rewrite Hmid at 1. rewrite <- app_comm_cons.
  rewrite (span_app is_digit); [|apply _toString_digits|by vm_compute].
  rewrite app_comm_cons, <- Hmid.
  rewrite strip_prefix_app. cbn [mbind option_bind].
  assert (Htail : ∃ t, JSON_TAIL = dquote :: t) by (eexists; vm_compute; reflexivity).
  destruct Htail as [tl Htail]. rewrite Htail at 1.
  rewrite (span_app (λ c, negb (bool_decide (c = dquote)))).
  - rewrite <- Htail. by rewrite bool_decide_eq_true_2.
  - rewrite _base64Encode_groups.
    eapply Forall_impl; [apply encode_groups_no_dquote|].
    intros x Hx. cbn. by rewrite bool_decide_eq_false_2.
  - by vm_compute.
Qed.


(** C8: the byte-group encoding is invertible.  Decoding what
    [_base64Encode] produces gives back the input, for every byte
    sequence; and for every tokenId, including zero, the encoded image
    read out of the document [tokenURI tokenId] decodes to exactly the
    markup [_generateSVG tokenId]. *)
Theorem C8_base64_invertible (data : bytes) (tokenId : N) :
  base64Decode (_base64Encode data) = Some data
  ∧ image_payload (tokenURI tokenId) = Some (_base64Encode (_generateSVG tokenId))
  ∧ image_payload (tokenURI tokenId) ≫= base64Decode = Some (_generateSVG tokenId)
  ∧ image_payload (tokenURI 0) ≫= base64Decode = Some (_generateSVG 0).
Proof.
  split; [apply base64_roundtrip|].
  split; [apply image_payload_tokenURI|].
  rewrite !image_payload_tokenURI. cbn [mbind option_bind].
  split; apply base64_roundtrip.
Qed.

Local Transparent N.shiftl N.shiftr N.land table_at sextet group_bytes.

(** ** The views, executed *)

Lemma getOpenGames_count_spec s fuel : ∀ i count,
  (N.to_nat (gameCounter s) = i + fuel)%nat →
  getOpenGames_count fuel s (N.of_nat i) count
  = (count + length (filter (λ id, state (game_at s id) = WaitingForPlayer)
                       (N.of_nat <$> seq i fuel)))%nat.
Proof.
  induction fuel as [|fuel IH]; intros i count Hi; cbn [getOpenGames_count seq fmap list_fmap].
  { rewrite filter_nil. cbn. lia. }
  rewrite bool_decide_eq_true_2 by lia. cbn zeta. rewrite filter_cons.
  replace (N.of_nat i + 1) with (N.of_nat (S i)) by lia.
  rewrite IH by lia. case_bool_decide; case_decide; try done; cbn [length]; lia.
Qed.

Lemma getOpenGames_collect_spec s fuel : ∀ i done zs,
  (N.to_nat (gameCounter s) = i + fuel)%nat →
  length zs = length (filter (λ id, state (game_at s id) = WaitingForPlayer)
                        (N.of_nat <$> seq i fuel)) →
  getOpenGames_collect fuel s (N.of_nat i) (length done) (done ++ zs)
  = Some (done ++ filter (λ id, state (game_at s id) = WaitingForPlayer)
                    (N.of_nat <$> seq i fuel)).
Proof.
  induction fuel as [|fuel IH]; intros i done zs Hi Hzs;
    cbn [getOpenGames_collect seq fmap list_fmap] in *.
  { rewrite filter_nil in *. by destruct zs. }
  rewrite bool_decide_eq_true_2 by lia. rewrite filter_cons in *.
  replace (N.of_nat i + 1) with (N.of_nat (S i)) by lia.
  case_bool_decide; case_decide; try done.
  - destruct zs as [|z zs]; [done|]. cbn [length] in Hzs.
    rewrite bool_decide_eq_true_2 by (rewrite length_app; cbn; lia).
    rewrite insert_app_r_alt by lia. rewrite Nat.sub_diag. cbn [insert list_insert].
    replace (S (length done)) with (length (done ++ [N.of_nat i]))
      by (rewrite length_app; cbn; lia).
    replace (done ++ N.of_nat i :: zs) with ((done ++ [N.of_nat i]) ++ zs)
      by (by rewrite <- app_assoc).
    rewrite IH by lia. by rewrite <- app_assoc.
  - by rewrite IH by lia.
Qed.

Lemma getOpenGames_run s : getOpenGames s = (Ok (open_games s), s).
Proof.
  unfold getOpenGames. rewrite run_read. cbn zeta.
  pose proof (getOpenGames_count_spec s (N.to_nat (gameCounter s)) 0 0 eq_refl) as Hc.
  change (N.of_nat 0) with 0 in Hc. rewrite Hc. cbn [Nat.add].
  pose proof (getOpenGames_collect_spec s (N.to_nat (gameCounter s)) 0 []) as Hl.
  change (N.of_nat 0) with 0 in Hl. cbn [app length] in Hl.
  rewrite Hl; [done|done|]. by rewrite length_replicate.
Qed.

(** ** createGame and joinGame, executed *)

Lemma createGame_run env s :
  createGame env s =
    if bool_decide (gameCounter s < MAX_UINT256) then
      (Ok (gameCounter s),
       mkContract (gameCounter s + 1) (_tokenIdCounter s)
         (<[gameCounter s :=
              mkGame (sender env) 0
                (foldl (λ b i, <[i := Empty]> b) (board (game_at s (gameCounter s))) (seq 0 9))
                (sender env) 0 WaitingForPlayer (timestamp env) (timestamp env)]> (games s))
         (<[sender env := ids_at (playerGames s) (sender env) ++ [gameCounter s]]> (playerGames s))
         (playerWins s) (playerGamesPlayed s) (_owners s)
         (events s ++ [GameCreated (gameCounter s) (sender env)]))
    else (Revert Panic, s).
Proof. unfold createGame. tx_exec. done. Qed.

Lemma joinGame_accept env id s :
  let g := game_at s id in
  let played := <[player1 g := uint_at (playerGamesPlayed s) (player1 g) + 1]> (playerGamesPlayed s) in
  player1 g ≠ 0 → state g = WaitingForPlayer → player1 g ≠ sender env →
  totalGames s (player1 g) < MAX_UINT256 → totalGames s (sender env) < MAX_UINT256 →
  joinGame env id s =
    (Ok (),
     mkContract (gameCounter s) (_tokenIdCounter s)
       (<[id := mkGame (player1 g) (sender env) (board g) (currentTurn g) (winner g) InProgress
                  (createdAt g) (timestamp env)]> (games s))
       (<[sender env := ids_at (playerGames s) (sender env) ++ [id]]> (playerGames s))
       (playerWins s)
       (<[sender env := uint_at played (sender env) + 1]> played)
       (_owners s)
       (events s ++ [GameJoined id (sender env)])).
Proof.
  cbn zeta. unfold totalGames. intros Hp1 Hst Hself Ht1 Ht2.
  unfold joinGame. tx_exec.
  rewrite bool_decide_eq_false_2 by done.
  rewrite bool_decide_eq_false_2 by (by intros ?).
  rewrite bool_decide_eq_false_2 by done.
  rewrite bool_decide_eq_true_2 by done.
  rewrite bool_decide_eq_true_2; [done|].
  by rewrite uint_at_insert, decide_False.
Qed.

Lemma joinGame_overflow env id s :
  let g := game_at s id in
  player1 g ≠ 0 → state g = WaitingForPlayer → player1 g ≠ sender env →
  ¬ (totalGames s (player1 g) < MAX_UINT256 ∧ totalGames s (sender env) < MAX_UINT256) →
  fst (joinGame env id s) = Revert Panic.
Proof.
  cbn zeta. unfold totalGames. intros Hp1 Hst Hself Hover.
  unfold joinGame. tx_exec.
  rewrite bool_decide_eq_false_2 by done.
  rewrite bool_decide_eq_false_2 by (by intros ?).
  rewrite bool_decide_eq_false_2 by done.
  case_bool_decide; [|done]. rewrite uint_at_insert, decide_False by done.
  case_bool_decide; [|done]. exfalso. by apply Hover.
Qed.

Lemma exec_create_ok env s id s' :
  createGame env s = (Ok id, s') → exec env CreateGame s = s'.
Proof. intros H. unfold exec, transact. by rewrite H. Qed.

Lemma exec_join_ok env id s s' :
  joinGame env id s = (Ok (), s') → exec env (JoinGame id) s = s'.
Proof. intros H. unfold exec, transact. by rewrite H. Qed.

Lemma exec_move_ok env id pos s s' :
  makeMove env id pos s = (Ok (), s') → exec env (MakeMove id pos) s = s'.
Proof. intros H. unfold exec, transact. by rewrite H. Qed.

Lemma exec_join_cases env id s :
  exec env (JoinGame id) s = s ∨ joinGame env id s = (Ok (), exec env (JoinGame id) s).
Proof.
  unfold exec, transact. destruct (joinGame env id s) as [[[]|e] s1]; auto.
Qed.

Lemma exec_move_cases env id pos s :
  exec env (MakeMove id pos) s = s
  ∨ makeMove env id pos s = (Ok (), exec env (MakeMove id pos) s).
Proof.
  unfold exec, transact. destruct (makeMove env id pos s) as [[[]|e] s1]; auto.
Qed.

Lemma exec_create_cases env s :
  exec env CreateGame s = s
  ∨ createGame env s = (Ok (gameCounter s), exec env CreateGame s).
Proof.
  unfold exec, transact. destruct (createGame env s) as [[id|e] s1] eqn:E; auto.
  right. cbn. by destruct (createGame_ok _ _ _ _ E) as (-> & _ & _).
Qed.

Lemma live_game_allocated s id :
  invariant s → player1 (game_at s id) ≠ 0 → id < gameCounter s.
Proof.
  intros Hinv Hp1. destruct (Hinv id) as (_ & Hzero & _).
  destruct (decide (id < gameCounter s)); [done|].
  exfalso. apply Hp1. by rewrite Hzero by lia.
Qed.

(** X1: [createGame] fails only when the id counter is exhausted.
    Otherwise it returns the counter as the new id and advances it; the
    new record has the caller as player1 and to move, no player2, no
    winner, nine empty cells and state WaitingForPlayer; no other game is
    touched, the id is appended to the caller's index, one GameCreated
    event is logged, and the id was not created before. *)
Theorem X1_createGame_effect (env : Env) (s : Contract) :
  reachable s → gameCounter s < MAX_UINT256 →
  ∃ s', transact (createGame env) s = (Ok (gameCounter s), s')
        ∧ gameCounter s' = gameCounter s + 1
        ∧ game_at s' (gameCounter s)
          = mkGame (sender env) 0 (replicate 9 Empty) (sender env) 0 WaitingForPlayer
              (timestamp env) (timestamp env)
        ∧ (∀ id, id ≠ gameCounter s → game_at s' id = game_at s id)
        ∧ fst (getPlayerGames (sender env) s')
          = Ok (ids_at (playerGames s) (sender env) ++ [gameCounter s])
        ∧ events s' = events s ++ [GameCreated (gameCounter s) (sender env)]
        ∧ never_created s (gameCounter s).
Proof.
  intros Hs Hmax. pose proof (reachable_invariant s Hs (gameCounter s)) as ((Hlen & _) & _ & _).
  eexists. split.
  { apply transact_ok. rewrite createGame_run, bool_decide_eq_true_2 by done. reflexivity. }
  split; [done|]. split; [by rewrite game_at_mk, foldl_clear|].
  split; [intros id Hid; by apply game_at_other|].
  split; [cbn; unfold ids_at; by rewrite lookup_insert_eq|].
  split; [done|]. apply never_created_counter; [done|lia].
Qed.

(** X1 on the storage with one joined game: the next id is 1. *)
Lemma X1_witness :
  ∃ s', transact (createGame P3) scenario_joined = (Ok 1, s')
        ∧ gameCounter s' = 2
        ∧ state (game_at s' 1) = WaitingForPlayer.
Proof.
  assert (Hmax : gameCounter scenario_joined < MAX_UINT256) by (vm_compute; reflexivity).
  destruct (X1_createGame_effect P3 scenario_joined reachable_scenario_joined Hmax)
    as (s' & Hrun & Hc & Hg & _).
  exists s'. split; [exact Hrun|]. split; [exact Hc|].
  change (gameCounter scenario_joined) with 1 in Hg. by rewrite Hg.
Defined.

(** X2: [joinGame] reverts with the first failing check, in the order
    GameNotFound (no player1), GameNotWaitingForPlayer, CannotJoinOwnGame,
    leaving the storage as it was.  A call that passes them makes the
    caller player2, starts the game, stamps lastMoveAt, appends the id to
    the caller's index and logs GameJoined; it keeps player1, the board,
    the turn and every other game (short of the overflow of a games-played
    counter, which reverts with Panic). *)
Theorem X2_joinGame_effect (env : Env) (gameId : N) (s : Contract) :
  let g := game_at s gameId in
  match join_violation s (sender env) gameId with
  | Some e => transact (joinGame env gameId) s = (Revert e, s)
  | None =>
      if bool_decide (totalGames s (player1 g) < MAX_UINT256
                      ∧ totalGames s (sender env) < MAX_UINT256) then
        ∃ s', transact (joinGame env gameId) s = (Ok (), s')
              ∧ game_at s' gameId
                = mkGame (player1 g) (sender env) (board g) (currentTurn g) (winner g)
                    InProgress (createdAt g) (timestamp env)
              ∧ (∀ id, id ≠ gameId → game_at s' id = game_at s id)
              ∧ gameCounter s' = gameCounter s
              ∧ fst (getPlayerGames (sender env) s')
                = Ok (ids_at (playerGames s) (sender env) ++ [gameId])
              ∧ events s' = events s ++ [GameJoined gameId (sender env)]
      else transact (joinGame env gameId) s = (Revert Panic, s)
  end.
Proof.
  cbn zeta. unfold join_violation. cbn zeta.
  pose proof (joinGame_reject env gameId s) as Hrun. cbn zeta in Hrun.
  destruct (bool_decide_reflect (player1 (game_at s gameId) = 0)) as [H1|H1].
  { apply transact_revert. by rewrite Hrun. }
  destruct (bool_decide_reflect (state (game_at s gameId) ≠ WaitingForPlayer)) as [H2|H2].
  { apply transact_revert. by rewrite Hrun. }
  destruct (bool_decide_reflect (player1 (game_at s gameId) = sender env)) as [H3|H3].
  { apply transact_revert. by rewrite Hrun. }
  apply dec_stable in H2. clear Hrun.
  case_bool_decide as Hmax.
  - destruct Hmax as [Hm1 Hm2].
    pose proof (joinGame_accept env gameId s H1 H2 H3 Hm1 Hm2) as Hok.
    eexists. split; [apply transact_ok, Hok|].
    split; [by rewrite game_at_mk|].
    split; [intros id Hid; by apply game_at_other|].
    split; [done|].
    split; [cbn; unfold ids_at; by rewrite lookup_insert_eq|done].
  - apply transact_revert. split; [done|]. by apply joinGame_overflow.
Qed.

(** X2 on game 0: [P2] joins the waiting game; a third player is then
    turned away. *)
Lemma X2_witness :
  (∃ s', transact (joinGame P2 0) (exec P1 CreateGame init) = (Ok (), s')
         ∧ player2 (game_at s' 0) = 2 ∧ state (game_at s' 0) = InProgress)
  ∧ transact (joinGame P3 0) scenario_joined = (Revert GameNotWaitingForPlayer, scenario_joined).
Proof.
  split.
  - pose proof (X2_joinGame_effect P2 0 (exec P1 CreateGame init)) as H.
    cbn zeta in H.
    assert (E : join_violation (exec P1 CreateGame init) (sender P2) 0 = None)
      by (vm_compute; reflexivity).
    rewrite E in H.
    rewrite bool_decide_eq_true_2 in H by (vm_compute; split; reflexivity).
    destruct H as (s' & Hrun & Hg & _).
    exists s'. split; [exact Hrun|]. by rewrite Hg.
  - pose proof (X2_joinGame_effect P3 0 scenario_joined) as H. cbn zeta in H.
    assert (E : join_violation scenario_joined (sender P3) 0 = Some GameNotWaitingForPlayer)
      by (vm_compute; reflexivity).
    rewrite E in H. exact H.
Defined.

(** ** The list of open games *)

Lemma StronglySorted_filter {A} (R : relation A) (P : A → Prop) `{!∀ x, Decision (P x)} l :
  StronglySorted R l → StronglySorted R (filter P l).
Proof.
  induction 1 as [|x l Hl IH Hx]; [constructor|].
  rewrite filter_cons. case_decide; [|done].
  constructor; [done|].
  apply Forall_forall. intros y Hy. apply list_elem_of_filter in Hy as [_ Hy].
  rewrite Forall_forall in Hx. by apply Hx.
Qed.

Lemma StronglySorted_ids i n : StronglySorted N.lt (N.of_nat <$> seq i n).
Proof.
  revert i. induction n as [|n IH]; intros i; cbn; constructor; [apply IH|].
  apply Forall_fmap, Forall_forall. intros j Hj. apply elem_of_seq in Hj. cbn. lia.
Qed.

Lemma elem_of_open_games s id :
  id ∈ open_games s ↔ id < gameCounter s ∧ state (game_at s id) = WaitingForPlayer.
Proof.
  unfold open_games. rewrite list_elem_of_filter, elem_of_allocated. tauto.
Qed.

(** X3: [getOpenGames] never fails and changes nothing: the array that
    the first loop sized is filled exactly by the second, which never
    writes past its end.  It returns, by strictly ascending id, exactly
    the allocated ids whose game is in state WaitingForPlayer. *)
Theorem X3_getOpenGames_lists_waiting (s : Contract) :
  ∃ l, getOpenGames s = (Ok l, s)
       ∧ (∀ id, id ∈ l ↔ id < gameCounter s ∧ state (game_at s id) = WaitingForPlayer)
       ∧ StronglySorted N.lt l.
Proof.
  exists (open_games s). split; [apply getOpenGames_run|].
  split; [apply elem_of_open_games|].
  apply StronglySorted_filter, StronglySorted_ids.
Qed.

Lemma open_games_create env s :
  gameCounter s < MAX_UINT256 →
  open_games (exec env CreateGame s) = open_games s ++ [gameCounter s].
Proof.
  intros Hmax.
  assert (Hrun := createGame_run env s). rewrite bool_decide_eq_true_2 in Hrun by done.
  rewrite (exec_create_ok _ _ _ _ Hrun). unfold open_games.
  rewrite (allocated_succ _ _ _ _ _ _ _ _ s) by done.
  rewrite filter_app, filter_cons, filter_nil, game_at_mk. cbn [state].
  rewrite decide_True by done. f_equal.
  apply filter_same. intros x Hx. apply elem_of_allocated in Hx.
  by rewrite (game_at_other _ _ _ _ _ _ _ _ _ _ _ s) by (done || lia).
Qed.

Lemma open_games_join env id s :
  invariant s → fst (transact (joinGame env id) s) = Ok () →
  id ∈ open_games s
  ∧ open_games (exec env (JoinGame id) s) = filter (λ x, x ≠ id) (open_games s).
Proof.
  intros Hinv Hok. rewrite transact_fst in Hok.
  destruct (joinGame env id s) as [r s'] eqn:Hrun. cbn in Hok. subst r.
  rewrite (exec_join_ok _ _ _ _ Hrun).
  destruct (joinGame_ok _ _ _ _ Hrun) as ((Hp1 & Hst & Hself) & ->). cbn zeta.
  split.
  { apply elem_of_open_games. split; [by apply live_game_allocated|done]. }
  unfold open_games. rewrite list_filter_filter.
  apply filter_same. intros x _. destruct (decide (x = id)) as [->|Hne].
  - rewrite game_at_mk. cbn. split; [done | intros [? _]; done].
  - rewrite (game_at_other _ _ _ _ _ _ _ _ _ _ _ s) by done. tauto.
Qed.

Lemma open_games_move env id pos s :
  open_games (exec env (MakeMove id pos) s) = open_games s.
Proof.
  destruct (exec_move_cases env id pos s) as [-> | Hrun]; [done|].
  destruct (makeMove_ok _ _ _ _ _ Hrun) as ((_ & Hst & _) & Hs').
  cbn zeta in Hs'. rewrite Hs'. clear Hs' Hrun. unfold open_games.
  destruct (_checkWinner _ _); [|destruct (_isBoardFull _)].
  all: apply filter_same; intros x _; destruct (decide (x = id)) as [->|Hne];
    [ rewrite game_at_mk, Hst; cbn; done
    | by rewrite (game_at_other _ _ _ _ _ _ _ _ _ _ _ s) by done ].
Qed.

(** X4: how the open list moves.  Creating a game appends its id; a
    successful join removes the joined id, which was on the list, and no
    other; moves never change the list. *)
Theorem X4_open_list_steps (env : Env) (s : Contract) (l : list N) :
  reachable s → getOpenGames s = (Ok l, s) →
  (gameCounter s < MAX_UINT256 →
     fst (getOpenGames (exec env CreateGame s)) = Ok (l ++ [gameCounter s]))
  ∧ (∀ gameId, fst (transact (joinGame env gameId) s) = Ok () →
       gameId ∈ l
       ∧ fst (getOpenGames (exec env (JoinGame gameId) s)) = Ok (filter (λ x, x ≠ gameId) l))
  ∧ (∀ gameId position, fst (getOpenGames (exec env (MakeMove gameId position) s)) = Ok l).
Proof.
  intros Hs Hl. rewrite getOpenGames_run in Hl. injection Hl as <-.
  split; [|split].
  - intros Hmax. by rewrite getOpenGames_run, open_games_create.
  - intros gameId Hok.
    destruct (open_games_join env gameId s (reachable_invariant s Hs) Hok) as [Hin Heq].
    split; [done|]. by rewrite getOpenGames_run, Heq.
  - intros gameId position. by rewrite getOpenGames_run, open_games_move.
Qed.

(** X4 on the first two calls of a history: the list is [0] after the
    creation and empty after the join. *)
Lemma X4_witness :
  fst (getOpenGames (exec P1 CreateGame init)) = Ok [0]
  ∧ fst (getOpenGames (exec P2 (JoinGame 0) (exec P1 CreateGame init))) = Ok [].
Proof.
  assert (H0 : getOpenGames init = (Ok [], init)) by (vm_compute; reflexivity).
  destruct (X4_open_list_steps P1 init [] reachable_init H0) as (Hc & _ & _).
  specialize (Hc ltac:(vm_compute; reflexivity)). cbn [app] in Hc.
  change (gameCounter init) with 0 in Hc.
  split; [exact Hc|].
  assert (Hs1 : reachable (exec P1 CreateGame init)) by (constructor; [constructor|discriminate]).
  assert (H1 : getOpenGames (exec P1 CreateGame init) = (Ok [0], exec P1 CreateGame init))
    by (vm_compute; reflexivity).
  destruct (X4_open_list_steps P2 (exec P1 CreateGame init) [0] Hs1 H1) as (_ & Hj & _).
  destruct (Hj 0 ltac:(vm_compute; reflexivity)) as [_ Hj']. exact Hj'.
Defined.

(** ** Marks on the board *)

Lemma count_mark_insert (b : list CellState) i c c' m :
  b !! i = Some c →
  (count_mark m (<[i := c']> b) + (if decide (c = m) then 1 else 0)
   = count_mark m b + (if decide (c' = m) then 1 else 0))%nat.
Proof.
  intros Hi. unfold count_mark.
  rewrite insert_take_drop by (by eapply lookup_lt_Some).
  rewrite <- (take_drop_middle b i c Hi) at 3.
  rewrite !filter_app, !filter_cons, !length_app.
  destruct (decide (c = m)), (decide (c' = m)); cbn [length]; lia.
Qed.

Lemma count_mark_total (b : list CellState) :
  (count_mark X b + count_mark O b + count_mark Empty b = length b)%nat.
Proof.
  unfold count_mark. induction b as [|c b IH]; [done|].
  rewrite !filter_cons. destruct c; repeat case_decide; try done; cbn; lia.
Qed.

Lemma count_mark_full (b : list CellState) :
  length b = 9%nat → _isBoardFull b = true → count_mark Empty b = 0%nat.
Proof.
  intros Hlen Hfull. apply _isBoardFull_isFull in Hfull; [|done].
  unfold count_mark, isFull in *.
  destruct (filter (λ c, c = Empty) b) as [|c l] eqn:E; [done|].
  assert (Hc : c ∈ filter (λ c, c = Empty) b) by (rewrite E; left).
  apply list_elem_of_filter in Hc as [-> Hin]. done.
Qed.

Lemma cell_empty_lookup (b : list CellState) (pos : N) :
  length b = 9%nat → pos < 9 → cell b (N.to_nat pos) = Empty → b !! N.to_nat pos = Some Empty.
Proof.
  intros Hlen Hpos Hc. unfold cell in Hc.
  destruct (lookup_lt_is_Some_2 b (N.to_nat pos)) as [c Hl]; [lia|].
  rewrite Hl in Hc |- *. cbn in Hc. by subst.
Qed.

(** The counts after a mark is placed on an empty cell. *)
Lemma count_after_move (b : list CellState) i m :
  b !! i = Some Empty → m ≠ Empty →
  count_mark m (<[i := m]> b) = S (count_mark m b)
  ∧ (∀ m', m' ≠ m → m' ≠ Empty → count_mark m' (<[i := m]> b) = count_mark m' b)
  ∧ S (count_mark Empty (<[i := m]> b)) = count_mark Empty b.
Proof.
  intros Hi Hm. split; [|split].
  - pose proof (count_mark_insert b i Empty m m Hi) as H.
    rewrite decide_False, decide_True in H by done. lia.
  - intros m' Hne He. pose proof (count_mark_insert b i Empty m m' Hi) as H.
    rewrite !decide_False in H by done. lia.
  - pose proof (count_mark_insert b i Empty m Empty Hi) as H.
    rewrite decide_True, decide_False in H by done. lia.
Qed.

(** ** Induction over the games of reachable storage *)

Lemma makeMove_game env id pos s s' :
  makeMove env id pos s = (Ok (), s') →
  game_at s' id = move_result env pos (game_at s id)
  ∧ (∀ id', id' ≠ id → game_at s' id' = game_at s id')
  ∧ gameCounter s' = gameCounter s
  ∧ playerGames s' = playerGames s
  ∧ playerGamesPlayed s' = playerGamesPlayed s.
Proof.
  intros Hrun. destruct (makeMove_ok _ _ _ _ _ Hrun) as (_ & ->). cbn zeta.
  unfold move_result. cbn zeta.
  repeat case_match; rewrite game_at_mk; (split; [done|]);
    (split; [intros id' Hne; by apply game_at_other|done]).
Qed.

Lemma joinGame_game env id s s' :
  joinGame env id s = (Ok (), s') →
  let g := game_at s id in
  game_at s' id = mkGame (player1 g) (sender env) (board g) (currentTurn g) (winner g)
                    InProgress (createdAt g) (timestamp env)
  ∧ (∀ id', id' ≠ id → game_at s' id' = game_at s id')
  ∧ gameCounter s' = gameCounter s.
Proof.
  intros Hrun. destruct (joinGame_ok _ _ _ _ Hrun) as (_ & ->). cbn zeta.
  rewrite game_at_mk. split; [done|].
  split; [intros id' Hne; by apply game_at_other|done].
Qed.

Lemma createGame_game env s id s' :
  invariant s → createGame env s = (Ok id, s') →
  game_at s' (gameCounter s)
  = mkGame (sender env) 0 (replicate 9 Empty) (sender env) 0 WaitingForPlayer
      (timestamp env) (timestamp env)
  ∧ (∀ id', id' ≠ gameCounter s → game_at s' id' = game_at s id')
  ∧ gameCounter s' = gameCounter s + 1.
Proof.
  intros Hinv Hrun. destruct (createGame_ok _ _ _ _ Hrun) as (_ & _ & ->). cbn zeta.
  destruct (Hinv (gameCounter s)) as ((Hlen & _) & _ & _).
  rewrite game_at_mk, foldl_clear by done. split; [done|].
  split; [intros id' Hne; by apply game_at_other|done].
Qed.

Section game_induction.
Context (P : Game → Prop).
Hypothesis P_zero : P zero_game.
Hypothesis P_create : ∀ env,
  sender env ≠ 0 →
  P (mkGame (sender env) 0 (replicate 9 Empty) (sender env) 0 WaitingForPlayer
       (timestamp env) (timestamp env)).
Hypothesis P_join : ∀ env g,
  sender env ≠ 0 → game_ok g → P g →
  player1 g ≠ 0 → state g = WaitingForPlayer → player1 g ≠ sender env →
  P (mkGame (player1 g) (sender env) (board g) (currentTurn g) (winner g) InProgress
       (createdAt g) (timestamp env)).
Hypothesis P_move : ∀ env pos g,
  sender env ≠ 0 → game_ok g → P g →
  state g = InProgress → (sender env = player1 g ∨ sender env = player2 g) →
  sender env = currentTurn g → pos < 9 → board g !! N.to_nat pos = Some Empty →
  P (move_result env pos g).

Lemma game_ind_exec env c s :
  invariant s → sender env ≠ 0 →
  (∀ id, P (game_at s id)) → ∀ id, P (game_at (exec env c s) id).
Proof using P_zero P_create P_join P_move.
  intros Hinv Hsender HP id'. destruct c as [|id|id pos].
  - destruct (exec_create_cases env s) as [-> | Hrun]; [done|].
    destruct (createGame_game _ _ _ _ Hinv Hrun) as (Hg & Hother & _).
    destruct (decide (id' = gameCounter s)) as [->|Hne].
    + rewrite Hg. by apply P_create.
    + by rewrite Hother.
  - destruct (exec_join_cases env id s) as [-> | Hrun]; [done|].
    destruct (joinGame_game _ _ _ _ Hrun) as (Hg & Hother & _).
    destruct (joinGame_ok _ _ _ _ Hrun) as ((Hp1 & Hst & Hself) & _).
    destruct (decide (id' = id)) as [->|Hne].
    + rewrite Hg. apply P_join; try done. apply Hinv.
    + by rewrite Hother.
  - destruct (exec_move_cases env id pos s) as [-> | Hrun]; [done|].
    destruct (makeMove_game _ _ _ _ _ Hrun) as (Hg & Hother & _).
    destruct (makeMove_ok _ _ _ _ _ Hrun) as ((Hp1 & Hst & Hwho & Hturn & Hlt & Hcell) & _).
    destruct (decide (id' = id)) as [->|Hne].
    + rewrite Hg. destruct (Hinv id) as (Hok & _).
      apply P_move; try done. apply cell_empty_lookup; [apply Hok|done..].
    + by rewrite Hother.
Qed.

Lemma reachable_game_ind s : reachable s → ∀ id, P (game_at s id).
Proof using P_zero P_create P_join P_move.
  induction 1 as [|env c s Hs IH Hsender].
  - intros id. unfold game_at. cbn. by rewrite lookup_empty.
  - apply game_ind_exec; [by apply reachable_invariant | done | done].
Qed.

End game_induction.

Lemma reachable_roles s id : reachable s → roles_ok (game_at s id).
Proof.
  intros Hs. revert id. apply reachable_game_ind; try done.
  intros env pos g Hsender (_ & Hok) _ Hst _ _ _ _.
  rewrite Hst in Hok. destruct Hok as (_ & _ & Hp2 & Hne & _).
  unfold move_result, roles_ok. cbn zeta. by repeat case_match.
Qed.

Lemma reachable_position s id : reachable s → position_ok (game_at s id).
Proof.
  intros Hs. revert id. apply reachable_game_ind; [by vm_compute| | | |done].
  - intros env _. by vm_compute.
  - intros env g Hsender (_ & Hok) Hpos Hp1 Hst Hself.
    unfold position_ok in *. rewrite Hst in *.
    cbn [state board currentTurn player1 player2] in *. cbn zeta in *.
    destruct Hpos as (Hp2 & Hx & Ho). destruct Hok as (_ & Ht & _).
    split; intros Hw; [lia | congruence].
  - intros env pos g Hsender (Hlen & Hg) Hpos Hst Hwho Hturn Hlt Hl.
    rewrite Hst in Hg. destruct Hg as (_ & _ & _ & Hne & _ & _ & _).
    unfold position_ok in Hpos. rewrite Hst in Hpos. cbn zeta in Hpos.
    destruct Hpos as [Hx Ho].
    unfold move_result. cbn zeta.
    set (mark := mark_of (sender env) g) in *.
    set (b' := <[N.to_nat pos := mark]> (board g)) in *.
    assert (Hlen' : length b' = 9%nat) by (unfold b'; by rewrite length_insert).
    pose proof (count_mark_total (board g)) as Htot.
    pose proof (count_mark_total b') as Htot'.
    assert (Hfull : _isBoardFull b' = true → count_mark Empty b' = 0%nat)
      by (by apply count_mark_full).
    assert (Hcounts :
      (sender env = player1 g ∧ count_mark X (board g) = count_mark O (board g)
       ∧ count_mark X b' = S (count_mark X (board g))
       ∧ count_mark O b' = count_mark O (board g))
      ∨ (sender env ≠ player1 g ∧ sender env = player2 g
         ∧ count_mark X (board g) = S (count_mark O (board g))
         ∧ count_mark X b' = count_mark X (board g)
         ∧ count_mark O b' = S (count_mark O (board g)))).
    { unfold b', mark, mark_of. case_bool_decide as Hs'.
      - left. destruct (count_after_move (board g) (N.to_nat pos) X Hl) as (H1 & H2 & _); [done|].
        split; [done|]. split; [apply Hx; congruence|]. split; [done|]. by apply H2.
      - right. destruct (count_after_move (board g) (N.to_nat pos) O Hl) as (H1 & H2 & _); [done|].
        assert (sender env = player2 g) by (by destruct Hwho).
        split; [done|]. split; [done|]. split; [apply Ho; congruence|].
        split; [by apply H2|done]. }
    destruct (_checkWinner b' mark); [|destruct (_isBoardFull b') eqn:Hf].
    all: unfold position_ok; cbn [state board winner player1 player2 currentTurn]; cbn zeta.
    + destruct Hcounts as [(Hs' & ? & ? & ?) | (Hs' & Hs2 & ? & ? & ?)];
        (split; intros Hw; [try lia; congruence | try lia; congruence]).
    + specialize (Hfull eq_refl).
      destruct Hcounts as [(Hs' & ? & ? & ?) | (Hs' & Hs2 & ? & ? & ?)]; lia.
    + destruct Hcounts as [(Hs' & ? & ? & ?) | (Hs' & Hs2 & ? & ? & ?)].
      * rewrite bool_decide_eq_true_2 by done. split; intros Hw; [congruence|lia].
      * rewrite bool_decide_eq_false_2 by done. split; intros Hw; [lia|congruence].
Qed.

(** X5: the marks on every board of reachable storage are those of
    alternating play opened by X.  The nine cells split into X, O and
    empty ones; X is level with O or one ahead.  In a game in progress
    player1 is to move exactly when the marks are level; a finished
    game's winner is player1 exactly when X is one ahead (the winner
    placed the last mark); a drawn board holds five X and four O. *)
Theorem X5_marks_alternate (s : Contract) (gameId : N) :
  reachable s →
  let g := game_at s gameId in
  let x := count_mark X (board g) in
  let o := count_mark O (board g) in
  (x + o + count_mark Empty (board g) = 9)%nat
  ∧ (x = o ∨ x = S o)
  ∧ (state g = WaitingForPlayer → x = 0%nat ∧ o = 0%nat)
  ∧ (state g = InProgress →
       (currentTurn g = player1 g ↔ x = o) ∧ (currentTurn g = player2 g ↔ x = S o))
  ∧ (state g = Finished →
       (winner g = player1 g ↔ x = S o) ∧ (winner g = player2 g ↔ x = o))
  ∧ (state g = Draw → x = 5%nat ∧ o = 4%nat).
Proof.
  intros Hs. cbn zeta.
  pose proof (reachable_position s gameId Hs) as Hpos.
  pose proof (reachable_roles s gameId Hs) as Hroles.
  destruct (reachable_invariant s Hs gameId) as ((Hlen & Hg) & _ & _).
  pose proof (count_mark_total (board (game_at s gameId))) as Htot.
  unfold position_ok, roles_ok in *. cbn zeta in *.
  split; [lia|].
  destruct (state (game_at s gameId)) eqn:Hst.
  - destruct Hpos as (_ & -> & ->). repeat split; try done. by left.
  - destruct Hpos as [Hx Ho]. destruct Hg as (_ & _ & _ & Hne & Hturn & _).
    split; [destruct Hturn; [left|right]; auto|].
    split; [done|]. split; [|done]. intros _.
    destruct Hturn as [Ht|Ht]; split; split; intros H; try auto;
      try (specialize (Hx Ht)); try (specialize (Ho Ht)); try lia; try congruence.
  - destruct Hpos as [Hx Ho]. destruct Hg as (_ & Hwho & _). destruct Hroles as [_ Hne].
    split; [destruct Hwho; [right|left]; auto|].
    split; [done|]. split; [done|]. split; [|done]. intros _.
    destruct Hwho as [Hw|Hw]; split; split; intros H; try auto;
      try (specialize (Hx Hw)); try (specialize (Ho Hw)); try lia; try congruence.
  - destruct Hpos as [-> ->]. repeat split; try done. by right.
Qed.

(** X5 on the won game (three X, two O, player1 wins) and on the drawn game. *)
Lemma X5_witness :
  (count_mark X (board (game_at scenario_won 0)) = 3%nat
   ∧ winner (game_at scenario_won 0) = player1 (game_at scenario_won 0))
  ∧ count_mark X (board (game_at scenario_draw 0)) = 5%nat.
Proof.
  split.
  - destruct (X5_marks_alternate scenario_won 0 reachable_scenario_won)
      as (_ & _ & _ & _ & Hfin & _).
    destruct (Hfin ltac:(vm_compute; reflexivity)) as [Hw _].
    split; [by vm_compute|]. apply Hw. by vm_compute.
  - destruct (X5_marks_alternate scenario_draw 0 reachable_scenario_draw)
      as (_ & _ & _ & _ & _ & Hdraw).
    by destruct (Hdraw ltac:(vm_compute; reflexivity)).
Defined.

(** ** Lines and winners *)

Lemma move_result_fields env pos g :
  board (move_result env pos g) = <[N.to_nat pos := mark_of (sender env) g]> (board g)
  ∧ player1 (move_result env pos g) = player1 g
  ∧ player2 (move_result env pos g) = player2 g
  ∧ createdAt (move_result env pos g) = createdAt g
  ∧ lastMoveAt (move_result env pos g) = timestamp env.
Proof. unfold move_result. cbn zeta. by repeat case_match. Qed.

Lemma reachable_sole_line s id : reachable s → sole_line (game_at s id).
Proof.
  intros Hs. revert id. apply reachable_game_ind; [| | | |done].
  - intros m Hm. by destruct m.
  - intros env _ m Hm. by destruct m.
  - intros env g _ (_ & Hok) _ _ Hst _ m Hm. rewrite Hst in Hok.
    destruct Hok as (_ & _ & ->). cbn [board]. by destruct m.
  - intros env pos g _ (Hlen & Hok) _ Hst Hwho Hturn Hlt Hl m Hm.
    rewrite Hst in Hok. destruct Hok as (_ & _ & _ & _ & _ & HX & HO).
    destruct (move_result_fields env pos g) as (-> & _).
    set (mark := mark_of (sender env) g) in *.
    destruct (decide (m = mark)) as [->|Hne].
    + intros Hwin. unfold move_result. cbn zeta. fold mark. rewrite Hwin.
      cbn [state board winner]. split; [done|].
      unfold mark, mark_of. cbn [player1]. done.
    + assert (Hno : _checkWinner (<[N.to_nat pos := mark]> (board g)) m = false).
      { apply _checkWinner_insert_other; [done|]. by destruct m. }
      congruence.
Qed.

(** X6: in reachable storage only a finished game shows a line of X or
    of O, and the line is of the winner's mark: the other participant's
    mark holds no line (no board is won by both), and boards of waiting,
    running and drawn games hold none. *)
Theorem X6_line_only_for_winner (s : Contract) (gameId : N) (mark : CellState) :
  reachable s → mark ≠ Empty →
  let g := game_at s gameId in
  hasWinner (board g) mark →
  state g = Finished
  ∧ mark = mark_of (winner g) g
  ∧ ¬ hasWinner (board g) (mark_of (other_participant (winner g) g) g).
Proof.
  intros Hs Hmark. cbn zeta. intros Hline.
  destruct (reachable_invariant s Hs gameId) as ((Hlen & Hg) & _ & _).
  pose proof (reachable_sole_line s gameId Hs) as Hsole.
  pose proof (reachable_roles s gameId Hs) as Hroles.
  apply _checkWinner_hasWinner in Hline; [|done].
  destruct (Hsole mark Hmark Hline) as [Hst ->].
  split; [done|]. split; [done|].
  intros Hother. apply _checkWinner_hasWinner in Hother; [|done].
  unfold roles_ok in Hroles. rewrite Hst in Hroles. destruct Hroles as [_ Hne].
  assert (Hm : mark_of (other_participant (winner (game_at s gameId)) (game_at s gameId))
                 (game_at s gameId) ≠ Empty).
  { unfold mark_of. by case_bool_decide. }
  destruct (Hsole _ Hm Hother) as [_ Heq]. revert Heq.
  unfold other_participant, mark_of.
  repeat case_bool_decide; try done; congruence.
Qed.

(** X6 on the won game: X holds the top row, so the game is finished and O holds no line. *)
Lemma X6_witness :
  state (game_at scenario_won 0) = Finished
  ∧ ¬ hasWinner (board (game_at scenario_won 0))
        (mark_of (other_participant (winner (game_at scenario_won 0)) (game_at scenario_won 0))
           (game_at scenario_won 0)).
Proof.
  assert (Hline : hasWinner (board (game_at scenario_won 0)) X).
  { apply _checkWinner_hasWinner; by vm_compute. }
  destruct (X6_line_only_for_winner scenario_won 0 X reachable_scenario_won
              ltac:(discriminate) Hline) as (Hst & _ & Hno).
  split; [exact Hst | exact Hno].
Defined.

(** ** Players *)

(** X7: who plays.  In reachable storage a game has a player1 exactly
    when its id is below the id counter; it has a player2 exactly when it
    is no longer waiting; and from the join on the two players are
    different identities, neither of them the zero address.  A waiting
    game has its creator to move. *)
Theorem X7_players_of_a_game (s : Contract) (gameId : N) :
  reachable s →
  let g := game_at s gameId in
  (player1 g ≠ 0 ↔ gameId < gameCounter s)
  ∧ (player2 g ≠ 0 ↔ state g ≠ WaitingForPlayer)
  ∧ (player2 g ≠ 0 → player1 g ≠ 0 ∧ player1 g ≠ player2 g)
  ∧ (state g = WaitingForPlayer → currentTurn g = player1 g).
Proof.
  intros Hs. cbn zeta.
  destruct (reachable_invariant s Hs gameId) as ((_ & Hg) & Hzero & Hlive).
  pose proof (reachable_roles s gameId Hs) as Hroles. unfold roles_ok in Hroles.
  assert (Hp1 : player1 (game_at s gameId) ≠ 0 ↔ gameId < gameCounter s).
  { split; [|done]. intros Hp. destruct (decide (gameId < gameCounter s)); [done|].
    destruct Hp. by rewrite Hzero by lia. }
  assert (Hst : state (game_at s gameId) ≠ WaitingForPlayer → gameId < gameCounter s).
  { intros Hne. destruct (decide (gameId < gameCounter s)); [done|].
    destruct Hne. by rewrite Hzero by lia. }
  split; [done|].
  destruct (state (game_at s gameId)) eqn:E.
  - split; [split; intros H; [by rewrite Hroles in H | done]|].
    split; [intros H; by rewrite Hroles in H|]. intros _. by destruct Hg as (_ & ? & _).
  - destruct Hroles as [Hp2 Hne]. repeat split; try done. by apply Hp1, Hst.
  - destruct Hroles as [Hp2 Hne]. repeat split; try done. by apply Hp1, Hst.
  - destruct Hroles as [Hp2 Hne]. repeat split; try done. by apply Hp1, Hst.
Qed.

(** X7 on the joined game and on the id after it. *)
Lemma X7_witness :
  (player1 (game_at scenario_joined 0) ≠ 0
   ∧ player1 (game_at scenario_joined 0) ≠ player2 (game_at scenario_joined 0))
  ∧ ¬ (player1 (game_at scenario_joined 1) ≠ 0).
Proof.
  split.
  - destruct (X7_players_of_a_game scenario_joined 0 reachable_scenario_joined)
      as (_ & _ & Hp2 & _).
    apply Hp2. by vm_compute.
  - destruct (X7_players_of_a_game scenario_joined 1 reachable_scenario_joined)
      as (Hp1 & _).
    intros H. apply Hp1 in H. by vm_compute in H.
Defined.

(** ** The board view *)

Lemma getBoard_run id s : getBoard id s = (Ok (board (game_at s id)), s).
Proof. reflexivity. Qed.

Lemma getGame_run id s :
  getGame id s
  = (Ok (player1 (game_at s id), player2 (game_at s id), board (game_at s id),
         currentTurn (game_at s id), winner (game_at s id), state (game_at s id)), s).
Proof. reflexivity. Qed.

(** X8: [getBoard] never fails and changes nothing, whatever the id.  In
    reachable storage it returns nine cells, the board that [getGame]
    returns; all of them are empty until the game has been joined and a
    move made (in particular for an id that no game has). *)
Theorem X8_getBoard_nine_cells (s : Contract) (gameId : N) :
  reachable s →
  ∃ b, getBoard gameId s = (Ok b, s)
       ∧ length b = 9%nat
       ∧ (∃ p1 p2 t w st, getGame gameId s = (Ok (p1, p2, b, t, w, st), s))
       ∧ (state (game_at s gameId) = WaitingForPlayer ∨ gameCounter s ≤ gameId →
            b = replicate 9 Empty)
       ∧ (b ≠ replicate 9 Empty → player2 (game_at s gameId) ≠ 0).
Proof.
  intros Hs. exists (board (game_at s gameId)).
  destruct (reachable_invariant s Hs gameId) as ((Hlen & Hg) & Hzero & _).
  pose proof (reachable_roles s gameId Hs) as Hroles.
  split; [apply getBoard_run|]. split; [done|].
  split; [rewrite getGame_run; by eauto 6|].
  assert (Hwait : state (game_at s gameId) = WaitingForPlayer →
                  board (game_at s gameId) = replicate 9 Empty).
  { intros Hst. rewrite Hst in Hg. by destruct Hg as (_ & _ & ->). }
  split.
  - intros [Hst | Hid]; [by apply Hwait | by rewrite Hzero].
  - intros Hb. unfold roles_ok in Hroles.
    destruct (state (game_at s gameId)); [by destruct Hb; apply Hwait | apply Hroles..].
Qed.

(** X8 on the joined game before any move, and after the first moves. *)
Lemma X8_witness :
  (∃ b, getBoard 0 scenario_joined = (Ok b, scenario_joined) ∧ b = replicate 9 Empty)
  ∧ (∃ b, getBoard 0 scenario_before_win = (Ok b, scenario_before_win) ∧ length b = 9%nat).
Proof.
  split.
  - destruct (X8_getBoard_nine_cells scenario_joined 0 reachable_scenario_joined)
      as (b & Hrun & Hlen & _).
    exists b. split; [exact Hrun|].
    rewrite getBoard_run in Hrun. injection Hrun as <-. by vm_compute.
  - destruct (X8_getBoard_nine_cells scenario_before_win 0) as (b & Hrun & Hlen & _).
    + apply reachable_history; [exact reachable_scenario_joined|].
      repeat constructor; discriminate.
    + exists b. split; [exact Hrun | exact Hlen].
Defined.

(** ** The participant index *)

Lemma ids_at_insert (m : gmap N (list N)) k k' v :
  ids_at (<[k := v]> m) k' = if decide (k = k') then v else ids_at m k'.
Proof.
  unfold ids_at. case_decide as H; [subst; by rewrite lookup_insert_eq|].
  by rewrite lookup_insert_ne.
Qed.

Lemma index_ok_init : index_ok init.
Proof.
  intros a Ha. unfold ids_at. cbn. rewrite lookup_empty. cbn.
  split; [constructor|]. intros id. split; [by intros ?%elem_of_nil | ].
  intros [Hlt _]. cbn in Hlt. lia.
Qed.

Lemma index_ok_exec env c s :
  invariant s → (∀ id, roles_ok (game_at s id)) → sender env ≠ 0 →
  index_ok s → index_ok (exec env c s).
Proof.
  intros Hinv Hroles Hsender Hidx a Ha. destruct (Hidx a Ha) as [Hnd Hmem].
  destruct c as [|id|id pos].
  - destruct (exec_create_cases env s) as [-> | Hrun]; [done|].
    destruct (createGame_game _ _ _ _ Hinv Hrun) as (Hg & Hother & Hc).
    destruct (createGame_ok _ _ _ _ Hrun) as (_ & _ & Hs').
    assert (Hpg : playerGames (exec env CreateGame s)
                  = <[sender env := ids_at (playerGames s) (sender env) ++ [gameCounter s]]>
                      (playerGames s)) by (by rewrite Hs').
    rewrite Hpg, Hc, ids_at_insert. clear Hs' Hpg.
    assert (Hfresh : gameCounter s ∉ ids_at (playerGames s) a).
    { intros Hin. apply Hmem in Hin as [Hlt _]. lia. }
    assert (Hold : ∀ id, id ≠ gameCounter s →
              (id ∈ ids_at (playerGames s) a
               ↔ id < gameCounter s + 1
                 ∧ (player1 (game_at (exec env CreateGame s) id) = a
                    ∨ player2 (game_at (exec env CreateGame s) id) = a))).
    { intros id Hne. rewrite Hother, Hmem by done.
      split; intros [? ?]; (split; [lia|done]). }
    case_decide as Hsa.
    + subst a. split.
      * apply NoDup_app. split; [done|]. split; [|apply NoDup_singleton].
        intros x Hx ->%list_elem_of_singleton. done.
      * intros id. rewrite elem_of_app, list_elem_of_singleton.
        destruct (decide (id = gameCounter s)) as [->|Hne].
        -- rewrite Hg. cbn [player1 player2]. split; [intros _; split; [lia|by left] | by right].
        -- rewrite <- Hold by done. split; [by intros [?|?] | by left].
    + split; [done|]. intros id.
      destruct (decide (id = gameCounter s)) as [->|Hne]; [|by apply Hold].
      rewrite Hg. cbn [player1 player2]. split; [done|]. intros [_ [?|?]]; congruence.
  - destruct (exec_join_cases env id s) as [-> | Hrun]; [done|].
    destruct (joinGame_game _ _ _ _ Hrun) as (Hg & Hother & Hc).
    destruct (joinGame_ok _ _ _ _ Hrun) as ((Hp1 & Hst & Hself) & Hs').
    assert (Hpg : playerGames (exec env (JoinGame id) s)
                  = <[sender env := ids_at (playerGames s) (sender env) ++ [id]]>
                      (playerGames s)) by (by rewrite Hs').
    rewrite Hpg, Hc, ids_at_insert. clear Hs' Hpg.
    pose proof (Hroles id) as Hr. unfold roles_ok in Hr. rewrite Hst in Hr.
    pose proof (live_game_allocated s id Hinv Hp1) as Hlt.
    assert (Hold : ∀ id', id' ≠ id →
              (id' ∈ ids_at (playerGames s) a
               ↔ id' < gameCounter s
                 ∧ (player1 (game_at (exec env (JoinGame id) s) id') = a
                    ∨ player2 (game_at (exec env (JoinGame id) s) id') = a))).
    { intros id' Hne. by rewrite Hother, Hmem. }
    case_decide as Hsa.
    + subst a.
      assert (Hfresh : id ∉ ids_at (playerGames s) (sender env)).
      { intros Hin. apply Hmem in Hin as [_ [?|?]]; congruence. }
      split.
      * apply NoDup_app. split; [done|]. split; [|apply NoDup_singleton].
        intros x Hx ->%list_elem_of_singleton. done.
      * intros id'. rewrite elem_of_app, list_elem_of_singleton.
        destruct (decide (id' = id)) as [->|Hne].
        -- rewrite Hg. cbn [player1 player2]. split; [intros _; split; [done|by right] | by right].
        -- rewrite <- Hold by done. split; [by intros [?|?] | by left].
    + split; [done|]. intros id'.
      destruct (decide (id' = id)) as [->|Hne]; [|by apply Hold].
      rewrite Hg, Hmem. cbn [player1 player2]. rewrite Hr.
      split; intros [? [?|?]]; try congruence; (split; [done|by left]).
  - destruct (exec_move_cases env id pos s) as [-> | Hrun]; [done|].
    destruct (makeMove_game _ _ _ _ _ Hrun) as (Hg & Hother & Hc & Hpg & _).
    rewrite Hpg, Hc. split; [done|]. intros id'. rewrite Hmem.
    destruct (decide (id' = id)) as [->|Hne]; [|by rewrite Hother].
    rewrite Hg. destruct (move_result_fields env pos (game_at s id)) as (_ & -> & -> & _).
    done.
Qed.

Lemma reachable_index s : reachable s → index_ok s.
Proof.
  induction 1 as [|env c s Hs IH Hsender]; [apply index_ok_init|].
  apply index_ok_exec; try done; [by apply reachable_invariant|].
  intros id. by apply reachable_roles.
Qed.

(** X9: [getPlayerGames] never fails and changes nothing.  In reachable
    storage the list of an identity holds every game it created or
    joined, each once, and no other id; a call adds at most one id, at
    the end, and removes none. *)
Theorem X9_getPlayerGames_index (env : Env) (c : Call) (s : Contract) (a : address) :
  reachable s → a ≠ 0 →
  ∃ l, getPlayerGames a s = (Ok l, s)
       ∧ NoDup l
       ∧ (∀ id, id ∈ l ↔ id < gameCounter s
                          ∧ (player1 (game_at s id) = a ∨ player2 (game_at s id) = a))
       ∧ (∃ new, fst (getPlayerGames a (exec env c s)) = Ok (l ++ new)
                 ∧ (length new ≤ 1)%nat).
Proof.
  intros Hs Ha. exists (ids_at (playerGames s) a).
  destruct (reachable_index s Hs a Ha) as [Hnd Hmem].
  split; [done|]. split; [done|]. split; [done|].
  change (fst (getPlayerGames a (exec env c s)))
    with (Ok (ids_at (playerGames (exec env c s)) a) : result (list N)).
  pose proof (reachable_invariant s Hs) as Hinv.
  destruct c as [|id|id pos].
  - destruct (exec_create_cases env s) as [-> | Hrun];
      [exists []; rewrite app_nil_r; split; [done | cbn; lia]|].
    destruct (createGame_ok _ _ _ _ Hrun) as (_ & _ & ->). cbn [playerGames].
    rewrite ids_at_insert. case_decide as Hsa.
    + subst a. exists [gameCounter s]. split; [done | cbn; lia].
    + exists []. rewrite app_nil_r. split; [done | cbn; lia].
  - destruct (exec_join_cases env id s) as [-> | Hrun];
      [exists []; rewrite app_nil_r; split; [done | cbn; lia]|].
    destruct (joinGame_ok _ _ _ _ Hrun) as (_ & ->). cbn [playerGames].
    rewrite ids_at_insert. case_decide as Hsa.
    + subst a. exists [id]. split; [done | cbn; lia].
    + exists []. rewrite app_nil_r. split; [done | cbn; lia].
  - destruct (exec_move_cases env id pos s) as [-> | Hrun];
      [exists []; rewrite app_nil_r; split; [done | cbn; lia]|].
    destruct (makeMove_game _ _ _ _ _ Hrun) as (_ & _ & _ & -> & _).
    exists []. rewrite app_nil_r. split; [done | cbn; lia].
Qed.

(** X9 after the won game and a game that [P3] opened: [P1] and [P2] list
    game 0, [P3] lists game 1. *)
Lemma X9_witness :
  let s := exec P3 CreateGame scenario_won in
  fst (getPlayerGames 1 s) = Ok [0] ∧ fst (getPlayerGames 2 s) = Ok [0]
  ∧ fst (getPlayerGames 3 s) = Ok [1]
  ∧ ∃ l, getPlayerGames 3 scenario_won = (Ok l, scenario_won) ∧ NoDup l.
Proof.
  cbn zeta. split; [by vm_compute|]. split; [by vm_compute|]. split; [by vm_compute|].
  destruct (X9_getPlayerGames_index P3 CreateGame scenario_won 3 reachable_scenario_won
              ltac:(discriminate)) as (l & Hrun & Hnd & _).
  exists l. split; [exact Hrun | exact Hnd].
Defined.

(** ** The lifecycle *)

Lemma lifecycle_exec env c s id :
  invariant s →
  let g := game_at s id in
  let g' := game_at (exec env c s) id in
  lifecycle_step (state g) (state g')
  ∧ gameCounter s ≤ gameCounter (exec env c s)
  ∧ (id < gameCounter s → player1 g' = player1 g ∧ createdAt g' = createdAt g)
  ∧ (state g ≠ WaitingForPlayer → player2 g' = player2 g)
  ∧ (state g = Finished ∨ state g = Draw → g' = g).
Proof.
  intros Hinv. cbn zeta.
  assert (Hrefl : ∀ s', game_at s' id = game_at s id → gameCounter s ≤ gameCounter s' →
            lifecycle_step (state (game_at s id)) (state (game_at s' id))
            ∧ gameCounter s ≤ gameCounter s'
            ∧ (id < gameCounter s → player1 (game_at s' id) = player1 (game_at s id)
                                    ∧ createdAt (game_at s' id) = createdAt (game_at s id))
            ∧ (state (game_at s id) ≠ WaitingForPlayer →
                 player2 (game_at s' id) = player2 (game_at s id))
            ∧ (state (game_at s id) = Finished ∨ state (game_at s id) = Draw →
                 game_at s' id = game_at s id)).
  { intros s' -> Hle. repeat split; try done. by left. }
  destruct c as [|id0|id0 pos].
  - destruct (exec_create_cases env s) as [-> | Hrun]; [by apply Hrefl|].
    destruct (createGame_game _ _ _ _ Hinv Hrun) as (Hg & Hother & Hc).
    destruct (decide (id = gameCounter s)) as [->|Hne];
      [|apply Hrefl; [by apply Hother | lia]].
    destruct (Hinv (gameCounter s)) as (_ & Hzero & _).
    rewrite Hg, Hc, Hzero by lia. cbn.
    split; [by left|]. split; [lia|]. split; [lia|]. split; [done|].
    by intros [?|?].
  - destruct (exec_join_cases env id0 s) as [-> | Hrun]; [by apply Hrefl|].
    destruct (joinGame_game _ _ _ _ Hrun) as (Hg & Hother & Hc).
    destruct (joinGame_ok _ _ _ _ Hrun) as ((Hp1 & Hst & Hself) & _).
    destruct (decide (id = id0)) as [->|Hne];
      [|apply Hrefl; [by apply Hother | lia]].
    rewrite Hg, Hc, Hst. cbn.
    split; [right; by left|]. split; [lia|]. split; [done|]. split; [done|].
    by intros [?|?].
  - destruct (exec_move_cases env id0 pos s) as [-> | Hrun]; [by apply Hrefl|].
    destruct (makeMove_game _ _ _ _ _ Hrun) as (Hg & Hother & Hc & _).
    destruct (makeMove_ok _ _ _ _ _ Hrun) as ((Hp1 & Hst & _) & _).
    destruct (decide (id = id0)) as [->|Hne];
      [|apply Hrefl; [by apply Hother | lia]].
    rewrite Hg, Hc, Hst.
    destruct (move_result_fields env pos (game_at s id0)) as (_ & -> & -> & -> & _).
    split; [|split; [lia|]; split; [done|]; split; [done|]; by intros [?|?]].
    unfold move_result. cbn zeta.
    destruct (_checkWinner _ _); [|destruct (_isBoardFull _)]; cbn [state].
    + right; right. split; [done|by left].
    + right; right. split; [done|by right].
    + by left.
Qed.

(** X10: a game only moves forward.  Whatever call is applied to reachable
    storage, the state of every game stays as it was, or goes from
    WaitingForPlayer to InProgress, or from InProgress to Finished or
    Draw; the id counter never decreases; a created game keeps its
    player1 and its creation time, a joined game its player2; and the
    record of a finished or drawn game never changes again. *)
Theorem X10_lifecycle_forward (env : Env) (c : Call) (s : Contract) (gameId : N) :
  reachable s →
  let g := game_at s gameId in
  let g' := game_at (exec env c s) gameId in
  lifecycle_step (state g) (state g')
  ∧ gameCounter s ≤ gameCounter (exec env c s)
  ∧ (gameId < gameCounter s → player1 g' = player1 g ∧ createdAt g' = createdAt g)
  ∧ (state g ≠ WaitingForPlayer → player2 g' = player2 g)
  ∧ (state g = Finished ∨ state g = Draw → g' = g).
Proof.
  intros Hs. apply lifecycle_exec. by apply reachable_invariant.
Qed.

(** X10 on the won game: the loser's next move leaves the record as it is. *)
Lemma X10_witness :
  game_at (exec P2 (MakeMove 0 5) scenario_won) 0 = game_at scenario_won 0.
Proof.
  destruct (X10_lifecycle_forward P2 (MakeMove 0 5) scenario_won 0 reachable_scenario_won)
    as (_ & _ & _ & _ & Hfrozen).
  apply Hfrozen. left. by vm_compute.
Defined.

(** ** Trophies *)

Lemma minted_ids_app evs evs' : minted_ids (evs ++ evs') = minted_ids evs ++ minted_ids evs'.
Proof. apply omap_app. Qed.

Lemma seq_ids_succ n :
  N.of_nat <$> seq 0 (N.to_nat (n + 1)) = (N.of_nat <$> seq 0 (N.to_nat n)) ++ [n].
Proof.
  replace (N.to_nat (n + 1)) with (S (N.to_nat n)) by lia.
  rewrite seq_S, fmap_app. cbn. by rewrite N2Nat.id.
Qed.

Lemma finished_games_same s s' id :
  gameCounter s' = gameCounter s → (∀ x, x ≠ id → game_at s' x = game_at s x) →
  (state (game_at s id) = Finished ↔ state (game_at s' id) = Finished) →
  finished_games s' = finished_games s.
Proof.
  intros Hc Hother Hiff. unfold finished_games.
  exact (count_same s s' id (λ g, state g = Finished) Hc Hother Hiff).
Qed.

Lemma trophies_ok_init : trophies_ok init.
Proof. split; [done|]. split; [done|]. by intros t w id ?%elem_of_nil. Qed.

Lemma trophies_ok_exec env c s :
  invariant s → trophies_ok s → trophies_ok (exec env c s).
Proof.
  intros Hinv (Hcount & Hids & Hev). destruct c as [|id|id pos].
  - destruct (exec_create_cases env s) as [-> | Hrun]; [done|].
    destruct (createGame_game _ _ _ _ Hinv Hrun) as (Hg & Hother & Hc).
    destruct (createGame_ok _ _ _ _ Hrun) as (_ & _ & Hs').
    destruct (Hinv (gameCounter s)) as (_ & Hzero & _).
    assert (Hfin : finished_games (exec env CreateGame s) = finished_games s).
    { assert (Ha : allocated (exec env CreateGame s) = allocated s ++ [gameCounter s])
        by (rewrite Hs'; by apply allocated_succ).
      unfold finished_games. rewrite Ha.
      rewrite filter_app, filter_cons, filter_nil, Hg. cbn [state].
      rewrite decide_False by done. rewrite app_nil_r.
      apply filter_same. intros x Hx. apply elem_of_allocated in Hx.
      by rewrite Hother by lia. }
    assert (Ht : _tokenIdCounter (exec env CreateGame s) = _tokenIdCounter s)
      by (by rewrite Hs').
    assert (He : events (exec env CreateGame s)
                 = events s ++ [GameCreated (gameCounter s) (sender env)])
      by (by rewrite Hs').
    split; [by rewrite Ht, Hfin|]. split.
    + rewrite Ht, He, minted_ids_app. cbn. by rewrite app_nil_r.
    + intros t w id. rewrite He, elem_of_app, list_elem_of_singleton.
      intros [Hin|?]; [|done]. destruct (Hev t w id Hin) as [Hst Hw].
      rewrite Hother; [done|]. intros ->. rewrite Hzero in Hst by lia. done.
  - destruct (exec_join_cases env id s) as [-> | Hrun]; [done|].
    destruct (joinGame_game _ _ _ _ Hrun) as (Hg & Hother & Hc).
    destruct (joinGame_ok _ _ _ _ Hrun) as ((Hp1 & Hst & Hself) & Hs').
    assert (Hfin : finished_games (exec env (JoinGame id) s) = finished_games s).
    { apply (finished_games_same _ _ id); [done..|]. rewrite Hg, Hst. done. }
    assert (Ht : _tokenIdCounter (exec env (JoinGame id) s) = _tokenIdCounter s)
      by (by rewrite Hs').
    assert (He : events (exec env (JoinGame id) s) = events s ++ [GameJoined id (sender env)])
      by (by rewrite Hs').
    split; [by rewrite Ht, Hfin|]. split.
    + rewrite Ht, He, minted_ids_app. cbn. by rewrite app_nil_r.
    + intros t w id'. rewrite He, elem_of_app, list_elem_of_singleton.
      intros [Hin|?]; [|done]. destruct (Hev t w id' Hin) as [Hst' Hw].
      rewrite Hother; [done|]. intros ->. congruence.
  - destruct (exec_move_cases env id pos s) as [-> | Hrun]; [done|].
    destruct (makeMove_game _ _ _ _ _ Hrun) as (Hg & Hother & Hc & _).
    destruct (makeMove_ok _ _ _ _ _ Hrun) as ((Hp1 & Hst & _) & Hs').
    cbn zeta in Hs'. unfold move_result in Hg. cbn zeta in Hg.
    set (s' := exec env (MakeMove id pos) s) in *.
    assert (Hold : ∀ t w id', WinnerNFTMinted t w id' ∈ events s →
              state (game_at s' id') = Finished ∧ winner (game_at s' id') = w).
    { intros t w id' Hin. destruct (Hev t w id' Hin) as [Hst' Hw].
      rewrite Hother; [done|]. intros ->. congruence. }
    destruct (_checkWinner _ _); [|destruct (_isBoardFull _)].
    + assert (Ht : _tokenIdCounter s' = _tokenIdCounter s + 1) by (by rewrite Hs').
      assert (He : events s' = ((events s ++ [MoveMade id (sender env) pos])
                                  ++ [WinnerNFTMinted (_tokenIdCounter s) (sender env) id])
                                 ++ [GameWon id (sender env)]) by (by rewrite Hs').
      split; [|split].
      * rewrite Ht, Hcount. unfold finished_games.
        pose proof (count_gain s s' id (λ g, state g = Finished) Hc Hother) as Hgain.
        cbv beta in Hgain. rewrite Hgain; [lia | | |].
        -- by apply live_game_allocated.
        -- by rewrite Hst.
        -- by rewrite Hg.
      * rewrite Ht, He, !minted_ids_app, Hids, seq_ids_succ. cbn. by rewrite !app_nil_r.
      * intros t w id'. rewrite He, !elem_of_app, !list_elem_of_singleton.
        intros [[[Hin|?]|Heq]|?]; try done; [by eapply Hold|].
        injection Heq as -> -> ->. by rewrite Hg.
    + assert (Ht : _tokenIdCounter s' = _tokenIdCounter s) by (by rewrite Hs').
      assert (He : events s' = (events s ++ [MoveMade id (sender env) pos]) ++ [GameDraw id])
        by (by rewrite Hs').
      split; [|split].
      * rewrite Ht, Hcount. f_equal. f_equal.
        symmetry. apply (finished_games_same _ _ id); [done..|]. rewrite Hg, Hst. done.
      * rewrite Ht, He, !minted_ids_app, Hids. cbn. by rewrite !app_nil_r.
      * intros t w id'. rewrite He, !elem_of_app, !list_elem_of_singleton.
        intros [[Hin|?]|?]; try done. by eapply Hold.
    + assert (Ht : _tokenIdCounter s' = _tokenIdCounter s) by (by rewrite Hs').
      assert (He : events s' = events s ++ [MoveMade id (sender env) pos])
        by (by rewrite Hs').
      split; [|split].
      * rewrite Ht, Hcount. f_equal. f_equal.
        symmetry. apply (finished_games_same _ _ id); [done..|]. rewrite Hg, Hst. done.
      * rewrite Ht, He, !minted_ids_app, Hids. cbn. by rewrite !app_nil_r.
      * intros t w id'. rewrite He, !elem_of_app, !list_elem_of_singleton.
        intros [Hin|?]; try done. by eapply Hold.
Qed.

Lemma reachable_trophies s : reachable s → trophies_ok s.
Proof.
  induction 1 as [|env c s Hs IH Hsender]; [apply trophies_ok_init|].
  apply trophies_ok_exec; [by apply reachable_invariant | done].
Qed.

(** X11: one trophy per won game.  In reachable storage the token counter
    equals the number of finished games; the WinnerNFTMinted events of the
    log carry the token ids 0, 1, 2, ... in this order, with no gap and no
    repeat, up to the counter; and each of them names a game that is
    finished and the winner of that game. *)
Theorem X11_one_trophy_per_win (s : Contract) :
  reachable s →
  _tokenIdCounter s = N.of_nat (length (finished_games s))
  ∧ minted_ids (events s) = N.of_nat <$> seq 0 (N.to_nat (_tokenIdCounter s))
  ∧ (∀ t w id, WinnerNFTMinted t w id ∈ events s →
       t < _tokenIdCounter s
       ∧ state (game_at s id) = Finished ∧ winner (game_at s id) = w).
Proof.
  intros Hs. destruct (reachable_trophies s Hs) as (Hcount & Hids & Hev).
  split; [done|]. split; [done|].
  intros t w id Hin. split; [|by apply (Hev t)].
  assert (Ht : t ∈ minted_ids (events s)).
  { unfold minted_ids. apply list_elem_of_omap. by exists (WinnerNFTMinted t w id). }
  rewrite Hids in Ht. apply list_elem_of_fmap in Ht as (n & -> & Hn).
  apply elem_of_seq in Hn. lia.
Qed.

(** X11 on the won game: one trophy, numbered 0, for [P1] and game 0. *)
Lemma X11_witness :
  _tokenIdCounter scenario_won = 1
  ∧ minted_ids (events scenario_won) = [0]
  ∧ WinnerNFTMinted 0 1 0 ∈ events scenario_won.
Proof.
  destruct (X11_one_trophy_per_win scenario_won reachable_scenario_won) as (Hc & Hids & _).
  assert (H1 : _tokenIdCounter scenario_won = 1) by (by vm_compute).
  split; [exact H1|]. split; [rewrite Hids, H1; reflexivity|].
  vm_compute. do 7 right. left.
Defined.

(** ** Counters never overflow after the creation *)

Lemma reachable_counter s : reachable s → gameCounter s ≤ MAX_UINT256.
Proof.
  induction 1 as [|env c s Hs IH Hsender]; [by vm_compute|].
  pose proof (reachable_invariant s Hs) as Hinv.
  destruct c as [|id|id pos].
  - destruct (exec_create_cases env s) as [-> | Hrun]; [done|].
    destruct (createGame_game _ _ _ _ Hinv Hrun) as (_ & _ & ->).
    destruct (createGame_ok _ _ _ _ Hrun) as (_ & Hlt & _). lia.
  - destruct (exec_join_cases env id s) as [-> | Hrun]; [done|].
    by destruct (joinGame_game _ _ _ _ Hrun) as (_ & _ & ->).
  - destruct (exec_move_cases env id pos s) as [-> | Hrun]; [done|].
    by destruct (makeMove_game _ _ _ _ _ Hrun) as (_ & _ & -> & _).
Qed.

Lemma length_allocated s : length (allocated s) = N.to_nat (gameCounter s).
Proof. unfold allocated. by rewrite length_fmap, length_seq. Qed.

Lemma count_below_counter (P : N → Prop) `{!∀ x, Decision (P x)} s id :
  (N.of_nat (length (filter P (allocated s))) ≤ gameCounter s)
  ∧ (id < gameCounter s → ¬ P id → N.of_nat (length (filter P (allocated s))) < gameCounter s).
Proof.
  split.
  - pose proof (length_filter P (allocated s)) as Hlen. rewrite length_allocated in Hlen. lia.
  - intros Hid Hno.
    pose proof (length_filter_lt P (allocated s) id) as Hlen.
    rewrite length_allocated in Hlen. rewrite elem_of_allocated in Hlen.
    specialize (Hlen Hid Hno). lia.
Qed.

Lemma wins_le_totalGames s a : reachable s → wins s a ≤ totalGames s a.
Proof.
  intros Hs. destruct (reachable_ledger s Hs a) as [-> ->].
  pose proof (reachable_invariant s Hs) as Hinv.
  assert (Hsub : won_games s a ⊆+ joined_games s a).
  { unfold won_games, joined_games.
    apply NoDup_submseteq; [apply NoDup_filter, NoDup_allocated|].
    intros id. rewrite !list_elem_of_filter. intros [[Hst Hw] Hin].
    split; [|done]. split; [congruence|].
    destruct (Hinv id) as ((_ & Hg) & _). rewrite Hst in Hg.
    destruct Hg as (_ & Hwho & _). destruct Hwho; [left|right]; congruence. }
  apply submseteq_length in Hsub. lia.
Qed.

Lemma joinGame_no_panic env id s :
  reachable s → fst (joinGame env id s) ≠ Revert Panic.
Proof.
  intros Hs. pose proof (joinGame_reject env id s) as Hrun. cbn zeta in Hrun.
  destruct (bool_decide_reflect (player1 (game_at s id) = 0)) as [H1|H1];
    [by rewrite Hrun|].
  destruct (bool_decide_reflect (state (game_at s id) ≠ WaitingForPlayer)) as [H2|H2];
    [by rewrite Hrun|].
  destruct (bool_decide_reflect (player1 (game_at s id) = sender env)) as [H3|H3];
    [by rewrite Hrun|].
  apply dec_stable in H2. clear Hrun.
  pose proof (reachable_invariant s Hs) as Hinv.
  pose proof (live_game_allocated s id Hinv H1) as Hid.
  pose proof (reachable_counter s Hs) as Hmax.
  assert (Hbound : ∀ a, totalGames s a < MAX_UINT256).
  { intros a. destruct (reachable_ledger s Hs a) as [-> _]. unfold joined_games.
    assert (N.of_nat (length (filter
              (λ id, state (game_at s id) ≠ WaitingForPlayer
                     ∧ (player1 (game_at s id) = a ∨ player2 (game_at s id) = a))
              (allocated s))) < gameCounter s); [|lia].
    apply (count_below_counter _ s id); [done|]. by intros [? _]. }
  by rewrite (joinGame_accept env id s H1 H2 H3 (Hbound _) (Hbound _)).
Qed.

Lemma makeMove_no_panic env id pos s :
  reachable s → fst (makeMove env id pos s) ≠ Revert Panic.
Proof.
  intros Hs. pose proof (makeMove_reject env id pos s) as Hrun. cbn zeta in Hrun.
  destruct (bool_decide_reflect (player1 (game_at s id) = 0)) as [H1|H1];
    [by rewrite Hrun|].
  destruct (bool_decide_reflect (state (game_at s id) ≠ InProgress)) as [H2|H2];
    [by rewrite Hrun|].
  destruct (bool_decide_reflect (sender env ≠ player1 (game_at s id))) as [H3|H3];
    destruct (bool_decide_reflect (sender env ≠ player2 (game_at s id))) as [H3'|H3'];
    cbn [andb] in Hrun; [by rewrite Hrun| | |].
  all: destruct (bool_decide_reflect (sender env ≠ currentTurn (game_at s id))) as [H4|H4];
    [by rewrite Hrun|].
  all: destruct (bool_decide_reflect (9 ≤ pos)) as [H5|H5]; [by rewrite Hrun|].
  all: destruct (bool_decide_reflect (cell (board (game_at s id)) (N.to_nat pos) ≠ Empty))
    as [H6|H6]; [by rewrite Hrun|].
  all: clear Hrun; apply dec_stable in H2; apply dec_stable in H4; apply dec_stable in H6.
  all: assert (Hwho : sender env = player1 (game_at s id) ∨ sender env = player2 (game_at s id))
    by (first [left; by apply dec_stable | right; by apply dec_stable]).
  all: pose proof (reachable_invariant s Hs) as Hinv.
  all: pose proof (live_game_allocated s id Hinv H1) as Hid.
  all: pose proof (reachable_counter s Hs) as Hmax.
  all: destruct (reachable_ledger s Hs (sender env)) as [_ Hwins].
  all: destruct (reachable_trophies s Hs) as (Htok & _).
  all: destruct (makeMove_accept env id pos s H1 H2 Hwho H4 ltac:(lia) H6)
    as [-> | [_ Hover]]; [done|].
  all: exfalso; fold (wins s (sender env)) in Hover; rewrite Hwins, Htok in Hover.
  all: unfold won_games, finished_games in Hover.
  all: pose proof (proj2 (count_below_counter
         (λ x, state (game_at s x) = Finished ∧ winner (game_at s x) = sender env) s id) Hid)
       as Hw.
  all: pose proof (proj2 (count_below_counter
         (λ x, state (game_at s x) = Finished) s id) Hid) as Ht.
  all: cbv beta in Hw, Ht.
  all: assert (Hnf : state (game_at s id) ≠ Finished) by congruence.
  all: specialize (Hw ltac:(by intros [? _])); specialize (Ht Hnf); lia.
Qed.

(** X12: after its creation a game cannot be blocked by a counter.  In
    reachable storage neither [joinGame] nor [makeMove] fails with
    Panic, whatever the call: the wins of a player never exceed its games
    played, which never exceed the id counter, no more than the token
    counter does, and the id counter is within its type; so only
    [createGame] can overflow, exactly when the id counter is at its
    maximum. *)
Theorem X12_only_createGame_overflows (env : Env) (gameId position : N) (s : Contract) :
  reachable s →
  fst (transact (joinGame env gameId) s) ≠ Revert Panic
  ∧ fst (transact (makeMove env gameId position) s) ≠ Revert Panic
  ∧ (fst (transact (createGame env) s) = Revert Panic ↔ gameCounter s = MAX_UINT256)
  ∧ (∀ a, wins s a ≤ totalGames s a ∧ totalGames s a ≤ gameCounter s)
  ∧ _tokenIdCounter s ≤ gameCounter s
  ∧ gameCounter s ≤ MAX_UINT256.
Proof.
  intros Hs. rewrite !transact_fst.
  pose proof (reachable_counter s Hs) as Hmax.
  split; [by apply joinGame_no_panic|]. split; [by apply makeMove_no_panic|].
  split; [|split; [|split; [|done]]].
  - rewrite createGame_run. case_bool_decide; cbn [fst]; split; try done; lia.
  - intros a. split; [by apply wins_le_totalGames|].
    destruct (reachable_ledger s Hs a) as [-> _]. unfold joined_games.
    apply (count_below_counter _ s 0).
  - destruct (reachable_trophies s Hs) as (-> & _). unfold finished_games.
    apply (count_below_counter _ s 0).
Qed.

(** X12 on the won game: the loser's late move is refused by a check, not by a counter. *)
Lemma X12_witness :
  fst (transact (makeMove P2 0 5) scenario_won) ≠ Revert Panic
  ∧ wins scenario_won 1 ≤ totalGames scenario_won 1.
Proof.
  destruct (X12_only_createGame_overflows P2 0 5 scenario_won reachable_scenario_won)
    as (_ & Hmove & _ & Hle & _).
  split; [exact Hmove | exact (proj1 (Hle 1))].
Defined.

(** ** What an accepted move writes *)

(** X13: an accepted move logs MoveMade, followed by WinnerNFTMinted (with
    the token counter as id) and GameWon when it wins, or by GameDraw when
    it draws, and nothing else; it advances the token counter only when it
    wins; it stamps lastMoveAt; and it leaves alone the other cells of the
    board, the two players and the creation time of the game, every other
    game, the id counter, the participant index and the games-played
    counters. *)
Theorem X13_makeMove_log_and_frame (env : Env) (gameId position : N) (s s' : Contract) :
  transact (makeMove env gameId position) s = (Ok (), s') →
  let g := game_at s gameId in
  let g' := game_at s' gameId in
  events s' = events s ++ MoveMade gameId (sender env) position ::
      match state g' with
      | Finished => [WinnerNFTMinted (_tokenIdCounter s) (sender env) gameId;
                     GameWon gameId (sender env)]
      | Draw => [GameDraw gameId]
      | _ => []
      end
  ∧ _tokenIdCounter s' = _tokenIdCounter s + (if bool_decide (state g' = Finished) then 1 else 0)
  ∧ lastMoveAt g' = timestamp env
  ∧ (player1 g' = player1 g ∧ player2 g' = player2 g ∧ createdAt g' = createdAt g)
  ∧ (∀ i, i ≠ N.to_nat position → board g' !! i = board g !! i)
  ∧ (∀ id, id ≠ gameId → game_at s' id = game_at s id)
  ∧ gameCounter s' = gameCounter s
  ∧ playerGames s' = playerGames s
  ∧ playerGamesPlayed s' = playerGamesPlayed s.
Proof.
  intros H. apply (proj1 (transact_ok _ _ _ _)) in H. cbn zeta.
  destruct (makeMove_game _ _ _ _ _ H) as (Hg & Hother & Hc & Hpg & Hpp).
  destruct (makeMove_ok _ _ _ _ _ H) as (_ & Hs'). cbn zeta in Hs'.
  destruct (move_result_fields env position (game_at s gameId))
    as (Hb & Hp1 & Hp2 & Hca & Hlm).
  rewrite Hg, Hb, Hp1, Hp2, Hca, Hlm.
  assert (Hlog :
    events s' = events s ++ MoveMade gameId (sender env) position ::
      match state (move_result env position (game_at s gameId)) with
      | Finished => [WinnerNFTMinted (_tokenIdCounter s) (sender env) gameId;
                     GameWon gameId (sender env)]
      | Draw => [GameDraw gameId]
      | _ => []
      end
    ∧ _tokenIdCounter s' = _tokenIdCounter s +
        (if bool_decide (state (move_result env position (game_at s gameId)) = Finished)
         then 1 else 0)).
  { unfold move_result. cbn zeta. rewrite Hs'.
    destruct (_checkWinner _ _); [|destruct (_isBoardFull _)];
      cbn [events _tokenIdCounter state];
      rewrite <- ?app_assoc; cbn [app]; (split; [done|]);
      [by rewrite bool_decide_eq_true_2
      | rewrite bool_decide_eq_false_2 by done; lia
      | rewrite bool_decide_eq_false_2 by done; lia]. }
  destruct Hlog as [-> ->].
  repeat split; try done.
  intros i Hi. by rewrite list_lookup_insert_ne.
Qed.

(** X13 at the winning move of the top-row game. *)
Lemma X13_witness :
  events scenario_won
  = events scenario_before_win ++ [MoveMade 0 1 2; WinnerNFTMinted 0 1 0; GameWon 0 1]
  ∧ _tokenIdCounter scenario_won = 1.
Proof.
  assert (H : transact (makeMove P1 0 2) scenario_before_win = (Ok (), scenario_won))
    by (vm_compute; reflexivity).
  destruct (X13_makeMove_log_and_frame P1 0 2 scenario_before_win scenario_won H)
    as (He & Ht & _).
  assert (Hst : state (game_at scenario_won 0) = Finished) by (vm_compute; reflexivity).
  rewrite Hst in He, Ht. split; [exact He | exact Ht].
Defined.

(** ** Full boards and stuck games *)

(** X14: on a nine-cell board [_isBoardFull] answers true exactly when no
    cell is empty, that is, when the X and O marks number nine; and false
    exactly when some cell below nine is empty. *)
Theorem X14_isBoardFull_no_empty_cell (b : list CellState) :
  length b = 9%nat →
  (_isBoardFull b = true ↔ Empty ∉ b)
  ∧ (_isBoardFull b = true ↔ (count_mark X b + count_mark O b = 9)%nat)
  ∧ (_isBoardFull b = false ↔ ∃ i, (i < 9)%nat ∧ b !! i = Some Empty).
Proof.
  intros Hlen. pose proof (_isBoardFull_isFull b Hlen) as Hfull. unfold isFull in Hfull.
  pose proof (count_mark_total b) as Htot.
  assert (Hcount : Empty ∉ b ↔ count_mark Empty b = 0%nat).
  { unfold count_mark. split.
    - intros Hno. destruct (filter (λ c, c = Empty) b) as [|c l] eqn:E; [done|].
      assert (Hc : c ∈ filter (λ c, c = Empty) b) by (rewrite E; left).
      apply list_elem_of_filter in Hc as [-> Hin]. done.
    - intros Hz Hin.
      assert (Hc : Empty ∈ filter (λ c, c = Empty) b) by (by apply list_elem_of_filter).
      destruct (filter (λ c, c = Empty) b); [by apply elem_of_nil in Hc | done]. }
  split; [done|]. split; [rewrite Hfull, Hcount; lia|].
  rewrite <- not_true_iff_false, Hfull. split.
  - intros Hin. destruct (decide (Empty ∈ b)) as [Hin'|]; [|done].
    apply list_elem_of_lookup in Hin' as [i Hi]. exists i.
    split; [|done]. apply lookup_lt_Some in Hi. lia.
  - intros (i & _ & Hi) Hno. apply Hno. by eapply list_elem_of_lookup_2.
Qed.

(** X14 on the drawn board of the test suite, and on the empty board. *)
Lemma X14_witness :
  (Empty ∉ [X; O; X; X; X; O; O; X; O])
  ∧ (∃ i, (i < 9)%nat ∧ replicate 9 Empty !! i = Some Empty).
Proof.
  split.
  - apply (proj1 (X14_isBoardFull_no_empty_cell [X; O; X; X; X; O; O; X; O] eq_refl)).
    reflexivity.
  - apply (proj2 (proj2 (X14_isBoardFull_no_empty_cell (replicate 9 Empty) eq_refl))).
    reflexivity.
Defined.

Lemma reachable_live s id : reachable s → live_ok (game_at s id).
Proof.
  intros Hs. revert id. apply reachable_game_ind; [by intros _| | | |done].
  - by intros env _ _.
  - intros env g _ (_ & Hok) _ _ Hst _ _. rewrite Hst in Hok.
    destruct Hok as (_ & _ & ->). done.
  - intros env pos g _ _ _ _ _ _ _ _. unfold move_result, live_ok. cbn zeta.
    destruct (_checkWinner _ _); [|destruct (_isBoardFull _) eqn:Hf]; cbn [state board].
    + by intros [?|?].
    + by intros [?|?].
    + done.
Qed.

(** X15: a game in progress is never stuck.  In reachable storage the
    board of a game in progress has an empty cell, and [makeMove] accepts
    the move of the participant whose turn it is to any empty cell. *)
Theorem X15_game_in_progress_has_a_move (s : Contract) (gameId : N) (ts : N) :
  reachable s →
  let g := game_at s gameId in
  state g = InProgress →
  (∃ position, position < 9 ∧ board g !! N.to_nat position = Some Empty)
  ∧ ∀ position, position < 9 → board g !! N.to_nat position = Some Empty →
      let env := mkEnv (currentTurn g) ts in
      fst (transact (makeMove env gameId position) s) = Ok ().
Proof.
  intros Hs. cbn zeta. intros Hst.
  destruct (reachable_invariant s Hs gameId) as ((Hlen & Hg) & _ & _).
  pose proof (reachable_live s gameId Hs) as Hlive.
  set (g := game_at s gameId) in *. split.
  - specialize (Hlive (or_intror Hst)).
    assert (Hin : Empty ∈ board g).
    { destruct (decide (Empty ∈ board g)) as [|Hno]; [done|].
      apply (_isBoardFull_isFull _ Hlen) in Hno. congruence. }
    apply list_elem_of_lookup in Hin as [i Hi]. exists (N.of_nat i).
    pose proof (lookup_lt_Some _ _ _ Hi). rewrite Nat2N.id. split; [lia|done].
  - intros position Hpos Hcell. rewrite !transact_fst.
    rewrite Hst in Hg. destruct Hg as (_ & Hp1 & _ & _ & Hwho & _).
    assert (Hc : cell (board g) (N.to_nat position) = Empty) by (unfold cell; by rewrite Hcell).
    destruct (makeMove_accept (mkEnv (currentTurn g) ts) gameId position s Hp1 Hst Hwho eq_refl
                Hpos Hc) as [Hok | [Hpanic _]]; [done|].
    by destruct (makeMove_no_panic (mkEnv (currentTurn g) ts) gameId position s Hs).
Qed.

(** X15 on the game one move short of the win: cell 2 is empty and [P1] may take it. *)
Lemma X15_witness :
  ∃ position, position < 9
    ∧ board (game_at scenario_before_win 0) !! N.to_nat position = Some Empty.
Proof.
  assert (Hs : reachable scenario_before_win).
  { apply reachable_history; [exact reachable_scenario_joined|].
    repeat constructor; discriminate. }
  exact (proj1 (X15_game_in_progress_has_a_move scenario_before_win 0 0 Hs eq_refl)).
Defined.

(** ** Trophy metadata: the decimal rendering and the shape of the encoding *)

Lemma digit_char_zero v :
  ascii_of_N (48 + v mod 10) = "0"%char → v mod 10 = 0.
Proof.
  intros H. pose proof (digit_char_value v) as Hv. rewrite H in Hv.
  change (N_of_ascii "0") with 48 in Hv. lia.
Qed.

Lemma _toString_fill_head fuel : ∀ v pre suf,
  v ≠ 0 → v < 2 ^ N.of_nat fuel → length pre = _toString_count fuel v 0 →
  ∃ c rest, _toString_fill fuel v (length pre) (pre ++ suf) = c :: rest ++ suf
            ∧ c ≠ "0"%char.
Proof.
  induction fuel as [|fuel IH]; intros v pre suf Hne Hv Hpre.
  { cbn in Hv. lia. }
  cbn [_toString_fill _toString_count] in *.
  rewrite bool_decide_eq_true_2 in * by done.
  rewrite _toString_count_acc in Hpre.
  destruct (length_S_snoc pre _ Hpre) as (pre0 & x & -> & Hpre0).
  cbn zeta. rewrite length_app. cbn [length].
  replace (length pre0 + 1 - 1)%nat with (length pre0) by lia.
  rewrite <- app_assoc. cbn [app].
  rewrite insert_app_r_alt by lia. rewrite Nat.sub_diag. cbn [insert list_insert].
  assert (Hhalf : v / 10 < 2 ^ N.of_nat fuel).
  { replace (N.of_nat (S fuel)) with (N.succ (N.of_nat fuel)) in Hv by lia.
    rewrite N.pow_succ_r' in Hv.
    assert (v / 10 ≤ v / 2) by euclid.
    assert (v / 2 < 2 ^ N.of_nat fuel) by (apply N.Div0.div_lt_upper_bound; lia).
    lia. }
  destruct (decide (v / 10 = 0)) as [Hz|Hnz].
  - rewrite Hz in Hpre0 |- *.
    assert (Hnil : pre0 = []).
    { destruct fuel; cbn in Hpre0; by destruct pre0. }
    subst pre0. exists (ascii_of_N (48 + v mod 10)), [].
    split; [by destruct fuel|].
    intros H%digit_char_zero. euclid.
  - destruct (IH (v / 10) pre0 (ascii_of_N (48 + v mod 10) :: suf) Hnz Hhalf Hpre0)
      as (c & rest & Hfill & Hc).
    exists c, (rest ++ [ascii_of_N (48 + v mod 10)]).
    rewrite Hfill, <- app_assoc. done.
Qed.

Lemma _toString_head v :
  v ≠ 0 → ∃ c rest, _toString v = c :: rest ∧ c ≠ "0"%char.
Proof.
  intros Hv. unfold _toString. rewrite bool_decide_eq_false_2 by done. cbn zeta.
  set (fuel := S (N.to_nat (N.log2 v))).
  destruct (_toString_fill_head fuel v (replicate (_toString_count fuel v 0) zero) [])
    as (c & rest & Hfill & Hc).
  - done.
  - unfold fuel. replace (N.of_nat (S (N.to_nat (N.log2 v)))) with (N.succ (N.log2 v)) by lia.
    apply N.log2_spec. lia.
  - by rewrite length_replicate.
  - rewrite length_replicate, !app_nil_r in Hfill. by exists c, rest.
Qed.

(** X16: [_toString] writes the decimal numeral of its argument.  Every
    byte is a digit; read back as a decimal number the bytes give the
    argument, so no two numbers share a rendering; zero is rendered as
    the single digit 0, and the rendering of another number is not empty
    and does not start with 0. *)
Theorem X16_toString_decimal (v w : N) :
  Forall (λ c, is_digit c = true) (_toString v)
  ∧ decimal_value (_toString v) = v
  ∧ (_toString v = _toString w → v = w)
  ∧ _toString 0 = ["0"%char]
  ∧ (v ≠ 0 → ∃ c rest, _toString v = c :: rest ∧ c ≠ "0"%char).
Proof.
  split; [apply _toString_digits|]. split; [apply _toString_value|].
  split; [|split; [reflexivity | apply _toString_head]].
  intros H. by rewrite <- (_toString_value v), H, _toString_value.
Qed.

Lemma length_encode_groups data :
  length (encode_groups data) = (4 * ((length data + 2) / 3))%nat.
Proof.
  induction data as [|a|a b|a b c l IH] using list_ind3; try done.
  cbn [encode_groups]. rewrite length_app, IH, length_symbols.
  cbn [length]. rewrite div3_step. lia.
Qed.

Lemma table_at_in k : k < 64 → table_at k ∈ TABLE.
Proof.
  intros Hk. unfold table_at.
  destruct (lookup_lt_is_Some_2 TABLE (N.to_nat k)) as [c Hc].
  { change (length TABLE) with 64%nat. lia. }
  rewrite Hc. cbn. by eapply list_elem_of_lookup_2.
Qed.

Lemma symbols_alphabet a b c : Forall (λ x, x ∈ TABLE) (symbols a b c).
Proof.
  unfold symbols. cbn zeta.
  repeat (apply Forall_cons_2; [apply table_at_in, sextet_lt|]). apply Forall_nil_2.
Qed.

Lemma symbols_no_pad a b c : Forall (λ x, x ≠ "="%char) (symbols a b c).
Proof.
  unfold symbols. cbn zeta.
  repeat (apply Forall_cons_2; [apply table_not_pad, sextet_lt|]). apply Forall_nil_2.
Qed.

Lemma encode_groups_alphabet data :
  ∃ body pad, encode_groups data = body ++ pad
    ∧ Forall (λ x, x ∈ TABLE ∧ x ≠ "="%char) body
    ∧ pad = replicate ((3 - length data mod 3) mod 3) "="%char.
Proof.
  induction data as [|a|a b|a b c l IH] using list_ind3; cbn [encode_groups].
  - exists [], []. by repeat split.
  - eexists _, _. split; [done|]. split; [|done].
    apply Forall_take. apply Forall_and. split; [apply symbols_alphabet|apply symbols_no_pad].
  - eexists _, _. split; [done|]. split; [|done].
    apply Forall_take. apply Forall_and. split; [apply symbols_alphabet|apply symbols_no_pad].
  - destruct IH as (body & pad & -> & Hbody & Hpad).
    exists (symbols (N_of_ascii a) (N_of_ascii b) (N_of_ascii c) ++ body), pad.
    split; [by rewrite app_assoc|]. split.
    + apply Forall_app. split; [|done].
      apply Forall_and. split; [apply symbols_alphabet|apply symbols_no_pad].
    + cbn [length]. by rewrite mod3_step.
Qed.

(** X17: the shape of what [_base64Encode] returns.  The output has four
    symbols for every three bytes of input, rounded up; it consists of
    symbols of the table followed by as many [=] as bytes are missing from
    the last group (none, one or two), and [=] is no symbol of the table;
    only the empty input gives the empty output; and no two inputs give
    the same output. *)
Theorem X17_base64Encode_shape (data data' : bytes) :
  length (_base64Encode data) = (4 * ((length data + 2) / 3))%nat
  ∧ (∃ body, _base64Encode data
             = body ++ replicate ((3 - length data mod 3) mod 3) "="%char
             ∧ Forall (λ x, x ∈ TABLE ∧ x ≠ "="%char) body)
  ∧ (_base64Encode data = [] ↔ data = [])
  ∧ (_base64Encode data = _base64Encode data' → data = data').
Proof.
  rewrite !_base64Encode_groups.
  split; [apply length_encode_groups|]. split.
  - destruct (encode_groups_alphabet data) as (body & pad & -> & Hbody & ->).
    by exists body.
  - split; [split; [apply encode_groups_nil | by intros ->]|].
    rewrite <- !_base64Encode_groups. apply _base64Encode_inj.
Qed.

Lemma uri_token_tokenURI tokenId : uri_token (tokenURI tokenId) = Some tokenId.
Proof.
  rewrite tokenURI_shape. unfold uri_token.
  rewrite strip_prefix_app. cbn [mbind option_bind].
  rewrite base64_roundtrip. cbn [mbind option_bind].
  rewrite strip_prefix_app. cbn [mbind option_bind].
  assert (Hmid : ∃ t, JSON_MID = dquote :: t) by (eexists; vm_compute; reflexivity).
  destruct Hmid as [mid Hmid]. rewrite Hmid at 1. rewrite <- app_comm_cons.
  rewrite (span_app is_digit); [|apply _toString_digits|by vm_compute].
  by rewrite _toString_value.
Qed.

(** X18: the document names its token.  For every tokenId, [tokenURI]
    starts with the data-URI header, and a client that decodes what
    follows and reads the digits after the name finds the tokenId; hence
    no two tokens have the same document, and no two the same image. *)
Theorem X18_tokenURI_names_token (tokenId tokenId' : N) :
  (∃ doc64, tokenURI tokenId = URI_HEAD ++ doc64
            ∧ base64Decode doc64
              = Some (JSON_HEAD ++ _toString tokenId ++ JSON_MID
                      ++ _base64Encode (_generateSVG tokenId) ++ JSON_TAIL))
  ∧ uri_token (tokenURI tokenId) = Some tokenId
  ∧ (tokenURI tokenId = tokenURI tokenId' → tokenId = tokenId')
  ∧ (_generateSVG tokenId = _generateSVG tokenId' → tokenId = tokenId').
Proof.
  split; [|split; [apply uri_token_tokenURI|split]].
  - eexists. split; [apply tokenURI_shape|apply base64_roundtrip].
  - intros H. apply (f_equal uri_token) in H. rewrite !uri_token_tokenURI in H. congruence.
  - unfold _generateSVG. intros H. do 5 apply app_inv_head in H.
    assert (Hspan : span is_digit (_toString tokenId ++ lit "</text>"
                      ++ lit "<text x='175' y='280' text-anchor='middle' fill='#888' font-size='14' font-family='Arial'>On-Chain Victory</text>"
                      ++ lit "</svg>") =
                    span is_digit (_toString tokenId' ++ lit "</text>"
                      ++ lit "<text x='175' y='280' text-anchor='middle' fill='#888' font-size='14' font-family='Arial'>On-Chain Victory</text>"
                      ++ lit "</svg>")) by (by rewrite H).
    assert (Hlt : ∃ t, lit "</text>" = "<"%char :: t) by (eexists; vm_compute; reflexivity).
    destruct Hlt as [t Hlt]. rewrite Hlt in Hspan. rewrite <- !app_comm_cons in Hspan.
    rewrite !(span_app is_digit) in Hspan;
      [|apply _toString_digits|by vm_compute|apply _toString_digits|by vm_compute].
    injection Hspan as Hd.
    by rewrite <- (_toString_value tokenId), Hd, _toString_value.
Qed.

(** ** The front end against the contract *)

Lemma combo_cells_line board winner (combo : list nat) :
  length combo = 3%nat →
  bool_decide (combo_cell board combo 0 = Some winner)
  && bool_decide (combo_cell board combo 1 = Some winner)
  && bool_decide (combo_cell board combo 2 = Some winner) = true
  ↔ line_of board winner combo.
Proof.
  intros Hlen. destruct combo as [|i [|j [|k [|]]]]; try done.
  unfold combo_cell, line_of. cbn.
  rewrite !andb_true_iff, !bool_decide_eq_true. split.
  - intros [[Hi Hj] Hk] x Hx. set_unfold in Hx. by destruct Hx as [->|[->|[->|[]]]].
  - intros H. repeat split; apply H; set_solver.
Qed.

Lemma findWinningCells_loop_spec combos board winner :
  Forall (λ combo, length combo = 3%nat) combos →
  let r := findWinningCells_loop combos board winner in
  (r = [] ∧ ∀ combo, combo ∈ combos → ¬ line_of board winner combo)
  ∨ (∃ before after, combos = before ++ r :: after
       ∧ line_of board winner r
       ∧ ∀ combo, combo ∈ before → ¬ line_of board winner combo).
Proof.
  cbn zeta. induction 1 as [|combo combos Hlen _ IH]; cbn [findWinningCells_loop].
  { left. split; [done|]. by intros combo ?%elem_of_nil. }
  pose proof (combo_cells_line board winner combo Hlen) as Hline.
  destruct (_ && _ && _).
  - right. exists [], combos. split; [done|]. split; [by apply Hline|].
    by intros c ?%elem_of_nil.
  - assert (Hno : ¬ line_of board winner combo) by (intros H%Hline; done).
    destruct IH as [[-> Hnone] | (before & after & Heq & Hr & Hbefore)].
    + left. split; [done|]. intros c [->|Hc]%elem_of_cons; [done|by apply Hnone].
    + right. exists (combo :: before), after. split; [by rewrite Heq at 1|].
      split; [done|]. intros c [->|Hc]%elem_of_cons; [done|by apply Hbefore].
Qed.

Lemma elem_of_middle {A} (l before after : list A) (r : A) :
  l = before ++ r :: after → r ∈ l.
Proof. intros ->. rewrite elem_of_app, elem_of_cons. right. by left. Qed.

Lemma WINNING_COMBINATIONS_length :
  Forall (λ combo : list nat, length combo = 3%nat) WINNING_COMBINATIONS.
Proof. by repeat constructor. Qed.

Lemma findWinningCells_spec board winner :
  let r := findWinningCells board winner in
  (r = [] ∧ ¬ hasWinner board winner)
  ∨ (∃ before after, WINNING_COMBINATIONS = before ++ r :: after
       ∧ line_of board winner r
       ∧ ∀ combo, combo ∈ before → ¬ line_of board winner combo).
Proof.
  cbn zeta.
  destruct (findWinningCells_loop_spec WINNING_COMBINATIONS board winner
              WINNING_COMBINATIONS_length) as [[Hr Hnone] | H]; [left|by right].
  split; [done|]. intros (line & Hin & Hline). by apply (Hnone line).
Qed.

(** X19: [findWinningCells] returns the first line of the table, in the
    table's order, whose three cells hold the mark, and the empty list
    when there is none.  On a nine-cell board it finds a line exactly
    when the contract's [_checkWinner] reports a win for the mark. *)
Theorem X19_findWinningCells_first_line (board : list CellState) (winner : CellState) :
  let r := findWinningCells board winner in
  ((r = [] ∧ ¬ hasWinner board winner)
   ∨ (∃ before after, WINNING_COMBINATIONS = before ++ r :: after
        ∧ length r = 3%nat
        ∧ (∀ i, i ∈ r → board !! i = Some winner)
        ∧ ∀ combo, combo ∈ before → ¬ line_of board winner combo))
  ∧ (length board = 9%nat → r ≠ [] ↔ _checkWinner board winner = true).
Proof.
  cbn zeta. pose proof (findWinningCells_spec board winner) as Hspec. cbn zeta in Hspec.
  assert (Hlen3 : ∀ before after, WINNING_COMBINATIONS
                    = before ++ findWinningCells board winner :: after →
                  length (findWinningCells board winner) = 3%nat).
  { intros before after Heq. pose proof WINNING_COMBINATIONS_length as Hall.
    rewrite Heq, Forall_app, Forall_cons in Hall. by destruct Hall as (_ & ? & _). }
  split.
  - destruct Hspec as [H | (before & after & Heq & Hline & Hfirst)]; [by left|].
    right. exists before, after. split; [done|]. split; [by eapply Hlen3|]. done.
  - intros Hlen. rewrite (_checkWinner_hasWinner _ _ Hlen).
    destruct Hspec as [[-> Hno] | (before & after & Heq & Hline & _)].
    + split; [done|]. intros H. by destruct Hno.
    + split.
      * intros _. exists (findWinningCells board winner). split; [|done].
        by eapply elem_of_middle.
      * intros _ Hnil. pose proof (Hlen3 before after Heq) as H3. by rewrite Hnil in H3.
Qed.

(** X19 on the top-row board of the test suite. *)
Lemma X19_witness :
  findWinningCells [X; X; X; O; O; Empty; Empty; Empty; Empty] X = [0; 1; 2]%nat
  ∧ findWinningCells [X; X; X; O; O; Empty; Empty; Empty; Empty] O = [].
Proof.
  split; [reflexivity|].
  destruct (X19_findWinningCells_first_line [X; X; X; O; O; Empty; Empty; Empty; Empty] O)
    as [_ Hiff].
  destruct (decide (findWinningCells [X; X; X; O; O; Empty; Empty; Empty; Empty] O = []))
    as [Hnil|Hne]; [exact Hnil|].
  apply (Hiff eq_refl) in Hne. vm_compute in Hne. discriminate Hne.
Defined.

Lemma client_getGame_run id s :
  client_getGame id s
  = (Ok (mkClientGame id (player1 (game_at s id)) (player2 (game_at s id))
           (board (game_at s id)) (currentTurn (game_at s id)) (winner (game_at s id))
           (state (game_at s id))), s).
Proof. reflexivity. Qed.

(** X20: the cells the page highlights.  When the client reads a finished
    game from reachable storage, [findWinningCells] on its board with
    the mark the page computes for the winner returns three cells of a
    line, all holding that mark; for a game that is not finished it
    returns the empty list for X and for O. *)
Theorem X20_highlight_of_finished_game (s : Contract) (gameId : N) (game : ClientGame) :
  reachable s → fst (client_getGame gameId s) = Ok game →
  (cg_state game = Finished →
     let cells := findWinningCells (cg_board game) (winnerMark game) in
     cells ∈ WINNING_COMBINATIONS
     ∧ (∀ i, i ∈ cells → cg_board game !! i = Some (winnerMark game))
     ∧ (winnerMark game = X ↔ cg_winner game = cg_player1 game)
     ∧ (winnerMark game = O ↔ cg_winner game = cg_player2 game))
  ∧ (cg_state game ≠ Finished →
     findWinningCells (cg_board game) X = [] ∧ findWinningCells (cg_board game) O = []).
Proof.
  intros Hs Hget. rewrite client_getGame_run in Hget. cbn [fst] in Hget.
  injection Hget as <-. unfold winnerMark. cbn [cg_state cg_board cg_winner cg_player1 cg_player2].
  destruct (reachable_invariant s Hs gameId) as ((Hlen & Hg) & _ & _).
  pose proof (reachable_sole_line s gameId Hs) as Hsole.
  pose proof (reachable_roles s gameId Hs) as Hroles.
  set (g := game_at s gameId) in *.
  split.
  - intros Hst. cbn zeta. rewrite Hst in Hg. destruct Hg as (_ & Hwho & Hwin).
    unfold roles_ok in Hroles. rewrite Hst in Hroles. destruct Hroles as [_ Hne].
    change (if bool_decide (winner g = player1 g) then X else O) with (mark_of (winner g) g).
    set (m := mark_of (winner g) g) in *.
    destruct (findWinningCells_spec (board g) m) as [[_ Hno] | (before & after & Heq & Hline & _)].
    { destruct Hno. by apply _checkWinner_hasWinner. }
    split; [by eapply elem_of_middle|].
    split; [done|]. unfold m, mark_of.
    case_bool_decide; (split; split; intros ?; try done; destruct Hwho; congruence).
  - intros Hst.
    assert (Hnone : ∀ m, m ≠ Empty → findWinningCells (board g) m = []).
    { intros m Hm.
      destruct (findWinningCells_spec (board g) m) as [[Hr _] | (before & after & Heq & Hline & _)];
        [done|].
      assert (Hw : hasWinner (board g) m).
      { exists (findWinningCells (board g) m). split; [|done]. by eapply elem_of_middle. }
      apply _checkWinner_hasWinner in Hw; [|done].
      by destruct (Hsole m Hm Hw). }
    split; by apply Hnone.
Qed.

(** X20 on the won game: the top row is highlighted. *)
Lemma X20_witness :
  ∃ game, fst (client_getGame 0 scenario_won) = Ok game
          ∧ findWinningCells (cg_board game) (winnerMark game) ∈ WINNING_COMBINATIONS.
Proof.
  eexists. split; [reflexivity|].
  destruct (X20_highlight_of_finished_game scenario_won 0 _ reachable_scenario_won eq_refl)
    as [Hfin _].
  exact (proj1 (Hfin eq_refl)).
Defined.

(** X21: the board forwards exactly the moves the contract takes.  Let the
    page hold the record of a game as the client reads it from reachable
    storage, and the wallet of the caller.  If a click on a cell issues a
    call, the page is not loading, the call is [makeMove] of that game
    and cell, and the contract accepts it; and when the page is not
    loading, every move that the contract accepts from the caller is
    issued by the click on its cell. *)
Theorem X21_click_forwards_legal_moves
    (env : Env) (s : Contract) (gameId : N) (game : ClientGame) (loading : bool)
    (position : nat) :
  reachable s → fst (client_getGame gameId s) = Ok game →
  let page := mkPage (Some game) (Some (sender env)) loading in
  (∀ call, Cell_click page position = Some call →
     call = (gameId, N.of_nat position)
     ∧ loading = false
     ∧ fst (transact (makeMove env gameId (N.of_nat position)) s) = Ok ())
  ∧ (loading = false →
     fst (transact (makeMove env gameId (N.of_nat position)) s) = Ok () →
     Cell_click page position = Some (gameId, N.of_nat position)).
Proof.
  intros Hs Hget. rewrite client_getGame_run in Hget. cbn [fst] in Hget.
  injection Hget as <-. cbn zeta.
  destruct (reachable_invariant s Hs gameId) as ((Hlen & Hg) & _ & _).
  set (g := game_at s gameId) in *.
  unfold Cell_click, Board_cells, Board_disabled, isMyTurn, handleCellClick.
  cbn [currentGame walletAddress isLoading cg_board cg_state cg_currentTurn cg_id].
  split.
  - intros call Hclick.
    destruct (board g !! position) as [value|] eqn:Hcell; [|done].
    cbn zeta in Hclick.
    destruct (bool_decide_reflect (value = Empty)) as [->|]; [|done].
    destruct (bool_decide_reflect (state g = InProgress)) as [Hst|]; [|done].
    destruct loading; [done|].
    destruct (bool_decide_reflect (currentTurn g = sender env)) as [Hturn|]; [|done].
    cbn in Hclick. rewrite bool_decide_eq_false_2 in Hclick by (by intros ?).
    injection Hclick as <-. split; [done|]. split; [done|].
    rewrite !transact_fst. rewrite Hst in Hg.
    destruct Hg as (_ & Hp1 & _ & _ & Hwho & _).
    pose proof (lookup_lt_Some _ _ _ Hcell) as Hlt.
    assert (Hc : cell (board g) (N.to_nat (N.of_nat position)) = Empty)
      by (unfold cell; by rewrite Nat2N.id, Hcell).
    assert (Hpos : N.of_nat position < 9) by lia.
    assert (Hwho' : sender env = player1 g ∨ sender env = player2 g)
      by (by rewrite Hturn in Hwho).
    destruct (makeMove_accept env gameId (N.of_nat position) s Hp1 Hst Hwho' (eq_sym Hturn)
                Hpos Hc) as [Hok | [Hpanic _]]; [done|].
    by destruct (makeMove_no_panic env gameId (N.of_nat position) s Hs).
  - intros -> Hok. rewrite transact_fst in Hok.
    destruct (makeMove env gameId (N.of_nat position) s) as [r s'] eqn:Hrun.
    cbn [fst] in Hok. subst r.
    destruct (makeMove_ok _ _ _ _ _ Hrun) as ((Hp1 & Hst & Hwho & Hturn & Hlt & Hcell) & _).
    pose proof (cell_empty_lookup _ _ Hlen Hlt Hcell) as Hl. rewrite Nat2N.id in Hl.
    fold g in Hst, Hturn, Hl. rewrite Hl. cbn zeta.
    rewrite bool_decide_eq_true_2 by done.
    rewrite (bool_decide_eq_true_2 (state g = InProgress)) by done.
    rewrite bool_decide_eq_true_2 by done. cbn.
    by rewrite bool_decide_eq_false_2 by (by intros ?).
Qed.

(** X21 on the joined game: [P1]'s click on the centre is forwarded, [P2]'s is not. *)
Lemma X21_witness :
  ∃ game, fst (client_getGame 0 scenario_joined) = Ok game
    ∧ Cell_click (mkPage (Some game) (Some 1) false) 4 = Some (0, 4)
    ∧ Cell_click (mkPage (Some game) (Some 2) false) 4 = None.
Proof.
  eexists. split; [reflexivity|].
  destruct (X21_click_forwards_legal_moves P1 scenario_joined 0 _ false 4
              reachable_scenario_joined eq_refl) as [_ Hfwd].
  split; [|reflexivity].
  apply Hfwd; [reflexivity | by vm_compute].
Defined.
